(** * Repository module: tiered template loader

    A shallow embedding of [src/index.js] (the AirJobs repository
    module) and the properties of its TTL cache, its single-flight guard,
    its remote fetch with mirror and bundled fallbacks, and its runtime
    reconfiguration.

    Conventions of the embedding:
    - the module-level variables ([config], [stepsCache],
      [workflowsCache], [lastFetchTime], [isFetching]) are the fields of
      [Loader]; [null] is [None];
    - what is outside the process is the record [World]: the disk (a
      map from directory paths to directories, a directory being a map
      from file names to texts), which file operations the operating
      system refuses, what GitHub answers to a request, the wall clock,
      and the trace of the I/O performed so far, console lines included;
    - code that can throw lives in the monad [M]: state passing with an
      outcome [Ok] or [Throw]; [try_catch] and [try_finally] are the
      JavaScript constructs;
    - JavaScript numbers holding integers (milliseconds, seconds, HTTP
      statuses) are [Z]; the arithmetic of [Z] is that of the code as
      long as the numbers are safe integers (below 2^53 in absolute
      value), beyond which a JavaScript number rounds;
    - serialization is kept abstract: a text either is the JSON of an
      item or does not parse, an item being a JSON object with an [id]
      (other JSON values, [null] in particular, which [JSON.parse]
      accepts too, are not texts of the model); the base64 envelope of
      GitHub is taken as decoded;
    - file names are compared exactly (a case-sensitive file system),
      and [path.join(a, b)] is [a/b]:
      this is what it is for a name [b] without path separator; the
      statements on where files land say so where ids are concerned. *)

From Stdlib Require Import ZArith Lia.
From stdpp Require Import base option list strings gmap fin_maps pretty.

Local Open Scope string_scope.

(** ** Data *)

(** An item is an opaque JSON record with an [id]; the other fields are
    never looked at and are kept as one blob.  [item_id] is the id as
    the template [`${item.id}.json`] renders it. *)
Record Item := mkItem { item_id : string; item_rest : string }.

Global Instance Item_eq_dec : EqDecision Item.
Proof. solve_decision. Defined.

(** The text of a file: either the serialization of an item, or text that
    [JSON.parse] rejects. *)
Inductive text :=
  | Json (i : Item)
  | Malformed (raw : string).

Global Instance text_eq_dec : EqDecision text.
Proof. solve_decision. Defined.

Definition JSON_stringify (i : Item) : text := Json i.

Definition JSON_parse (t : text) : option Item :=
  match t with
  | Json i => Some i
  | Malformed _ => None
  end.

(** One entry of a GitHub directory listing. *)
Record dirent := mkDirent { d_name : string; d_type : string }.

(** The JSON payload of a GitHub contents response: an array (directory
    listing) or an object (a file, with its base64 content decoded; [None]
    is a missing or empty [content]). *)
Inductive payload :=
  | PArray (entries : list dirent)
  | PObject (type : string) (content : option text).

(** What [fetch] gives back: a rejected promise (network error), or a
    response with a status; [body = None] is a body that is not JSON. *)
Inductive http :=
  | NetworkError (msg : string)
  | Response (status : Z) (statusText : string) (body : option payload).

Record Config := mkConfig {
  repo : string;
  branch : string;
  token : option string;
  repoPath : string;
  cacheTTL : Z;            (* milliseconds *)
  source : string;
}.

(** The module-level variables. *)
Record Loader := mkLoader {
  config : Config;
  stepsCache : option (list Item);
  workflowsCache : option (list Item);
  lastFetchTime : Z;
  isFetching : bool;
}.

(** File-system operations that the operating system may refuse. *)
Inductive fsop :=
  | OpMkdir (dir : string)
  | OpWriteFile (dir file : string)
  | OpReaddir (dir : string)
  | OpReadFile (dir file : string).

Inductive event :=
  | EvFetch (url : string) (authorization : option string)
  | EvExists (dir : string)
  | EvMkdir (dir : string)
  | EvWriteFile (dir file : string) (data : text)
  | EvReaddir (dir : string)
  | EvReadFile (dir file : string)
  | EvLog (msg : string).

(** The world outside the module: [disk] maps a directory path to its
    files, [refused] says which file operations fail, [github] answers a
    request, [now] is the wall clock in milliseconds. *)
Record World := mkWorld {
  dirname : string;
  disk : gmap string (gmap string text);
  refused : fsop → bool;
  github : string → option string → http;
  now : Z;
  trace : list event;
}.

Record State := mkState { loader : Loader; world : World }.

(** ** The monad of the module's functions *)

Inductive outcome (A : Type) :=
  | Ok (a : A)
  | Throw (msg : string).
Arguments Ok {A} a.
Arguments Throw {A} msg.

Definition M (A : Type) : Type := State → outcome A * State.

Global Instance M_ret : MRet M := λ A a s, (Ok a, s).
Global Instance M_bind : MBind M := λ A B f m s,
  match m s with
  | (Ok a, s') => f a s'
  | (Throw e, s') => (Throw e, s')
  end.

Definition throw {A} (msg : string) : M A := λ s, (Throw msg, s).

(** [try { body } catch (err) { handler(err.message) }] *)
Definition try_catch {A} (body : M A) (handler : string → M A) : M A := λ s,
  match body s with
  | (Ok a, s') => (Ok a, s')
  | (Throw e, s') => handler e s'
  end.

(** [try { body } finally { cleanup }]: the cleanup runs on both exits and
    the outcome of the body is kept (the cleanups of this module do not
    throw or return). *)
Definition try_finally {A} (body : M A) (cleanup : M unit) : M A := λ s,
  match body s with
  | (r, s') =>
      match cleanup s' with
      | (Ok _, s'') => (r, s'')
      | (Throw e, s'') => (Throw e, s'')
      end
  end.

Definition gets {A} (f : State → A) : M A := λ s, (Ok (f s), s).
Definition modify_loader (f : Loader → Loader) : M unit := λ s,
  (Ok tt, mkState (f (loader s)) (world s)).
Definition modify_world (f : World → World) : M unit := λ s,
  (Ok tt, mkState (loader s) (f (world s))).

(** Field updates. *)
Definition set_stepsCache (c : option (list Item)) (l : Loader) : Loader :=
  mkLoader (config l) c (workflowsCache l) (lastFetchTime l) (isFetching l).
Definition set_workflowsCache (c : option (list Item)) (l : Loader) : Loader :=
  mkLoader (config l) (stepsCache l) c (lastFetchTime l) (isFetching l).
Definition set_lastFetchTime (t : Z) (l : Loader) : Loader :=
  mkLoader (config l) (stepsCache l) (workflowsCache l) t (isFetching l).
Definition set_isFetching (b : bool) (l : Loader) : Loader :=
  mkLoader (config l) (stepsCache l) (workflowsCache l) (lastFetchTime l) b.

Definition set_disk (d : gmap string (gmap string text)) (w : World) : World :=
  mkWorld (dirname w) d (refused w) (github w) (now w) (trace w).
Definition set_now (t : Z) (w : World) : World :=
  mkWorld (dirname w) (disk w) (refused w) (github w) t (trace w).
Definition log_event (e : event) (w : World) : World :=
  mkWorld (dirname w) (disk w) (refused w) (github w) (now w) (trace w ++ [e])%list.

Definition emit (e : event) : M unit := modify_world (log_event e).

(** ** Strings and paths *)

(** [s.endsWith(suffix)] *)
Definition endsWith (s suffix : string) : bool :=
  let n := String.length s in
  let k := String.length suffix in
  (k <=? n)%nat && String.eqb (String.substring (n - k) k s) suffix.

(** [path.join(a, b)] for the paths the module builds, [b] being a
    name without path separator ([path.join] resolves the segments of a
    [b] that has some). *)
Definition join (a b : string) : string := a +:+ "/" +:+ b.

(** JS truthiness of a string and of a number. *)
Definition truthy_string (s : string) : bool := negb (String.eqb s "").
Definition truthy_number (z : Z) : bool := negb (z =? 0)%Z.
Definition truthy_opt_string (o : option string) : bool :=
  match o with Some s => truthy_string s | None => false end.

(** ** The outside world: console, clock, disk, network *)

Definition console_error (msg : string) : M unit := emit (EvLog msg).
Definition console_log (msg : string) : M unit := emit (EvLog msg).

Definition Date_now : M Z := gets (λ s, now (world s)).

Definition existsSync (dir : string) : M bool :=
  emit (EvExists dir);;
  gets (λ s, bool_decide (is_Some (disk (world s) !! dir))).

(** [mkdir(dir, { recursive: true })]: an existing directory is kept. *)
Definition ensure_dir (dir : string) (d : gmap string (gmap string text))
    : gmap string (gmap string text) :=
  match d !! dir with
  | Some _ => d
  | None => <[dir := ∅]> d
  end.

Definition mkdir (dir : string) : M unit :=
  emit (EvMkdir dir);;
  no ← gets (λ s, refused (world s) (OpMkdir dir));
  if no : bool then throw ("EACCES: mkdir " +:+ dir)
  else modify_world (λ w, set_disk (ensure_dir dir (disk w)) w).

(** [writeFile(join(dir, file), data)], [file] being a name without
    path separator: the file [file] of the directory [dir]. *)
Definition writeFile (dir file : string) (data : text) : M unit :=
  emit (EvWriteFile dir file data);;
  no ← gets (λ s, refused (world s) (OpWriteFile dir file));
  d ← gets (λ s, disk (world s) !! dir);
  match no, d with
  | true, _ => throw ("EACCES: open " +:+ join dir file)
  | false, None => throw ("ENOENT: open " +:+ join dir file)
  | false, Some files =>
      modify_world (λ w, set_disk (<[dir := <[file := data]> files]> (disk w)) w)
  end.

(** [readdir(dir)] *)
Definition readdir (dir : string) : M (list string) :=
  emit (EvReaddir dir);;
  no ← gets (λ s, refused (world s) (OpReaddir dir));
  d ← gets (λ s, disk (world s) !! dir);
  match no, d with
  | true, _ => throw ("EACCES: scandir " +:+ dir)
  | false, None => throw ("ENOENT: scandir " +:+ dir)
  | false, Some files => mret (map_to_list files).*1
  end.

(** [readFile(join(dir, file), 'utf-8')] *)
Definition readFile (dir file : string) : M text :=
  emit (EvReadFile dir file);;
  no ← gets (λ s, refused (world s) (OpReadFile dir file));
  d ← gets (λ s, disk (world s) !! dir);
  match no, d ≫= (λ files : gmap string text, files !! file) with
  | true, _ => throw ("EACCES: open " +:+ join dir file)
  | false, None => throw ("ENOENT: open " +:+ join dir file)
  | false, Some t => mret t
  end.

(** [JSON.parse(content)], which throws on malformed text. *)
Definition JSON_parse_or_throw (t : text) : M Item :=
  match JSON_parse t with
  | Some i => mret i
  | None => throw "SyntaxError: Unexpected token in JSON"
  end.

(** [fetch(url, { headers })]: the request is logged, the world answers. *)
Definition fetch (url : string) (authorization : option string) : M http :=
  emit (EvFetch url authorization);;
  gets (λ s, github (world s) url authorization).

(** ** The module's functions, in source order *)

(** [response.ok] *)
Definition ok (status : Z) : bool := (200 <=? status)%Z && (status <=? 299)%Z.

Definition fetchFromGitHub (path : string) : M payload :=
  cfg ← gets (λ s, config (loader s));
  let url := "https://api.github.com/repos/" +:+ repo cfg +:+ "/contents/"
             +:+ path +:+ "?ref=" +:+ branch cfg in
  let authorization :=
    match token cfg with
    | Some t => if truthy_string t then Some ("token " +:+ t) else None
    | None => None
    end in
  response ← fetch url authorization;
  match response with
  | NetworkError msg => throw msg
  | Response status statusText body =>
      if negb (ok status)
      then throw ("GitHub API error: " +:+ pretty status +:+ " " +:+ statusText)
      else match body with
           | Some json => mret json
           | None => throw "SyntaxError: Unexpected token in JSON"
           end
  end.

Definition fetchGitHubDirectory (subPath : string) : M (list dirent) :=
  cfg ← gets (λ s, config (loader s));
  let fullPath := repoPath cfg +:+ "/" +:+ subPath in
  contents ← fetchFromGitHub fullPath;
  match contents with
  | PArray entries => mret entries
  | PObject _ _ => throw ("Expected directory listing for " +:+ fullPath)
  end.

Definition fetchGitHubFile (filePath : string) : M Item :=
  cfg ← gets (λ s, config (loader s));
  let fullPath := repoPath cfg +:+ "/" +:+ filePath in
  file ← fetchFromGitHub fullPath;
  match file with
  | PObject type (Some content) =>
      if String.eqb type "file" then JSON_parse_or_throw content
      else throw ("Expected file content for " +:+ fullPath)
  | _ => throw ("Expected file content for " +:+ fullPath)
  end.

Definition cacheDir : M string := gets (λ s, join (dirname (world s)) ".cache").

(** The [for] loop of [saveToCacheDir]. *)
Fixpoint saveToCacheDir_loop (typeDir : string) (items : list Item) : M unit :=
  match items with
  | [] => mret tt
  | item :: rest =>
      writeFile typeDir (item_id item +:+ ".json") (JSON_stringify item);;
      saveToCacheDir_loop typeDir rest
  end.

Definition saveToCacheDir (type : string) (items : list Item) : M unit :=
  try_catch
    (dir ← cacheDir;
     let typeDir := join dir type in
     mkdir typeDir;;
     saveToCacheDir_loop typeDir items)
    (λ err, console_error ("Failed to save " +:+ type +:+ " to cache: " +:+ err)).

(** The [for] loop of [loadFromCacheDir]; [items] is the array built so
    far. A throw leaves the loop. *)
Fixpoint loadFromCacheDir_loop (typeDir : string) (files : list string)
    (items : list Item) : M (list Item) :=
  match files with
  | [] => mret items
  | file :: rest =>
      if negb (endsWith file ".json") then loadFromCacheDir_loop typeDir rest items
      else
        content ← readFile typeDir file;
        item ← JSON_parse_or_throw content;
        loadFromCacheDir_loop typeDir rest (items ++ [item])%list
  end.

Definition loadFromCacheDir (type : string) : M (option (list Item)) :=
  try_catch
    (dir ← cacheDir;
     let typeDir := join dir type in
     there ← existsSync typeDir;
     if negb there then mret None
     else
       files ← readdir typeDir;
       items ← loadFromCacheDir_loop typeDir files [];
       mret (if (0 <? length items)%nat then Some items else None))
    (λ err, mret None).

(** The [for] loop of [loadFromLocal]: each file has its own [try]. *)
Fixpoint loadFromLocal_loop (type typeDir : string) (files : list string)
    (items : list Item) : M (list Item) :=
  match files with
  | [] => mret items
  | file :: rest =>
      if negb (endsWith file ".json") then loadFromLocal_loop type typeDir rest items
      else
        items' ← try_catch
                   (content ← readFile typeDir file;
                    item ← JSON_parse_or_throw content;
                    mret (items ++ [item])%list)
                   (λ err, console_error ("Failed to load " +:+ type +:+ "/" +:+ file
                                           +:+ ": " +:+ err);;
                           mret items);
        loadFromLocal_loop type typeDir rest items'
  end.

Definition loadFromLocal (type : string) : M (list Item) :=
  root ← gets (λ s, dirname (world s));
  let typeDir := join root type in
  try_catch
    (files ← readdir typeDir;
     loadFromLocal_loop type typeDir files [])
    (λ err, console_error ("Failed to read local " +:+ type +:+ " directory: " +:+ err);;
            mret []).

(** The [for] loop of [loadFromGitHub]. *)
Fixpoint loadFromGitHub_loop (type : string) (directory : list dirent)
    (items : list Item) : M (list Item) :=
  match directory with
  | [] => mret items
  | file :: rest =>
      if String.eqb (d_type file) "file" && endsWith (d_name file) ".json" then
        items' ← try_catch
                   (item ← fetchGitHubFile (type +:+ "/" +:+ d_name file);
                    mret (items ++ [item])%list)
                   (λ err, console_error ("Failed to fetch " +:+ type +:+ "/"
                                           +:+ d_name file +:+ ": " +:+ err);;
                           mret items);
        loadFromGitHub_loop type rest items'
      else loadFromGitHub_loop type rest items
  end.

Definition loadFromGitHub (type : string) : M (list Item) :=
  try_catch
    (directory ← fetchGitHubDirectory type;
     items ← loadFromGitHub_loop type directory [];
     saveToCacheDir type items;;
     mret items)
    (λ err,
       console_error ("Failed to load " +:+ type +:+ " from GitHub: " +:+ err);;
       cached ← loadFromCacheDir type;
       match cached with
       | Some items =>
           console_log ("Using cached " +:+ type +:+ " from previous fetch");;
           mret items
       | None =>
           console_log ("Falling back to bundled " +:+ type);;
           loadFromLocal type
       end).

Definition isCacheStale : M bool :=
  t ← Date_now;
  l ← gets loader;
  mret (cacheTTL (config l) <? t - lastFetchTime l)%Z.

(** The body of the [try] of [loadWithCache]. *)
Definition loadWithCache_try (type : string) : M (list Item) :=
  src ← gets (λ s, source (config (loader s)));
  items ← (if String.eqb src "github" then loadFromGitHub type else loadFromLocal type);
  t ← Date_now;
  modify_loader (set_lastFetchTime t);;
  mret items.

(** [isFetching = true; try { body } finally { isFetching = false; }] *)
Definition single_flight {A} (body : M A) : M A :=
  modify_loader (set_isFetching true);;
  try_finally body (modify_loader (set_isFetching false)).

Definition loadWithCache (type : string) (cache : option (list Item)) : M (list Item) :=
  fresh ← match cache with
          | Some _ => stale ← isCacheStale; mret (negb stale)
          | None => mret false
          end;
  match cache, fresh with
  | Some items, true => mret items
  | _, _ =>
      fetching ← gets (λ s, isFetching (loader s));
      if fetching : bool then mret (default [] cache)
      else single_flight (loadWithCache_try type)
  end.

Definition loadSteps : M (list Item) :=
  cache ← gets (λ s, stepsCache (loader s));
  items ← loadWithCache "steps" cache;
  modify_loader (set_stepsCache (Some items));;
  mret items.

Definition loadWorkflows : M (list Item) :=
  cache ← gets (λ s, workflowsCache (loader s));
  items ← loadWithCache "workflows" cache;
  modify_loader (set_workflowsCache (Some items));;
  mret items.

(** The argument of [updateConfig]: a field is [None] when the object
    does not have it; [newToken = Some None] is [{ token: null }];
    [newCacheTTL] is in seconds, a whole number of them, and its
    product by 1000 is the one of the code when it is a safe integer. *)
Record NewConfig := mkNewConfig {
  newRepo : option string;
  newBranch : option string;
  newToken : option (option string);
  newRepoPath : option string;
  newCacheTTL : option Z;
  newSource : option string;
}.

(** [config.repo = v] and its five siblings. *)
Definition set_repo (v : string) (c : Config) : Config :=
  mkConfig v (branch c) (token c) (repoPath c) (cacheTTL c) (source c).
Definition set_branch (v : string) (c : Config) : Config :=
  mkConfig (repo c) v (token c) (repoPath c) (cacheTTL c) (source c).
Definition set_token (v : option string) (c : Config) : Config :=
  mkConfig (repo c) (branch c) v (repoPath c) (cacheTTL c) (source c).
Definition set_repoPath (v : string) (c : Config) : Config :=
  mkConfig (repo c) (branch c) (token c) v (cacheTTL c) (source c).
Definition set_cacheTTL (v : Z) (c : Config) : Config :=
  mkConfig (repo c) (branch c) (token c) (repoPath c) v (source c).
Definition set_source (v : string) (c : Config) : Config :=
  mkConfig (repo c) (branch c) (token c) (repoPath c) (cacheTTL c) v.

(** [if (newConfig.field) config.field = ...newConfig.field...;] *)
Definition when_truthy {A} (truthy : A → bool) (field : option A)
    (assign : A → Config → Config) (c : Config) : Config :=
  match field with
  | Some v => if truthy v then assign v c else c
  | None => c
  end.

Definition updateConfig (newConfig : NewConfig) (l : Loader) : Loader :=
  let c := config l in
  let c := when_truthy truthy_string (newRepo newConfig) set_repo c in
  let c := when_truthy truthy_string (newBranch newConfig) set_branch c in
  let c := when_truthy truthy_opt_string (newToken newConfig) set_token c in
  let c := when_truthy truthy_string (newRepoPath newConfig) set_repoPath c in
  let c := when_truthy truthy_number (newCacheTTL newConfig)
             (λ v, set_cacheTTL (v * 1000)%Z) c in
  let c := when_truthy truthy_string (newSource newConfig) set_source c in
  (* Clear cache to force reload with new config *)
  mkLoader c None None 0%Z (isFetching l).

(** ** The two collection types *)

Inductive collection := steps | workflows.

Global Instance collection_eq_dec : EqDecision collection.
Proof. solve_decision. Defined.

Definition type_name (T : collection) : string :=
  match T with steps => "steps" | workflows => "workflows" end.

Definition cache_of (T : collection) (l : Loader) : option (list Item) :=
  match T with steps => stepsCache l | workflows => workflowsCache l end.

Definition set_cache (T : collection) (c : option (list Item)) : Loader → Loader :=
  match T with steps => set_stepsCache c | workflows => set_workflowsCache c end.

Definition load (T : collection) : M (list Item) :=
  match T with steps => loadSteps | workflows => loadWorkflows end.

(** ** Interleaving of asynchronous calls

    An [async] function runs without interruption up to its first
    [await] that has to wait, and is resumed later; other callers run in
    between.  [loadWithCache] returns at once from its two early
    [return]s; otherwise it raises [isFetching] and waits for its source.
    [loadWithCache_start] is the part before the wait and
    [loadWithCache_resume] the part after it.  In the model a waiting
    load is resumed and runs to its end in one step ([complete]): its
    requests, the [finally] block and the assignment of the cache
    variable by [loadSteps] or [loadWorkflows] are not interleaved with
    other callers, who act before or after.  In particular the trace
    records the requests of a load when it ends, although the code sends
    the first of them, built from the configuration of that moment, as
    the load starts. *)

Inductive started :=
  | Returned (items : list Item)
  | Suspended.

Definition loadWithCache_start (cache : option (list Item)) : M started :=
  fresh ← match cache with
          | Some _ => stale ← isCacheStale; mret (negb stale)
          | None => mret false
          end;
  match cache, fresh with
  | Some items, true => mret (Returned items)
  | _, _ =>
      fetching ← gets (λ s, isFetching (loader s));
      if fetching : bool then mret (Returned (default [] cache))
      else modify_loader (set_isFetching true);; mret Suspended
  end.

Definition loadWithCache_resume (type : string) : M (list Item) :=
  try_finally (loadWithCache_try type) (modify_loader (set_isFetching false)).

(** A system: the state, and the loads that are waiting, oldest first. *)
Record System := mkSystem { state : State; waiting : list collection }.

Inductive action :=
  | Call (T : collection)          (* someone calls loadSteps() or loadWorkflows() *)
  | Complete                       (* the oldest waiting load is resumed and ends *)
  | Tick (d : Z)                   (* the clock moves by [d] milliseconds *)
  | Reconfigure (c : NewConfig)    (* someone calls updateConfig(c) *)
  | Refresh                        (* someone calls refreshCache() *)
  | Outside (g : string → option string → http) (r : fsop → bool).
                                   (* GitHub or the disk's permissions change *)

Definition call (T : collection) (S : System) : System :=
  let s := state S in
  match loadWithCache_start (cache_of T (loader s)) s with
  | (Ok (Returned items), s') =>
      mkSystem (mkState (set_cache T (Some items) (loader s')) (world s')) (waiting S)
  | (Ok Suspended, s') => mkSystem s' (waiting S ++ [T])
  | (Throw _, s') => mkSystem s' (waiting S)
  end.

Definition complete (S : System) : System :=
  match waiting S with
  | [] => S
  | T :: rest =>
      match loadWithCache_resume (type_name T) (state S) with
      | (Ok items, s') =>
          mkSystem (mkState (set_cache T (Some items) (loader s')) (world s')) rest
      | (Throw _, s') => mkSystem s' rest
      end
  end.

(** [refreshCache] up to its [await]: the three assignments, then
    [loadSteps()] and [loadWorkflows()] are called, in this order. *)
Definition clear_caches (l : Loader) : Loader :=
  mkLoader (config l) None None 0%Z (isFetching l).

Definition refreshCache (S : System) : System :=
  let s := state S in
  call workflows (call steps
    (mkSystem (mkState (clear_caches (loader s)) (world s)) (waiting S))).

Definition step (a : action) (S : System) : System :=
  let s := state S in
  match a with
  | Call T => call T S
  | Complete => complete S
  | Tick d => mkSystem (mkState (loader s) (set_now (now (world s) + d)%Z (world s))) (waiting S)
  | Reconfigure c => mkSystem (mkState (updateConfig c (loader s)) (world s)) (waiting S)
  | Refresh => refreshCache S
  | Outside g r =>
      let w := world s in
      mkSystem (mkState (loader s)
                  (mkWorld (dirname w) (disk w) r g (now w) (trace w))) (waiting S)
  end.

Fixpoint run (acts : list action) (S : System) : System :=
  match acts with
  | [] => S
  | a :: rest => run rest (step a S)
  end.

(** ** Vocabulary of the statements *)

(** The request [fetchFromGitHub path] sends under a configuration. *)
Definition contents_url (cfg : Config) (path : string) : string :=
  "https://api.github.com/repos/" +:+ repo cfg +:+ "/contents/"
  +:+ path +:+ "?ref=" +:+ branch cfg.

Definition authorization_of (cfg : Config) : option string :=
  match token cfg with
  | Some t => if truthy_string t then Some ("token " +:+ t) else None
  | None => None
  end.

Definition listing_url (cfg : Config) (type : string) : string :=
  contents_url cfg (repoPath cfg +:+ "/" +:+ type).

Definition file_url (cfg : Config) (type name : string) : string :=
  contents_url cfg (repoPath cfg +:+ "/" +:+ (type +:+ "/" +:+ name)).

(** The events that are a directory-listing request for [type]. *)
Definition is_listing (cfg : Config) (type : string) (e : event) : bool :=
  match e with
  | EvFetch url _ => String.eqb url (listing_url cfg type)
  | _ => false
  end.

Definition listing_calls (cfg : Config) (type : string) (tr : list event) : nat :=
  length (List.filter (is_listing cfg type) tr).

(** The events that change the disk, and the requests to GitHub. *)
Definition is_write (e : event) : bool :=
  match e with
  | EvMkdir _ | EvWriteFile _ _ _ => true
  | _ => false
  end.

Definition is_fetch (e : event) : bool :=
  match e with
  | EvFetch _ _ => true
  | _ => false
  end.

(** The state [s] after some I/O: the module's variables, the clock,
    GitHub and the permissions are those of [s], the disk is [d] and
    [evs] was appended to the trace. *)
Definition after (s : State) (d : gmap string (gmap string text))
    (evs : list event) : State :=
  let w := world s in
  mkState (loader s)
    (mkWorld (dirname w) d (refused w) (github w) (now w) (trace w ++ evs)%list).

Definition mirror_dir (w : World) (type : string) : string :=
  join (join (dirname w) ".cache") type.

Definition bundled_dir (w : World) (type : string) : string :=
  join (dirname w) type.

(** What [fetchFromGitHub] makes of an answer. *)
Definition decode (r : http) : outcome payload :=
  match r with
  | NetworkError msg => Throw msg
  | Response status statusText body =>
      if negb (ok status)
      then Throw ("GitHub API error: " +:+ pretty status +:+ " " +:+ statusText)
      else match body with
           | Some json => Ok json
           | None => Throw "SyntaxError: Unexpected token in JSON"
           end
  end.

(** The answer to the listing request for [type] in state [s]: the
    entries, when the listing step succeeds. *)
Definition listing (s : State) (type : string) : option (list dirent) :=
  let cfg := config (loader s) in
  match decode (github (world s) (listing_url cfg type) (authorization_of cfg)) with
  | Ok (PArray entries) => Some entries
  | _ => None
  end.

(** The listing step of [loadFromGitHub] fails, or gives [entries]. *)
Definition listing_fails (s : State) (type : string) : Prop :=
  ∃ msg s', fetchGitHubDirectory type s = (Throw msg, s').

Definition listing_gives (s : State) (type : string) (entries : list dirent) : Prop :=
  ∃ s', fetchGitHubDirectory type s = (Ok entries, s').

(** The item GitHub serves for the file [name] of [type], if the request
    succeeds and the content parses. *)
Definition remote_item (s : State) (type name : string) : option Item :=
  let cfg := config (loader s) in
  match decode (github (world s) (file_url cfg type name) (authorization_of cfg)) with
  | Ok (PObject type (Some content)) =>
      if String.eqb type "file" then JSON_parse content else None
  | _ => None
  end.

Definition is_json_file (file : dirent) : bool :=
  String.eqb (d_type file) "file" && endsWith (d_name file) ".json".

(** The items of a listing, in the order of the listing. *)
Definition remote_items (s : State) (type : string) (entries : list dirent) : list Item :=
  omap (λ file, if is_json_file file then remote_item s type (d_name file) else None)
       entries.

(** The events of the loop of [loadFromGitHub]: requests for the files of
    [type], and log lines. *)
Definition file_event (cfg : Config) (type : string) (e : event) : Prop :=
  (∃ name a, e = EvFetch (file_url cfg type name) a) ∨ (∃ msg, e = EvLog msg).

(** Events that neither reach GitHub nor change the disk. *)
Definition quiet (e : event) : Prop := is_fetch e = false ∧ is_write e = false.

(** The name of the mirror file of an item. *)
Definition file_name (i : Item) : string := item_id i +:+ ".json".

(** The items that [saveToCacheDir_loop] writes: those before the first
    refused write. *)
Fixpoint written (no : fsop → bool) (typeDir : string) (items : list Item) : list Item :=
  match items with
  | [] => []
  | i :: rest =>
      if no (OpWriteFile typeDir (file_name i)) then []
      else i :: written no typeDir rest
  end.

(** The items whose write is attempted: the written ones and the first
    refused one. *)
Fixpoint attempted (no : fsop → bool) (typeDir : string) (items : list Item) : list Item :=
  match items with
  | [] => []
  | i :: rest =>
      i :: (if no (OpWriteFile typeDir (file_name i)) then []
            else attempted no typeDir rest)
  end.

(** A directory after the items were written to it, in order. *)
Definition store (files : gmap string text) (items : list Item) : gmap string text :=
  foldl (λ m i, <[file_name i := JSON_stringify i]> m) files items.

(** The disk after [saveToCacheDir type items]. *)
Definition saved_disk (w : World) (type : string) (items : list Item)
    : gmap string (gmap string text) :=
  let typeDir := mirror_dir w type in
  if refused w (OpMkdir typeDir) then disk w
  else <[typeDir := store (default ∅ (disk w !! typeDir))
                          (written (refused w) typeDir items)]> (disk w).

Definition write_event (typeDir : string) (i : Item) : event :=
  EvWriteFile typeDir (file_name i) (JSON_stringify i).

(** The events of [saveToCacheDir]. *)
Definition save_events (w : World) (type : string) (items : list Item)
    (evs : list event) : Prop :=
  let typeDir := mirror_dir w type in
  if refused w (OpMkdir typeDir)
  then ∃ msg, evs = [EvMkdir typeDir; EvLog msg]
  else ∃ logs,
      evs = (EvMkdir typeDir :: (write_event typeDir <$> attempted (refused w) typeDir items)
             ++ logs)%list
      ∧ (written (refused w) typeDir items = items → logs = [])
      ∧ (written (refused w) typeDir items ≠ items → ∃ msg, logs = [EvLog msg]).

(** [file.endsWith('.json')] *)
Definition is_json (name : string) : bool := endsWith name ".json".

(** The item read from one file of a directory, when the read is allowed
    and the text parses. *)
Definition read_item (w : World) (typeDir : string) (files : gmap string text)
    (name : string) : option Item :=
  if refused w (OpReadFile typeDir name) then None
  else files !! name ≫= JSON_parse.

(** What [readdir] lists. *)
Definition file_names (files : gmap string text) : list string :=
  (map_to_list files).*1.

(** What the mirror holds for [type], as [loadFromCacheDir] sees it: every
    [.json] file read and parsed, or nothing. *)
Definition mirror_read (w : World) (type : string) : option (list Item) :=
  let typeDir := mirror_dir w type in
  match disk w !! typeDir with
  | None => None
  | Some files =>
      if refused w (OpReaddir typeDir) then None
      else match mapM (read_item w typeDir files)
                      (List.filter is_json (file_names files)) with
           | Some (i :: items) => Some (i :: items)
           | _ => None
           end
  end.

(** The module's variables after a load went to its source at time [t]. *)
Definition refetched (l : Loader) (t : Z) : Loader :=
  mkLoader (config l) (stepsCache l) (workflowsCache l) t false.

(** What a load that goes to its source returns ([items]), leaves on the
    disk ([d]) and does ([evs]). *)
Definition fetch_spec (s : State) (type : string) (items : list Item)
    (d : gmap string (gmap string text)) (evs : list event) : Prop :=
  let cfg := config (loader s) in
  if String.eqb (source cfg) "github" then
    match listing s type with
    | Some entries =>
        items = remote_items s type entries
        ∧ d = saved_disk (world s) type items
        ∧ ∃ fevs sevs,
            evs = (EvFetch (listing_url cfg type) (authorization_of cfg) :: fevs ++ sevs)%list
            ∧ Forall (file_event cfg type) fevs
            ∧ save_events (world s) type items sevs
    | None =>
        d = disk (world s)
        ∧ (∃ evs', evs = EvFetch (listing_url cfg type) (authorization_of cfg) :: evs'
                   ∧ Forall quiet evs')
        ∧ (∀ cached, mirror_read (world s) type = Some cached → items = cached)
    end
  else
    d = disk (world s)
    ∧ Forall quiet evs
    ∧ ∃ evs', evs = EvReaddir (bundled_dir (world s) type) :: evs'.

(** Whether a call of [load T] in state [s] goes to its source. *)
Definition stale (s : State) : bool :=
  (cacheTTL (config (loader s)) <? now (world s) - lastFetchTime (loader s))%Z.

Definition goes_to_source (T : collection) (s : State) : bool :=
  negb (isFetching (loader s))
  && match cache_of T (loader s) with
     | Some _ => stale s
     | None => true
     end.


(** At most one load waits, and [isFetching] is raised exactly while one
    does. *)
Definition single_flight_inv (S : System) : Prop :=
  (length (waiting S) ≤ 1)%nat
  ∧ (isFetching (loader (state S)) = true ↔ waiting S ≠ []).

(** The actions that may come between two calls of [load T]: the clock
    moves forward, a waiting load ends, the outside changes, the other
    collection is loaded.  Not [updateConfig], not [refreshCache], not a
    further call of [load T]. *)
Definition passive (T : collection) (a : action) : Prop :=
  match a with
  | Tick d => (0 ≤ d)%Z
  | Complete => True
  | Outside _ _ => True
  | Call U => U ≠ T
  | Reconfigure _ => False
  | Refresh => False
  end.

(** The time that passes during a run. *)
Fixpoint elapsed (acts : list action) : Z :=
  match acts with
  | [] => 0
  | Tick d :: rest => d + elapsed rest
  | _ :: rest => elapsed rest
  end.

(** No load is under way. *)
Definition quiescent (S : System) : Prop :=
  isFetching (loader (state S)) = false ∧ waiting S = [].

(** Where a run stands after a first call of [load T] at time [t1]. *)
Inductive phase := Idle | Pending | Done.

Definition window_inv (cfg : Config) (T : collection) (t1 : Z) (ph : phase)
    (n : nat) (S : System) : Prop :=
  let s := state S in
  config (loader s) = cfg
  ∧ (t1 ≤ now (world s))%Z
  ∧ (listing_calls cfg (type_name T) (trace (world s)) ≤ n)%nat
  ∧ match ph with
    | Pending => isFetching (loader s) = true ∧ waiting S = [T]
    | Idle => single_flight_inv S ∧ (T ∉ waiting S)
    | Done => single_flight_inv S ∧ (T ∉ waiting S)
              ∧ is_Some (cache_of T (loader s))
              ∧ (t1 ≤ lastFetchTime (loader s))%Z
    end.

(** The mirror directory [files] holds exactly [items]: every [.json]
    file of the directory is the serialization of an item, and [items]
    lists them in directory order. *)
Definition holds_items (files : gmap string text) (items : list Item) : Prop :=
  Forall2 (λ name item, files !! name = Some (Json item))
          (List.filter is_json (file_names files)) items.

(** The operating system lets the directory be listed and read. *)
Definition readable (w : World) (dir : string) : Prop :=
  refused w (OpReaddir dir) = false
  ∧ ∀ name, refused w (OpReadFile dir name) = false.

(** The mirror read as the specification words it: absent when the
    directory does not exist or yields no parsable item, otherwise every
    [.json] file that parses, the others skipped. *)
Definition spec_mirror_read (w : World) (type : string) : option (list Item) :=
  let typeDir := mirror_dir w type in
  match disk w !! typeDir with
  | None => None
  | Some files =>
      match omap (read_item w typeDir files)
                 (List.filter is_json (file_names files)) with
      | [] => None
      | items => Some items
      end
  end.

(** The first request a load sends to its source. *)
Definition source_request (s : State) (type : string) : event :=
  let cfg := config (loader s) in
  if String.eqb (source cfg) "github"
  then EvFetch (listing_url cfg type) (authorization_of cfg)
  else EvReaddir (bundled_dir (world s) type).

(** A mirror directory as the module leaves it: every [.json] file is
    the serialization of an item and is named after the id of that item. *)
Definition mirror_wf (files : gmap string text) : Prop :=
  ∀ name t, files !! name = Some t → is_json name = true →
            ∃ i, t = Json i ∧ name = file_name i.

(** ** Concrete installations, for examples *)

Module Example.

Definition cfg : Config :=
  mkConfig "CEREMA/airjobs" "main" None "src/repository" 300000 "github".

Definition a : Item := mkItem "a" "{ name: first }".
Definition a' : Item := mkItem "a" "{ name: second }".
Definition b : Item := mkItem "b" "{ name: other }".

Definition url (path : string) : string :=
  "https://api.github.com/repos/CEREMA/airjobs/contents/src/repository/"
  +:+ path +:+ "?ref=main".

(** GitHub serves [steps/a.json], [steps/b.json] and a README; nothing
    for workflows. *)
Definition up (u : string) (authorization : option string) : http :=
  if String.eqb u (url "steps") then
    Response 200 "OK"
      (Some (PArray [mkDirent "a.json" "file"; mkDirent "README.md" "file";
                     mkDirent "b.json" "file"]))
  else if String.eqb u (url "steps/a.json") then
    Response 200 "OK" (Some (PObject "file" (Some (Json a))))
  else if String.eqb u (url "steps/b.json") then
    Response 200 "OK" (Some (PObject "file" (Some (Json b))))
  else Response 404 "Not Found" None.

(** GitHub is unreachable. *)
Definition down (u : string) (authorization : option string) : http :=
  NetworkError "fetch failed".

Definition allowed (op : fsop) : bool := false.

(** Nothing on disk, GitHub up, at time 1000. *)
Definition w0 : World := mkWorld "/app" ∅ allowed up 1000 [].

Definition l0 : Loader := mkLoader cfg None None 0 false.

Definition s0 : State := mkState l0 w0.

(** The steps were fetched at time 900 and are cached. *)
Definition s_cached : State :=
  mkState (mkLoader cfg (Some [a]) None 900 false) w0.

End Example.

(** GitHub is down and the mirror holds [a.json]. *)
Module Offline.

Definition mirror : gmap string (gmap string text) :=
  {[ "/app/.cache/steps" := {[ "a.json" := Json Example.a ]} ]}.

Definition s : State :=
  mkState Example.l0
    (mkWorld "/app" mirror Example.allowed Example.down 1000 []).

End Offline.

(** The workflows were fetched at time 0 and it is now 1000000, far past
    the TTL of 300000; the steps were never loaded. *)
Module Aged.

Definition s : State :=
  mkState (mkLoader Example.cfg None (Some [Example.b]) 0 false)
          (mkWorld "/app" ∅ Example.allowed Example.up 1000000 []).

End Aged.

(** A load of steps is waiting; the workflows are cached. *)
Module Busy.

Definition s : State :=
  mkState (mkLoader Example.cfg None (Some [Example.b]) 0 true) Example.w0.

Definition S : System := mkSystem s [steps].

End Busy.

(** The disk refuses to write [a.json] in the steps mirror (and nothing
    else); the mirror is empty. *)
Module ReadOnlyFile.

Definition no (op : fsop) : bool :=
  match op with
  | OpWriteFile dir file => String.eqb dir "/app/.cache/steps" && String.eqb file "a.json"
  | _ => false
  end.

Definition s : State :=
  mkState Example.l0 (mkWorld "/app" ∅ no Example.up 1000 []).

End ReadOnlyFile.

(** The steps mirror holds a good [a.json] and a [b.json] that does not
    parse. *)
Module Corrupt.

Definition mirror : gmap string (gmap string text) :=
  {[ "/app/.cache/steps" :=
       {[ "a.json" := Json Example.a; "b.json" := Malformed "{ id: " ]} ]}.

Definition s : State :=
  mkState Example.l0 (mkWorld "/app" mirror Example.allowed Example.down 1000 []).

End Corrupt.

(** [updateConfig({ cacheTTL: 0, token: null })] and
    [updateConfig({ cacheTTL: 60, source: 'local' })]. *)
Module Reconfig.


Definition local_60 : NewConfig :=
  mkNewConfig None None None None (Some 60%Z) (Some "local").

(** A token is configured and both collections are cached. *)
Definition l : Loader :=
  mkLoader (mkConfig "CEREMA/airjobs" "main" (Some "secret") "src/repository" 300000 "github")
           (Some [Example.a]) (Some [Example.b]) 900 false.

End Reconfig.

(** TTL zero, the steps cached by a fetch that ended at time 1000, and
    the clock still at 1000. *)
Module SameInstant.

Definition cfg : Config :=
  mkConfig "CEREMA/airjobs" "main" None "src/repository" 0 "github".

Definition s : State :=
  mkState (mkLoader cfg (Some [Example.a]) None 1000 false) Example.w0.

Definition later : State :=
  mkState (mkLoader cfg (Some [Example.a]) None 1000 false)
          (mkWorld "/app" ∅ Example.allowed Example.up 1001 []).

End SameInstant.

(** GitHub serves two files whose items have the same id. *)
Module Duplicates.

Definition up (u : string) (authorization : option string) : http :=
  if String.eqb u (Example.url "steps") then
    Response 200 "OK"
      (Some (PArray [mkDirent "a.json" "file"; mkDirent "b.json" "file"]))
  else if String.eqb u (Example.url "steps/a.json") then
    Response 200 "OK" (Some (PObject "file" (Some (Json Example.a))))
  else if String.eqb u (Example.url "steps/b.json") then
    Response 200 "OK" (Some (PObject "file" (Some (Json Example.a'))))
  else Response 404 "Not Found" None.

Definition s : State :=
  mkState Example.l0 (mkWorld "/app" ∅ Example.allowed up 1000 []).

End Duplicates.

(** ** The other exported functions *)

(** What [s.id] is for a parsed value [s] when it is compared with a
    string by [===]: a string; a value that is no string ([undefined]
    for a value without [id], a number, ...), which [===] never finds
    equal to a string; or, for [null], nothing at all: reading [.id] of
    [null] throws a TypeError.  ([JSON.parse] accepts the text [null],
    and the loops push what it returns.) *)
Inductive id_value :=
  | IdString (v : string)
  | IdOther
  | IdOfNull.

Section Lookup.

(** What [s.id] is for each item of the model. *)
Variable id_of : Item → id_value.

(** [items.find(s => s.id === id)], for a string [id]; [undefined] is
    [None]. *)
Fixpoint find_by_id (id : string) (items : list Item) : M (option Item) :=
  match items with
  | [] => mret None
  | s :: rest =>
      match id_of s with
      | IdString v => if String.eqb v id then mret (Some s) else find_by_id id rest
      | IdOther => find_by_id id rest
      | IdOfNull => throw "TypeError: Cannot read properties of null (reading 'id')"
      end
  end.

Definition getStepById (id : string) : M (option Item) :=
  all ← loadSteps;
  find_by_id id all.

Definition getWorkflowById (id : string) : M (option Item) :=
  all ← loadWorkflows;
  find_by_id id all.

Definition getById (T : collection) : string → M (option Item) :=
  match T with steps => getStepById | workflows => getWorkflowById end.

End Lookup.

(** The reading of [id_of] for items that are objects with a string
    [id]: [item_id] is that string. *)
Definition string_ids (i : Item) : id_value := IdString (item_id i).

(** The object [refreshCache] returns.  It is built when both loads have
    ended, from the module's variables at that moment; [timestamp] is
    kept as the instant, in milliseconds (the clock is [Date.now()], so
    the instant is a valid date and [toISOString] does not throw). *)
Record Summary := mkSummary {
  sum_steps : nat;
  sum_workflows : nat;
  sum_source : string;
  sum_timestamp : Z;
}.

Definition refreshCache_result (s : State) : Summary :=
  mkSummary (length (default [] (stepsCache (loader s))))
            (length (default [] (workflowsCache (loader s))))
            (source (config (loader s)))
            (now (world s)).

(** The object [getCacheStatus] returns.  [cacheTTL] is in seconds, the
    exact quotient of the configured milliseconds by 1000 (the code
    reports the double nearest to it); [lastFetch]
    is the instant of the last fetch, in milliseconds, or [None] for
    [null] ([lastFetchTime] is 0 or a value of [Date.now()], a valid
    date, so [toISOString] does not throw). *)
Record CacheStatus := mkCacheStatus {
  st_source : string;
  st_repo : string;
  st_branch : option string;
  st_cacheTTL : QArith_base.Q;
  st_lastFetch : option Z;
  st_isStale : bool;
  st_stepsCount : nat;
  st_workflowsCount : nat;
}.

Definition getCacheStatus : M CacheStatus :=
  l ← gets loader;
  let cfg := config l in
  let remote := String.eqb (source cfg) "github" in
  isStale ← isCacheStale;
  mret (mkCacheStatus
          (source cfg)
          (if remote then repo cfg else "local")
          (if remote then Some (branch cfg) else None)
          (QArith_base.Qmake (cacheTTL cfg) 1000)
          (if truthy_number (lastFetchTime l) then Some (lastFetchTime l) else None)
          isStale
          (length (default [] (stepsCache l)))
          (length (default [] (workflowsCache l)))).

(** ** Further vocabulary *)

(** What the bundled directory of [type] gives, as [loadFromLocal] sees
    it: nothing when the directory is missing or cannot be listed,
    otherwise the items of the [.json] files that can be read and parse,
    in directory order. *)
Definition bundled_read (w : World) (type : string) : list Item :=
  let typeDir := bundled_dir w type in
  match disk w !! typeDir with
  | None => []
  | Some files =>
      if refused w (OpReaddir typeDir) then []
      else omap (read_item w typeDir files) (List.filter is_json (file_names files))
  end.

(** The request for one file of a listing. *)
Definition file_request (cfg : Config) (type : string) (file : dirent) : event :=
  EvFetch (file_url cfg type (d_name file)) (authorization_of cfg).

(** The events that read the local disk. *)
Definition is_read (e : event) : bool :=
  match e with
  | EvExists _ | EvReaddir _ | EvReadFile _ _ => true
  | _ => false
  end.

(** Among [items], the last one whose mirror file is [name]. *)
Definition last_named (name : string) (items : list Item) : option Item :=
  last (filter (λ i, file_name i = name) items).

(** The characters that end a file name: slash, backslash, NUL. *)
Definition separator (a : Ascii.ascii) : bool :=
  let n := Ascii.nat_of_ascii a in
  (n =? 47)%nat || (n =? 92)%nat || (n =? 0)%nat.

(** An id that makes a plain file name: it holds no path separator and
    no NUL character.  For such an id [path.join(typeDir, id + ".json")]
    is [typeDir/id.json], a file of [typeDir] itself, which is what
    [join] and [writeFile] take it to be; an id with a separator names
    a path that [path.join] resolves, possibly out of [typeDir]. *)
Fixpoint plain_id (id : string) : bool :=
  match id with
  | EmptyString => true
  | String a rest => negb (separator a) && plain_id rest
  end.

(** An integer that a JavaScript number holds exactly
    ([Number.isSafeInteger]); products and quotients of such integers
    that are such integers are computed exactly. *)
Definition safe_integer (z : Z) : Prop := (Z.abs z ≤ 9007199254740991)%Z.

(** The count the status reports for a collection. *)
Definition count_of (T : collection) (st : CacheStatus) : nat :=
  match T with steps => st_stepsCount st | workflows => st_workflowsCount st end.

(** The field of the second object when it is truthy, else the field of
    the first. *)
Definition later_field {A} (truthy : A → bool) (a b : option A) : option A :=
  match b with
  | Some v => if truthy v then b else a
  | None => a
  end.

(** One argument of [updateConfig] that does what two calls do. *)
Definition merged (c1 c2 : NewConfig) : NewConfig :=
  mkNewConfig (later_field truthy_string (newRepo c1) (newRepo c2))
              (later_field truthy_string (newBranch c1) (newBranch c2))
              (later_field truthy_opt_string (newToken c1) (newToken c2))
              (later_field truthy_string (newRepoPath c1) (newRepoPath c2))
              (later_field truthy_number (newCacheTTL c1) (newCacheTTL c2))
              (later_field truthy_string (newSource c1) (newSource c2)).

(** ** Further installations *)

(** The bundled steps directory holds a good [a.json], a [b.json] that
    does not parse and a text file; the source is local. *)
Module Bundled.

Definition files : gmap string text :=
  {[ "a.json" := Json Example.a; "b.json" := Malformed "{ id: ";
     "notes.txt" := Malformed "to do" ]}.

Definition cfg : Config :=
  mkConfig "CEREMA/airjobs" "main" None "src/repository" 300000 "local".

Definition s : State :=
  mkState (mkLoader cfg None None 0 false)
          (mkWorld "/app" {[ "/app/steps" := files ]} Example.allowed Example.up 1000 []).

(** The same disk, GitHub as the source and down, no mirror. *)
Definition offline : State :=
  mkState Example.l0
          (mkWorld "/app" {[ "/app/steps" := files ]} Example.allowed Example.down 1000 []).

End Bundled.

(** GitHub lists [a.json] for the steps but serves no file; the steps
    mirror holds [a.json] from an earlier fetch. *)
Module ListingOnly.

Definition up (u : string) (authorization : option string) : http :=
  if String.eqb u (Example.url "steps") then
    Response 200 "OK" (Some (PArray [mkDirent "a.json" "file"]))
  else Response 404 "Not Found" None.

Definition s : State :=
  mkState Example.l0 (mkWorld "/app" Offline.mirror Example.allowed up 1000 []).

End ListingOnly.

(** The mirror of the steps holds [b.json] from an earlier fetch. *)
Module Leftover.

Definition mirror : gmap string (gmap string text) :=
  {[ "/app/.cache/steps" := {[ "b.json" := Json Example.b ]} ]}.

Definition s : State :=
  mkState Example.l0 (mkWorld "/app" mirror Example.allowed Example.up 1000 []).

End Leftover.

(** A load of the steps is waiting and nothing was loaded yet. *)
Module Starting.

Definition s : State :=
  mkState (mkLoader Example.cfg None None 0 true) Example.w0.

Definition S : System := mkSystem s [steps].

End Starting.

(** * Lemmas on the embedding *)

(** ** The monad, and the state after some I/O *)

Lemma after_id s : after s (disk (world s)) [] = s.
Proof. destruct s as [l [? ? ? ? ? ?]]. unfold after; simpl. by rewrite app_nil_r. Qed.

Lemma after_after s d1 e1 d2 e2 :
  after (after s d1 e1) d2 e2 = after s d2 (e1 ++ e2).
Proof. unfold after; simpl. by rewrite app_assoc. Qed.

Lemma bind_run {A B} (m : M A) (f : A → M B) s :
  (m ≫= f) s = match m s with (Ok a, s') => f a s' | (Throw e, s') => (Throw e, s') end.
Proof. reflexivity. Qed.

Lemma bind_gets {A B} (g : State → A) (k : A → M B) s :
  (gets g ≫= k) s = k (g s) s.
Proof. reflexivity. Qed.

Lemma emit_run e s : emit e s = (Ok tt, after s (disk (world s)) [e]).
Proof. reflexivity. Qed.

Lemma try_catch_run {A} (body : M A) h s :
  try_catch body h s = match body s with (Ok a, s') => (Ok a, s') | (Throw e, s') => h e s' end.
Proof. reflexivity. Qed.

Lemma mret_run {A} (a : A) s : mret (M:=M) a s = (Ok a, s).
Proof. reflexivity. Qed.
Lemma throw_run {A} msg s : throw (A:=A) msg s = (Throw msg, s).
Proof. reflexivity. Qed.
Lemma gets_run {A} (g : State → A) s : gets g s = (Ok (g s), s).
Proof. reflexivity. Qed.
Lemma loader_after s d e : loader (after s d e) = loader s.
Proof. reflexivity. Qed.
Lemma disk_after s d e : disk (world (after s d e)) = d.
Proof. reflexivity. Qed.
Lemma dirname_after s d e : dirname (world (after s d e)) = dirname (world s).
Proof. reflexivity. Qed.
Lemma refused_after s d e : refused (world (after s d e)) = refused (world s).
Proof. reflexivity. Qed.
Lemma github_after s d e : github (world (after s d e)) = github (world s).
Proof. reflexivity. Qed.
Lemma now_after s d e : now (world (after s d e)) = now (world s).
Proof. reflexivity. Qed.

(** Symbolic execution of a computation in [M]: the binds, the
    primitives and the fields of the state after I/O are rewritten away. *)
Ltac mstep :=
  repeat first
    [ rewrite bind_run | rewrite try_catch_run | rewrite mret_run
    | rewrite throw_run | rewrite gets_run | rewrite emit_run
    | rewrite after_after | rewrite loader_after | rewrite disk_after
    | rewrite dirname_after | rewrite refused_after | rewrite github_after
    | rewrite now_after
    | progress cbv beta iota ].

(** ** Requests to GitHub *)

Lemma fetchFromGitHub_run path s :
  fetchFromGitHub path s =
  (decode (github (world s) (contents_url (config (loader s)) path)
             (authorization_of (config (loader s)))),
   after s (disk (world s))
     [EvFetch (contents_url (config (loader s)) path)
        (authorization_of (config (loader s)))]).
Proof.
  unfold fetchFromGitHub, fetch. rewrite !bind_run. simpl.
  rewrite !bind_run. simpl.
  unfold contents_url, authorization_of, decode, after. simpl.
  destruct (github _ _ _) as [msg|st txt [j|]]; simpl; try reflexivity.
  all: destruct (ok st); reflexivity.
Qed.

Lemma fetchGitHubDirectory_ok type s entries :
  listing s type = Some entries →
  fetchGitHubDirectory type s =
  (Ok entries, after s (disk (world s))
     [EvFetch (listing_url (config (loader s)) type) (authorization_of (config (loader s)))]).
Proof.
  unfold listing, fetchGitHubDirectory. intros H.
  rewrite bind_gets, bind_run, fetchFromGitHub_run.
  unfold listing_url in *. simpl.
  destruct (decode _) as [[es|ty c]|msg]; simplify_eq. reflexivity.
Qed.

Lemma fetchGitHubDirectory_fail type s :
  listing s type = None →
  ∃ msg, fetchGitHubDirectory type s =
  (Throw msg, after s (disk (world s))
     [EvFetch (listing_url (config (loader s)) type) (authorization_of (config (loader s)))]).
Proof.
  unfold listing, fetchGitHubDirectory. intros H.
  rewrite bind_gets, bind_run, fetchFromGitHub_run.
  unfold listing_url in *. simpl.
  destruct (decode _) as [[es|ty c]|msg]; simplify_eq; eauto.
Qed.

Lemma listing_fails_None type s : listing_fails s type ↔ listing s type = None.
Proof.
  split.
  - intros (msg & s' & H). destruct (listing s type) as [entries|] eqn:Hl; [|done].
    rewrite (fetchGitHubDirectory_ok _ _ _ Hl) in H. discriminate H.
  - intros Hl. destruct (fetchGitHubDirectory_fail _ _ Hl) as [msg H]. by eexists _, _.
Qed.

Lemma listing_gives_Some type s entries :
  listing_gives s type entries ↔ listing s type = Some entries.
Proof.
  split.
  - intros (s' & H). destruct (listing s type) as [entries'|] eqn:Hl.
    + rewrite (fetchGitHubDirectory_ok _ _ _ Hl) in H. by injection H as ->.
    + destruct (fetchGitHubDirectory_fail _ _ Hl) as [msg H']. rewrite H' in H.
      discriminate H.
  - intros Hl. eexists. by apply fetchGitHubDirectory_ok.
Qed.

Lemma fetchGitHubFile_run type name s :
  ∃ r, fetchGitHubFile (type +:+ "/" +:+ name) s =
  (r, after s (disk (world s))
     [EvFetch (file_url (config (loader s)) type name) (authorization_of (config (loader s)))])
  ∧ match remote_item s type name with
    | Some i => r = Ok i
    | None => ∃ msg, r = Throw msg
    end.
Proof.
  unfold remote_item, fetchGitHubFile.
  rewrite bind_gets, bind_run, fetchFromGitHub_run.
  unfold file_url in *. simpl.
  destruct (decode _) as [[es|ty [c|]]|msg]; simpl; eauto.
  destruct (String.eqb ty "file"); simpl; eauto.
  unfold JSON_parse_or_throw. destruct (JSON_parse c); simpl; eauto.
Qed.

Lemma remote_items_after s d e type dir :
  remote_items (after s d e) type dir = remote_items s type dir.
Proof. reflexivity. Qed.

Lemma loadFromGitHub_loop_run type dir : ∀ items s,
  ∃ evs, loadFromGitHub_loop type dir items s =
         (Ok (items ++ remote_items s type dir)%list, after s (disk (world s)) evs)
  ∧ Forall (file_event (config (loader s)) type) evs.
Proof.
  induction dir as [|file rest IH]; intros items s; cbn [loadFromGitHub_loop remote_items omap list_omap].
  - exists []. rewrite after_id, app_nil_r. split; [reflexivity|constructor].
  - fold (is_json_file file). destruct (is_json_file file) eqn:Hj; [|apply IH].
    mstep.
    destruct (fetchGitHubFile_run type (d_name file) s) as (r & -> & Hr).
    destruct (remote_item s type (d_name file)) as [i|] eqn:Hi.
    + subst r. mstep.
      match goal with |- context [loadFromGitHub_loop type rest ?its ?s'] =>
          destruct (IH its s') as (evs & -> & Hevs) end.
      eexists. mstep. rewrite remote_items_after, <- app_assoc. split; [reflexivity|].
      constructor; [left; eauto|done].
    + destruct Hr as [msg ->]. unfold console_error. mstep.
      match goal with |- context [loadFromGitHub_loop type rest ?its ?s'] =>
          destruct (IH its s') as (evs & -> & Hevs) end.
      eexists. mstep. split; [reflexivity|].
      constructor; [left; eauto|]. constructor; [right; eauto|done].
Qed.

(** ** Writing the mirror *)

Lemma saveToCacheDir_loop_run typeDir items : ∀ s files,
  disk (world s) !! typeDir = Some files →
  ∃ r, saveToCacheDir_loop typeDir items s =
    (r, after s (<[typeDir := store files (written (refused (world s)) typeDir items)]>
                   (disk (world s)))
          (write_event typeDir <$> attempted (refused (world s)) typeDir items))
  ∧ (written (refused (world s)) typeDir items = items → r = Ok tt)
  ∧ (written (refused (world s)) typeDir items ≠ items → ∃ msg, r = Throw msg).
Proof.
  induction items as [|i rest IH]; intros s files Hd;
    cbn [saveToCacheDir_loop written attempted store foldl fmap list_fmap].
  - exists (Ok tt). rewrite insert_id, after_id by done. by split_and!.
  - unfold writeFile. fold (file_name i). mstep. rewrite Hd.
    destruct (refused (world s) (OpWriteFile typeDir (file_name i))) eqn:Hno; mstep.
    + eexists. unfold store; cbn [foldl]. rewrite insert_id by done.
      unfold modify_world. mstep.
      split; [reflexivity|]. split; [done|eauto].
    + unfold modify_world. cbv beta iota.
      match goal with |- context [saveToCacheDir_loop typeDir rest ?s'] =>
        destruct (IH s' (<[file_name i := JSON_stringify i]> files)) as (r & Hr & Hok & Hth) end.
      { cbn. by rewrite lookup_insert_eq. }
      exists r. split.
      * rewrite Hr. cbn. unfold after. cbn. rewrite insert_insert_eq, <- app_assoc. reflexivity.
      * cbn in Hok, Hth. split; intros H; [apply Hok|apply Hth]; congruence.
Qed.

Lemma written_all_or_not no typeDir items :
  {written no typeDir items = items} + {written no typeDir items ≠ items}.
Proof. apply (list_eq_dec _). Qed.

Lemma modify_disk_run f s :
  modify_world (λ w, set_disk (f w) w) s = (Ok tt, after s (f (world s)) []).
Proof. unfold modify_world, after, set_disk. cbn. by rewrite app_nil_r. Qed.

Lemma ensure_dir_lookup dir d : ensure_dir dir d !! dir = Some (default ∅ (d !! dir)).
Proof.
  unfold ensure_dir. destruct (d !! dir) eqn:H; cbn; [done|]. by rewrite lookup_insert_eq.
Qed.

Lemma insert_ensure_dir dir m d : <[dir := m]> (ensure_dir dir d) = <[dir := m]> d.
Proof. unfold ensure_dir. destruct (d !! dir); [done|]. by rewrite insert_insert_eq. Qed.

Lemma saveToCacheDir_run type items s :
  ∃ evs, saveToCacheDir type items s =
         (Ok tt, after s (saved_disk (world s) type items) evs)
  ∧ save_events (world s) type items evs.
Proof.
  unfold saveToCacheDir, cacheDir, saved_disk, save_events, mkdir.
  mstep. fold (mirror_dir (world s) type). set (typeDir := mirror_dir (world s) type).
  destruct (refused (world s) (OpMkdir typeDir)) eqn:Hno; mstep.
  - unfold console_error. mstep. eauto.
  - rewrite modify_disk_run. mstep.
    match goal with |- context [saveToCacheDir_loop typeDir items ?s'] =>
      destruct (saveToCacheDir_loop_run typeDir items s'
                  (default ∅ (disk (world s) !! typeDir))) as (r & Hr & Hok & Hth);
      [|rewrite Hr; clear Hr] end.
    { rewrite disk_after. apply ensure_dir_lookup. }
    rewrite refused_after, disk_after, insert_ensure_dir in *.
    destruct (written_all_or_not (refused (world s)) typeDir items) as [Hw|Hw].
    + rewrite (Hok Hw). mstep. eexists; split; [reflexivity|].
      exists []. cbn. rewrite app_nil_r. by split_and!.
    + destruct (Hth Hw) as [msg ->]. unfold console_error. mstep.
      eexists; split; [reflexivity|]. eexists. cbn. split_and!; [reflexivity|done|eauto].
Qed.

(** ** Reading the mirror and the bundled files *)

Lemma quiet_read dir file : quiet (EvReadFile dir file).
Proof. done. Qed.
Lemma quiet_readdir dir : quiet (EvReaddir dir).
Proof. done. Qed.
Lemma quiet_exists dir : quiet (EvExists dir).
Proof. done. Qed.
Lemma quiet_log msg : quiet (EvLog msg).
Proof. done. Qed.
Local Hint Resolve quiet_read quiet_readdir quiet_exists quiet_log : core.

Lemma readFile_run typeDir file s files :
  disk (world s) !! typeDir = Some files →
  ∃ r, readFile typeDir file s = (r, after s (disk (world s)) [EvReadFile typeDir file])
  ∧ ((if refused (world s) (OpReadFile typeDir file) then None else files !! file) = None
       → ∃ msg, r = Throw msg)
  ∧ (∀ t, (if refused (world s) (OpReadFile typeDir file) then None else files !! file) = Some t
       → r = Ok t).
Proof.
  intros Hd. unfold readFile. mstep. rewrite Hd. cbn.
  destruct (refused (world s) (OpReadFile typeDir file)); mstep.
  - eexists; split; [reflexivity|]. split; [eauto|done].
  - destruct (files !! file); mstep; eexists; (split; [reflexivity|]); split; eauto; try done.
    by intros ? [= ->].
Qed.

Lemma loadFromCacheDir_loop_run typeDir names : ∀ items s files,
  disk (world s) !! typeDir = Some files →
  ∃ r evs, loadFromCacheDir_loop typeDir names items s = (r, after s (disk (world s)) evs)
  ∧ Forall quiet evs
  ∧ match mapM (read_item (world s) typeDir files) (List.filter is_json names) with
    | Some its => r = Ok (items ++ its)%list
    | None => ∃ msg, r = Throw msg
    end.
Proof.
  induction names as [|file rest IH]; intros items s files Hd;
    cbn [loadFromCacheDir_loop List.filter].
  - exists (Ok items), []. rewrite after_id. cbn. rewrite app_nil_r. by split_and!.
  - fold (is_json file). destruct (is_json file) eqn:Hj; cbn [negb]; [|by apply IH].
    cbn [mapM]. mstep.
    destruct (readFile_run typeDir file s files Hd) as (r & -> & Hnone & Hsome).
    destruct (if refused (world s) (OpReadFile typeDir file) then None else files !! file)
      as [t|] eqn:Ht.
    + rewrite (Hsome t eq_refl). mstep.
      assert (Hri : read_item (world s) typeDir files file = JSON_parse t).
      { unfold read_item. destruct (refused _ _); [done|]. by rewrite Ht. }
      rewrite Hri. unfold JSON_parse_or_throw.
      destruct (JSON_parse t) as [i|]; mstep; cbn.
      * match goal with |- context [loadFromCacheDir_loop typeDir rest ?its ?s'] =>
          destruct (IH its s' files) as (r' & evs & -> & Hq & Hr) end; [done|].
        eexists _, _. mstep. split; [reflexivity|]. split; [by constructor|].
        change (read_item (world (after s (disk (world s)) [EvReadFile typeDir file])))
          with (read_item (world s)) in Hr.
        destruct (mapM _ _); cbn; [|done]. by rewrite <- app_assoc in Hr.
      * eexists _, _. split; [reflexivity|]. split; [by constructor|eauto].
    + destruct (Hnone eq_refl) as [msg ->]. mstep.
      assert (Hri : read_item (world s) typeDir files file = None).
      { unfold read_item. destruct (refused _ _); [done|]. by rewrite Ht. }
      rewrite Hri. cbn.
      eexists _, _. split; [reflexivity|]. split; [by constructor|eauto].
Qed.

Lemma readdir_run dir s :
  ∃ r, readdir dir s = (r, after s (disk (world s)) [EvReaddir dir])
  ∧ match disk (world s) !! dir with
    | Some files =>
        if refused (world s) (OpReaddir dir) then ∃ msg, r = Throw msg
        else r = Ok (file_names files)
    | None => ∃ msg, r = Throw msg
    end.
Proof.
  unfold readdir. mstep.
  destruct (refused (world s) (OpReaddir dir)), (disk (world s) !! dir);
    mstep; eexists; (split; [reflexivity|]); eauto.
Qed.

Lemma loadFromCacheDir_run type s :
  ∃ evs, loadFromCacheDir type s =
         (Ok (mirror_read (world s) type), after s (disk (world s)) evs)
  ∧ Forall quiet evs.
Proof.
  unfold loadFromCacheDir, cacheDir, mirror_read, existsSync.
  mstep. fold (mirror_dir (world s) type). set (typeDir := mirror_dir (world s) type).
  destruct (disk (world s) !! typeDir) as [files|] eqn:Hd.
  - rewrite bool_decide_eq_true_2 by eauto. cbn [negb]. mstep.
    destruct (readdir_run typeDir (after s (disk (world s)) [EvExists typeDir]))
      as (r & -> & Hr). rewrite disk_after, refused_after, Hd in Hr.
    destruct (refused (world s) (OpReaddir typeDir)).
    + destruct Hr as [msg ->]. mstep. eexists; split; [reflexivity|]. repeat constructor.
    + subst r. mstep.
      match goal with |- context [loadFromCacheDir_loop typeDir ?ns ?its ?s'] =>
        destruct (loadFromCacheDir_loop_run typeDir ns its s' files)
          as (r' & evs & -> & Hq & Hr) end; [done|].
      mstep. change (read_item (world (after _ _ _))) with (read_item (world s)) in Hr.
      destruct (mapM _ _) as [its|].
      * subst r'. mstep. cbn [app]. eexists; split.
        -- destruct its; reflexivity.
        -- repeat constructor. done.
      * destruct Hr as [msg ->]. mstep. eexists; split; [reflexivity|].
        repeat constructor. done.
  - rewrite bool_decide_eq_false_2 by (intros [? ?]; done). cbn [negb]. mstep.
    eexists; split; [reflexivity|]. repeat constructor.
Qed.

(** ** Strings and URLs *)

Lemma append_cons x (a b : string) : String x a +:+ b = String x (a +:+ b).
Proof. reflexivity. Qed.

Lemma append_nil (b : string) : "" +:+ b = b.
Proof. reflexivity. Qed.

Lemma append_assoc (a b c : string) : (a +:+ b) +:+ c = a +:+ (b +:+ c).
Proof.
  induction a as [|x a IH]; [done|]. by rewrite !append_cons, IH.
Qed.

Lemma length_append (a b : string) :
  String.length (a +:+ b) = (String.length a + String.length b)%nat.
Proof.
  induction a as [|x a IH]; [done|]. rewrite append_cons. simpl. by rewrite IH.
Qed.

Lemma append_inv_r (a b c : string) : a +:+ c = b +:+ c → a = b.
Proof.
  revert b. induction a as [|x a IH]; intros [|y b] H;
    rewrite ?append_cons, ?append_nil in H.
  - done.
  - apply (f_equal String.length) in H. simpl in H. rewrite length_append in H. lia.
  - apply (f_equal String.length) in H. simpl in H. rewrite length_append in H. lia.
  - injection H as -> H. f_equal. by apply IH.
Qed.

Lemma substring_all (s : string) : String.substring 0 (String.length s) s = s.
Proof. induction s as [|x s IH]; simpl; [done|]. by rewrite IH. Qed.

Lemma substring_append (a s : string) :
  String.substring (String.length a) (String.length s) (a +:+ s) = s.
Proof.
  induction a as [|x a IH]; [apply substring_all|]. rewrite append_cons. simpl. done.
Qed.

Lemma endsWith_append (a suffix : string) : endsWith (a +:+ suffix) suffix = true.
Proof.
  unfold endsWith. rewrite length_append.
  replace (String.length a + String.length suffix - String.length suffix)%nat
    with (String.length a) by lia.
  rewrite substring_append, String.eqb_refl, andb_true_r.
  apply Nat.leb_le. lia.
Qed.

Lemma file_url_not_listing cfg type name : file_url cfg type name ≠ listing_url cfg type.
Proof.
  unfold file_url, listing_url, contents_url. intros H.
  do 3 apply (inj (String.app _)) in H.
  rewrite !append_assoc in H.
  do 3 apply (inj (String.app _)) in H. discriminate H.
Qed.

Lemma file_event_not_listing cfg type e :
  file_event cfg type e → is_listing cfg type e = false ∧ is_write e = false.
Proof.
  intros [(name & a & ->)|[msg ->]]; cbn; [|done].
  split; [|done]. apply String.eqb_neq, file_url_not_listing.
Qed.

Lemma quiet_not_listing cfg type e : quiet e → is_listing cfg type e = false.
Proof. destruct e; cbn; try done. by intros [? ?]. Qed.

(** ** The bundled files, and the load from GitHub as a whole *)

Lemma readFile_shape dir file s :
  ∃ r, readFile dir file s = (r, after s (disk (world s)) [EvReadFile dir file]).
Proof.
  unfold readFile. mstep.
  destruct (refused _ _); mstep; [eauto|].
  destruct (disk (world s) !! dir) as [files|]; cbn; [destruct (files !! file)|];
    mstep; eauto.
Qed.

Lemma loadFromLocal_loop_run type typeDir names : ∀ items s,
  ∃ its evs, loadFromLocal_loop type typeDir names items s =
             (Ok its, after s (disk (world s)) evs)
  ∧ Forall quiet evs.
Proof.
  induction names as [|file rest IH]; intros items s; cbn [loadFromLocal_loop].
  - exists items, []. rewrite after_id. by split.
  - destruct (endsWith file ".json"); cbn [negb]; [|apply IH].
    mstep. destruct (readFile_shape typeDir file s) as (r & ->).
    destruct r as [t|msg]; mstep.
    + unfold JSON_parse_or_throw. destruct (JSON_parse t); mstep.
      * match goal with |- context [loadFromLocal_loop type typeDir rest ?its ?s'] =>
          destruct (IH its s') as (r' & evs & -> & Hq) end.
        eexists _, _. mstep. split; [reflexivity|]. by constructor.
      * unfold console_error. mstep.
        match goal with |- context [loadFromLocal_loop type typeDir rest ?its ?s'] =>
          destruct (IH its s') as (r' & evs & -> & Hq) end.
        eexists _, _. mstep. split; [reflexivity|]. by repeat constructor.
    + unfold console_error. mstep.
      match goal with |- context [loadFromLocal_loop type typeDir rest ?its ?s'] =>
        destruct (IH its s') as (r' & evs & -> & Hq) end.
      eexists _, _. mstep. split; [reflexivity|]. by repeat constructor.
Qed.

Lemma loadFromLocal_run type s :
  ∃ its evs, loadFromLocal type s = (Ok its, after s (disk (world s)) evs)
  ∧ Forall quiet evs
  ∧ ∃ evs', evs = EvReaddir (bundled_dir (world s) type) :: evs'.
Proof.
  unfold loadFromLocal. mstep. fold (bundled_dir (world s) type).
  destruct (readdir_run (bundled_dir (world s) type) s) as (r & -> & _).
  destruct r as [names|msg]; mstep.
  - match goal with |- context [loadFromLocal_loop type ?d ?ns ?its ?s'] =>
      destruct (loadFromLocal_loop_run type d ns its s') as (r' & evs & -> & Hq) end.
    eexists _, _. mstep. split; [reflexivity|]. split; [by constructor|]. cbn. eauto.
  - unfold console_error. mstep. eexists _, _. split; [reflexivity|].
    split; [by repeat constructor|]. cbn. eauto.
Qed.

Lemma loadFromGitHub_ok type s entries :
  listing s type = Some entries →
  let items := remote_items s type entries in
  ∃ fevs sevs, loadFromGitHub type s =
    (Ok items, after s (saved_disk (world s) type items)
       (EvFetch (listing_url (config (loader s)) type) (authorization_of (config (loader s)))
        :: fevs ++ sevs)%list)
  ∧ Forall (file_event (config (loader s)) type) fevs
  ∧ save_events (world s) type items sevs.
Proof.
  intros Hl items. unfold loadFromGitHub. mstep.
  rewrite (fetchGitHubDirectory_ok _ _ _ Hl). mstep.
  match goal with |- context [loadFromGitHub_loop type entries ?its ?s'] =>
    destruct (loadFromGitHub_loop_run type entries its s') as (fevs & -> & Hf) end.
  mstep. rewrite remote_items_after. cbn [app]. fold items.
  match goal with |- context [saveToCacheDir type items ?s'] =>
    destruct (saveToCacheDir_run type items s') as (sevs & -> & Hs) end.
  mstep. exists fevs, sevs. split; [reflexivity|]. split; done.
Qed.

Lemma loadFromGitHub_fail type s :
  listing s type = None →
  ∃ its evs, loadFromGitHub type s =
    (Ok its, after s (disk (world s))
       (EvFetch (listing_url (config (loader s)) type) (authorization_of (config (loader s)))
        :: evs))
  ∧ Forall quiet evs
  ∧ (∀ cached, mirror_read (world s) type = Some cached → its = cached).
Proof.
  intros Hl. unfold loadFromGitHub. mstep.
  destruct (fetchGitHubDirectory_fail _ _ Hl) as (msg & ->).
  unfold console_error, console_log. mstep.
  match goal with |- context [loadFromCacheDir type ?s'] =>
    destruct (loadFromCacheDir_run type s') as (evs & -> & Hq) end.
  mstep. change (mirror_read (world (after _ _ _))) with (mirror_read (world s)).
  destruct (mirror_read (world s) type) as [cached|]; mstep.
  - eexists _, _. split; [reflexivity|]. split.
    + constructor; [done|]. apply Forall_app. split; [done|]. by repeat constructor.
    + by intros ? [= ->].
  - match goal with |- context [loadFromLocal type ?s'] =>
      destruct (loadFromLocal_run type s') as (its & evs' & -> & Hq' & _) end.
    mstep. eexists _, _. split; [reflexivity|]. split; [|done].
    constructor; [done|]. rewrite !Forall_app. split_and!; try done. by repeat constructor.
Qed.

(** ** A load, as one step *)

Lemma isCacheStale_run s : isCacheStale s = (Ok (stale s), s).
Proof. reflexivity. Qed.

Lemma loadWithCache_try_run type s :
  ∃ items d evs,
    loadWithCache_try type s =
    (Ok items, mkState (set_lastFetchTime (now (world s)) (loader s))
                       (world (after s d evs)))
    ∧ fetch_spec s type items d evs.
Proof.
  unfold loadWithCache_try, fetch_spec, Date_now. mstep.
  destruct (String.eqb (source (config (loader s))) "github").
  - destruct (listing s type) as [entries|] eqn:Hl.
    + destruct (loadFromGitHub_ok type s entries Hl) as (fevs & sevs & -> & Hf & Hs).
      mstep. eexists _, _, _. split; [reflexivity|]. split_and!; eauto.
    + destruct (loadFromGitHub_fail type s Hl) as (its & evs & -> & Hq & Hc).
      mstep. eexists _, _, _. split; [reflexivity|]. split_and!; eauto.
  - destruct (loadFromLocal_run type s) as (its & evs & -> & Hq & He).
    mstep. eexists _, _, _. split; [reflexivity|]. split_and!; eauto.
Qed.

Lemma try_finally_run {A} (body : M A) cleanup s :
  try_finally body cleanup s =
  match body s with
  | (r, s') => match cleanup s' with
               | (Ok _, s'') => (r, s'')
               | (Throw e, s'') => (Throw e, s'')
               end
  end.
Proof. reflexivity. Qed.

Lemma single_flight_run type s :
  ∃ items d evs,
    single_flight (loadWithCache_try type) s =
    (Ok items, mkState (refetched (loader s) (now (world s))) (world (after s d evs)))
    ∧ fetch_spec s type items d evs.
Proof.
  unfold single_flight, modify_loader. mstep. rewrite try_finally_run.
  destruct (loadWithCache_try_run type (mkState (set_isFetching true (loader s)) (world s)))
    as (items & d & evs & -> & Hs).
  eexists _, _, _. split; [reflexivity|]. done.
Qed.

Lemma resume_run type s :
  ∃ items d evs,
    loadWithCache_resume type s =
    (Ok items, mkState (refetched (loader s) (now (world s))) (world (after s d evs)))
    ∧ fetch_spec s type items d evs.
Proof.
  unfold loadWithCache_resume, modify_loader. rewrite try_finally_run.
  destruct (loadWithCache_try_run type s) as (items & d & evs & -> & Hs).
  eexists _, _, _. split; [reflexivity|]. done.
Qed.

Lemma set_cache_same T c l : cache_of T l = c → set_cache T c l = l.
Proof. destruct T, l; cbn; by intros ->. Qed.

Lemma state_eta s : mkState (loader s) (world s) = s.
Proof. by destruct s. Qed.

Lemma loadWithCache_fresh type c s :
  stale s = false → loadWithCache type (Some c) s = (Ok c, s).
Proof. intros H. unfold loadWithCache. mstep. rewrite isCacheStale_run. mstep. by rewrite H. Qed.

Lemma loadWithCache_busy type cache s :
  isFetching (loader s) = true →
  loadWithCache type cache s = (Ok (default [] cache), s).
Proof.
  intros H. unfold loadWithCache. destruct cache as [c|]; mstep.
  - rewrite isCacheStale_run. mstep. destruct (stale s); cbn [negb]; mstep; [|done].
    by rewrite H.
  - by rewrite H.
Qed.

Lemma loadWithCache_fetch type cache s :
  isFetching (loader s) = false →
  match cache with Some _ => stale s = true | None => True end →
  loadWithCache type cache s = single_flight (loadWithCache_try type) s.
Proof.
  intros H Hs. unfold loadWithCache. destruct cache as [c|]; mstep.
  - rewrite isCacheStale_run. mstep. rewrite Hs. cbn [negb]. mstep. by rewrite H.
  - by rewrite H.
Qed.

Lemma load_unfold T s :
  load T s =
  match loadWithCache (type_name T) (cache_of T (loader s)) s with
  | (Ok items, s') => (Ok items, mkState (set_cache T (Some items) (loader s')) (world s'))
  | (Throw e, s') => (Throw e, s')
  end.
Proof.
  destruct T; unfold load, loadSteps, loadWorkflows, modify_loader; mstep; cbn [cache_of type_name];
  destruct (loadWithCache _ _ s) as [[its|e] s']; mstep; reflexivity.
Qed.

Lemma load_fresh T c s :
  cache_of T (loader s) = Some c → stale s = false → load T s = (Ok c, s).
Proof.
  intros Hc Hs. rewrite load_unfold, Hc, loadWithCache_fresh by done.
  by rewrite set_cache_same, state_eta.
Qed.

Lemma load_busy T s :
  isFetching (loader s) = true →
  load T s = (Ok (default [] (cache_of T (loader s))),
              mkState (set_cache T (Some (default [] (cache_of T (loader s)))) (loader s))
                      (world s)).
Proof. intros H. by rewrite load_unfold, loadWithCache_busy. Qed.

Lemma goes_to_source_true T s :
  goes_to_source T s = true →
  isFetching (loader s) = false
  ∧ match cache_of T (loader s) with Some _ => stale s = true | None => True end.
Proof.
  unfold goes_to_source. intros [H1 H2]%andb_true_iff.
  split; [by destruct (isFetching _)|]. by destruct (cache_of T (loader s)).
Qed.

Lemma load_fetch T s :
  goes_to_source T s = true →
  ∃ items d evs,
    load T s =
    (Ok items, mkState (set_cache T (Some items) (refetched (loader s) (now (world s))))
                       (world (after s d evs)))
    ∧ fetch_spec s (type_name T) items d evs.
Proof.
  intros [Hf Hs]%goes_to_source_true.
  rewrite load_unfold, loadWithCache_fetch by done.
  destruct (single_flight_run (type_name T) s) as (items & d & evs & -> & H).
  eexists _, _, _. split; [reflexivity|done].
Qed.

(** ** Interleaved calls and the single-flight invariant *)

Lemma start_fresh c s :
  stale s = false → loadWithCache_start (Some c) s = (Ok (Returned c), s).
Proof.
  intros H. unfold loadWithCache_start. mstep. rewrite isCacheStale_run. mstep.
  by rewrite H.
Qed.

Lemma start_busy cache s :
  isFetching (loader s) = true →
  loadWithCache_start cache s = (Ok (Returned (default [] cache)), s).
Proof.
  intros H. unfold loadWithCache_start. destruct cache as [c|]; mstep.
  - rewrite isCacheStale_run. mstep. destruct (stale s); cbn [negb]; mstep; [|done].
    by rewrite H.
  - by rewrite H.
Qed.

Lemma start_suspend cache s :
  isFetching (loader s) = false →
  match cache with Some _ => stale s = true | None => True end →
  loadWithCache_start cache s =
  (Ok Suspended, mkState (set_isFetching true (loader s)) (world s)).
Proof.
  intros H Hs. unfold loadWithCache_start, modify_loader. destruct cache as [c|]; mstep.
  - rewrite isCacheStale_run. mstep. rewrite Hs. cbn [negb]. mstep. by rewrite H.
  - by rewrite H.
Qed.

(** [loadWithCache] is its start followed, when it waits, by its end. *)
Lemma loadWithCache_split type cache s :
  loadWithCache type cache s =
  (r ← loadWithCache_start cache;
   match r with
   | Returned items => mret items
   | Suspended => loadWithCache_resume type
   end) s.
Proof.
  unfold loadWithCache, loadWithCache_start, single_flight, loadWithCache_resume.
  destruct cache as [c|]; mstep.
  - rewrite isCacheStale_run. mstep. destruct (stale s); cbn [negb]; mstep.
    + destruct (isFetching (loader s)); mstep; reflexivity.
    + reflexivity.
  - destruct (isFetching (loader s)); mstep; reflexivity.
Qed.

Lemma call_cases T S :
  let s := state S in
  (goes_to_source T s = true
   ∧ call T S = mkSystem (mkState (set_isFetching true (loader s)) (world s))
                         (waiting S ++ [T]))
  ∨ (goes_to_source T s = false
     ∧ ∃ items, call T S = mkSystem (mkState (set_cache T (Some items) (loader s)) (world s))
                                    (waiting S)).
Proof.
  intros s. unfold call, goes_to_source. fold s.
  destruct (isFetching (loader s)) eqn:Hf; cbn [negb andb].
  - right. split; [done|]. rewrite start_busy by done. eauto.
  - destruct (cache_of T (loader s)) as [c|] eqn:Hc.
    + destruct (stale s) eqn:Hs.
      * left. split; [done|]. by rewrite start_suspend.
      * right. split; [done|]. rewrite start_fresh by done. eauto.
    + left. split; [done|]. by rewrite start_suspend.
Qed.

Lemma complete_cases S U rest :
  waiting S = U :: rest →
  let s := state S in
  ∃ items d evs,
    complete S = mkSystem (mkState (set_cache U (Some items)
                                      (refetched (loader s) (now (world s))))
                                   (world (after s d evs))) rest
    ∧ fetch_spec s (type_name U) items d evs.
Proof.
  intros Hw s. unfold complete. rewrite Hw. fold s.
  destruct (resume_run (type_name U) s) as (items & d & evs & -> & H).
  eexists _, _, _. split; [reflexivity|done].
Qed.

Lemma isFetching_set_cache T c l : isFetching (set_cache T c l) = isFetching l.
Proof. by destruct T. Qed.

Lemma call_inv T S : single_flight_inv S → single_flight_inv (call T S).
Proof.
  intros [Hlen Hiff].
  destruct (call_cases T S) as [[Hg ->]|[Hg (items & ->)]]; unfold single_flight_inv; cbn.
  - apply goes_to_source_true in Hg as [Hf _].
    assert (waiting S = []) as ->.
    { destruct (waiting S); [done|]. exfalso. rewrite Hf in Hiff.
      destruct Hiff as [_ H]. by discriminate H. }
    cbn. split; [lia|]. done.
  - by rewrite isFetching_set_cache.
Qed.

Lemma complete_inv S : single_flight_inv S → single_flight_inv (complete S).
Proof.
  intros [Hlen Hiff]. destruct (waiting S) as [|U rest] eqn:Hw.
  - unfold complete. rewrite Hw. split; [by rewrite Hw|]. by rewrite Hw.
  - destruct (complete_cases S U rest Hw) as (items & d & evs & -> & _).
    unfold single_flight_inv; cbn. rewrite isFetching_set_cache. cbn.
    cbn in Hlen. assert (rest = []) as -> by (destruct rest; [done|cbn in Hlen; lia]).
    split; [cbn; lia|]. done.
Qed.

Lemma step_inv a S : single_flight_inv S → single_flight_inv (step a S).
Proof.
  intros H. destruct a; cbn [step].
  - by apply call_inv.
  - by apply complete_inv.
  - done.
  - done.
  - unfold refreshCache. apply call_inv, call_inv. done.
  - done.
Qed.

Lemma run_inv acts : ∀ S, single_flight_inv S → single_flight_inv (run acts S).
Proof.
  induction acts as [|a acts IH]; intros S H; cbn [run]; [done|].
  by apply IH, step_inv.
Qed.

(** ** Listing requests along a run *)

Arguments listing_calls : simpl never.

Lemma listing_calls_app cfg ty a b :
  listing_calls cfg ty (a ++ b) = (listing_calls cfg ty a + listing_calls cfg ty b)%nat.
Proof. unfold listing_calls. by rewrite List.filter_app, length_app. Qed.

Lemma listing_calls_none cfg ty evs :
  Forall (λ e, is_listing cfg ty e = false) evs → listing_calls cfg ty evs = 0%nat.
Proof.
  unfold listing_calls. induction 1 as [|e evs He _ IH]; [done|].
  cbn. by rewrite He.
Qed.

Lemma save_events_quiet w type items evs :
  save_events w type items evs → Forall (λ e, is_fetch e = false) evs.
Proof.
  unfold save_events. destruct (refused w _).
  - intros [msg ->]. by repeat constructor.
  - intros (logs & -> & Hok & Hth). constructor; [done|]. apply Forall_app. split.
    + apply Forall_fmap, Forall_true. done.
    + destruct (written_all_or_not (refused w) (mirror_dir w type) items) as [H|H].
      * by rewrite (Hok H).
      * destruct (Hth H) as [msg ->]. by repeat constructor.
Qed.

Lemma not_fetch_not_listing cfg ty e : is_fetch e = false → is_listing cfg ty e = false.
Proof. by destruct e. Qed.

Lemma listing_calls_one cfg ty a :
  listing_calls cfg ty [EvFetch (listing_url cfg ty) a] = 1%nat.
Proof. unfold listing_calls, is_listing, List.filter. by rewrite String.eqb_refl. Qed.

Lemma fetch_spec_listing s ty items d evs :
  fetch_spec s ty items d evs →
  (listing_calls (config (loader s)) ty evs ≤ 1)%nat.
Proof.
  unfold fetch_spec. set (cfg := config (loader s)).
  destruct (String.eqb (source cfg) "github").
  - destruct (listing s ty) as [entries|].
    + intros (_ & _ & fevs & sevs & -> & Hf & Hs).
      change (EvFetch ?u ?a :: ?l) with ([EvFetch u a] ++ l)%list.
      rewrite !listing_calls_app, listing_calls_one.
      rewrite (listing_calls_none _ _ fevs), (listing_calls_none _ _ sevs); [lia| |].
      * eapply Forall_impl; [by eapply save_events_quiet|]. apply not_fetch_not_listing.
      * eapply Forall_impl; [done|]. intros e He. by apply file_event_not_listing.
    + intros (_ & (evs' & -> & Hq) & _).
      change (EvFetch ?u ?a :: ?l) with ([EvFetch u a] ++ l)%list.
      rewrite !listing_calls_app, listing_calls_one.
      rewrite (listing_calls_none _ _ evs'); [lia|].
      eapply Forall_impl; [done|]. apply quiet_not_listing.
  - intros (_ & Hq & _). rewrite listing_calls_none; [lia|].
    eapply Forall_impl; [done|]. apply quiet_not_listing.
Qed.

Lemma url_other_type cfg U T x y :
  U ≠ T →
  contents_url cfg (repoPath cfg +:+ "/" +:+ (type_name U +:+ x))
  ≠ contents_url cfg (repoPath cfg +:+ "/" +:+ (type_name T +:+ y)).
Proof.
  intros Hne H. unfold contents_url in H.
  do 3 apply (inj (String.append _)) in H.
  rewrite !append_assoc in H.
  do 2 apply (inj (String.append _)) in H.
  destruct U, T; try done; discriminate H.
Qed.

Lemma append_nil_r (a : string) : a +:+ "" = a.
Proof. induction a as [|x a IH]; [done|]. by rewrite append_cons, IH. Qed.

Lemma listing_url_other cfg U T : U ≠ T →
  listing_url cfg (type_name U) ≠ listing_url cfg (type_name T).
Proof.
  intros Hne. unfold listing_url.
  rewrite <- (append_nil_r (type_name U)), <- (append_nil_r (type_name T)).
  by apply url_other_type.
Qed.

Lemma file_url_other cfg U T name : U ≠ T →
  file_url cfg (type_name U) name ≠ listing_url cfg (type_name T).
Proof.
  intros Hne. unfold listing_url, file_url.
  rewrite <- (append_nil_r (type_name T)).
  by apply url_other_type.
Qed.

Lemma fetch_spec_listing_other s U T items d evs :
  U ≠ T →
  fetch_spec s (type_name U) items d evs →
  listing_calls (config (loader s)) (type_name T) evs = 0%nat.
Proof.
  intros Hne. unfold fetch_spec. set (cfg := config (loader s)).
  assert (Hl : ∀ a, is_listing cfg (type_name T)
                      (EvFetch (listing_url cfg (type_name U)) a) = false).
  { intros a. cbn. by apply String.eqb_neq, listing_url_other. }
  destruct (String.eqb (source cfg) "github").
  - destruct (listing s (type_name U)) as [entries|].
    + intros (_ & _ & fevs & sevs & -> & Hf & Hs).
      apply listing_calls_none. constructor; [done|]. apply Forall_app. split.
      * eapply Forall_impl; [done|]. intros e [(name & a & ->)|[msg ->]]; [|done].
        cbn. by apply String.eqb_neq, file_url_other.
      * eapply Forall_impl; [by eapply save_events_quiet|]. apply not_fetch_not_listing.
    + intros (_ & (evs' & -> & Hq) & _).
      apply listing_calls_none. constructor; [done|].
      eapply Forall_impl; [done|]. apply quiet_not_listing.
  - intros (_ & Hq & _). apply listing_calls_none.
    eapply Forall_impl; [done|]. apply quiet_not_listing.
Qed.

Lemma cache_of_set_cache_ne T U c l : U ≠ T → cache_of T (set_cache U c l) = cache_of T l.
Proof. by destruct T, U. Qed.
Lemma cache_of_set_cache T c l : cache_of T (set_cache T c l) = c.
Proof. by destruct T. Qed.
Lemma config_set_cache T c l : config (set_cache T c l) = config l.
Proof. by destruct T. Qed.
Lemma lastFetchTime_set_cache T c l : lastFetchTime (set_cache T c l) = lastFetchTime l.
Proof. by destruct T. Qed.

Lemma waiting_cases S T :
  single_flight_inv S → T ∉ waiting S →
  (waiting S = [] ∧ isFetching (loader (state S)) = false)
  ∨ (∃ U, U ≠ T ∧ waiting S = [U] ∧ isFetching (loader (state S)) = true).
Proof.
  intros [Hlen Hiff] Hn. destruct (waiting S) as [|U [|V rest]] eqn:Hw.
  - left. split; [done|]. destruct (isFetching _); [|done].
    by destruct (proj1 Hiff eq_refl).
  - right. exists U. split_and!; [|done|by apply Hiff].
    intros ->. apply Hn. by left.
  - cbn in Hlen. lia.
Qed.

Lemma now_call U S : now (world (state (call U S))) = now (world (state S)).
Proof. by destruct (call_cases U S) as [[_ ->]|[_ (items & ->)]]. Qed.

Lemma now_complete S : now (world (state (complete S))) = now (world (state S)).
Proof.
  destruct (waiting S) as [|U rest] eqn:Hw.
  - unfold complete. by rewrite Hw.
  - by destruct (complete_cases S U rest Hw) as (items & d & evs & -> & _).
Qed.

Lemma now_step a S :
  now (world (state (step a S))) = (now (world (state S)) + elapsed [a])%Z.
Proof.
  destruct a as [U| |d|c| |g r]; cbn [step elapsed].
  - rewrite now_call. lia.
  - rewrite now_complete. lia.
  - cbn. lia.
  - cbn. lia.
  - unfold refreshCache. rewrite !now_call. cbn. lia.
  - cbn. lia.
Qed.

Lemma elapsed_cons a acts : elapsed (a :: acts) = (elapsed [a] + elapsed acts)%Z.
Proof. destruct a; cbn; lia. Qed.

Lemma now_run acts : ∀ S,
  now (world (state (run acts S))) = (now (world (state S)) + elapsed acts)%Z.
Proof.
  induction acts as [|a acts IH]; intros S; [cbn; lia|].
  cbn [run]. rewrite IH, now_step, (elapsed_cons a acts). lia.
Qed.

Lemma run_app acts1 acts2 S : run (acts1 ++ acts2) S = run acts2 (run acts1 S).
Proof. revert S. induction acts1 as [|a acts1 IH]; intros S; cbn; [done|]. apply IH. Qed.

Lemma stale_false s :
  stale s = false ↔
  (now (world s) - lastFetchTime (loader s) ≤ cacheTTL (config (loader s)))%Z.
Proof. unfold stale. apply Z.ltb_ge. Qed.

(** The invariants of a run after a first call of [load T] at time [t1]
    under the configuration [cfg]. *)
Section Window.

Variables (cfg : Config) (T : collection) (t1 : Z).

Lemma complete_window n S U :
  U ≠ T → waiting S = [U] →
  config (loader (state S)) = cfg →
  (t1 ≤ now (world (state S)))%Z →
  (listing_calls cfg (type_name T) (trace (world (state S))) ≤ n)%nat →
  let s' := state (complete S) in
  config (loader s') = cfg ∧ (t1 ≤ now (world s'))%Z
  ∧ (listing_calls cfg (type_name T) (trace (world s')) ≤ n)%nat
  ∧ waiting (complete S) = []
  ∧ isFetching (loader s') = false
  ∧ cache_of T (loader s') = cache_of T (loader (state S))
  ∧ lastFetchTime (loader s') = now (world (state S)).
Proof.
  intros Hne Hw Hc Ht Hn.
  destruct (complete_cases S U [] Hw) as (items & d & evs & -> & Hs). cbn.
  rewrite config_set_cache, isFetching_set_cache, cache_of_set_cache_ne,
    lastFetchTime_set_cache by done. cbn.
  split_and!; try done.
  pose proof (fetch_spec_listing_other _ _ _ _ _ _ Hne Hs) as Hnone.
  rewrite Hc in Hnone. rewrite listing_calls_app, Hnone. lia.
Qed.

Lemma idle_step n a S :
  passive T a → window_inv cfg T t1 Idle n S → window_inv cfg T t1 Idle n (step a S).
Proof.
  intros Hp (Hc & Ht & Hn & Hsf & Hw). destruct a as [U| |d|c| |g r]; cbn in Hp; try done.
  - (* the other collection is called *)
    assert (Hsf' := call_inv U S Hsf). cbn [step].
    destruct (call_cases U S) as [[_ Heq]|[_ (items & Heq)]]; rewrite Heq in *.
    + split_and!; try done. cbn. rewrite elem_of_app, list_elem_of_singleton.
      intros [?|?]; [done|]. by apply Hp.
    + split_and!; try done. cbn. by rewrite config_set_cache.
  - (* a waiting load ends *)
    assert (Hsf' := complete_inv S Hsf). cbn [step].
    destruct (waiting_cases S T Hsf Hw) as [[Hw0 _]|(U & Hne & HwU & _)].
    + replace (complete S) with S by (unfold complete; by rewrite Hw0).
      by split_and!.
    + destruct (complete_window n S U Hne HwU Hc Ht Hn)
        as (? & ? & ? & Hw' & _).
      split_and!; try done. rewrite Hw'. by apply not_elem_of_nil.
  - (* the clock moves *)
    split_and!; try done. cbn. lia.
Qed.

Lemma done_step n a S :
  passive T a → window_inv cfg T t1 Done n S → window_inv cfg T t1 Done n (step a S).
Proof.
  intros Hp (Hc & Ht & Hn & Hsf & Hw & Hsome & Hlast).
  destruct (idle_step n a S Hp) as (Hc' & Ht' & Hn' & Hsf' & Hw'); [by split_and!|].
  split_and!; try done.
  - destruct a as [U| |d|c| |g r]; cbn in Hp; try done; cbn [step].
    + destruct (call_cases U S) as [[_ ->]|[_ (items & ->)]]; [done|].
      cbn. by rewrite cache_of_set_cache_ne.
    + destruct (waiting_cases S T Hsf Hw) as [[Hw0 _]|(U & Hne & HwU & _)].
      * unfold complete. by rewrite Hw0.
      * destruct (complete_window n S U Hne HwU Hc Ht Hn)
          as (_ & _ & _ & _ & _ & -> & _). done.
  - destruct a as [U| |d|c| |g r]; cbn in Hp; try done; cbn [step].
    + destruct (call_cases U S) as [[_ ->]|[_ (items & ->)]]; [done|].
      cbn. by rewrite lastFetchTime_set_cache.
    + destruct (waiting_cases S T Hsf Hw) as [[Hw0 _]|(U & Hne & HwU & _)].
      * unfold complete. by rewrite Hw0.
      * destruct (complete_window n S U Hne HwU Hc Ht Hn)
          as (_ & _ & _ & _ & _ & _ & ->). done.
Qed.

Lemma pending_step n a S :
  passive T a → window_inv cfg T t1 Pending n S →
  window_inv cfg T t1 Pending n (step a S)
  ∨ window_inv cfg T t1 Done (n + 1) (step a S).
Proof.
  intros Hp (Hc & Ht & Hn & Hf & Hw). destruct a as [U| |d|c| |g r]; cbn in Hp; try done.
  - left. cbn [step]. destruct (call_cases U S) as [[Hg _]|[_ (items & ->)]].
    + apply goes_to_source_true in Hg as [Hg _]. congruence.
    + split_and!; try done.
      * cbn. by rewrite config_set_cache.
      * cbn. by rewrite isFetching_set_cache.
  - right. cbn [step].
    destruct (complete_cases S T [] Hw) as (items & d & evs & -> & Hs).
    unfold window_inv. cbn.
    rewrite config_set_cache, cache_of_set_cache, lastFetchTime_set_cache. cbn.
    split_and!; try done.
    + rewrite listing_calls_app. apply fetch_spec_listing in Hs. rewrite Hc in Hs. lia.
    + split; [cbn; lia|]. cbn. rewrite isFetching_set_cache. done.
    + apply not_elem_of_nil.
  - left. split_and!; try done. cbn. lia.
  - left. by split_and!.
Qed.

Lemma idle_run n acts : ∀ S,
  Forall (passive T) acts → window_inv cfg T t1 Idle n S →
  window_inv cfg T t1 Idle n (run acts S).
Proof.
  induction acts as [|a acts IH]; intros S Hp H; cbn [run]; [done|].
  inversion Hp; subst. apply IH; [done|]. by apply idle_step.
Qed.

Lemma done_run n acts : ∀ S,
  Forall (passive T) acts → window_inv cfg T t1 Done n S →
  window_inv cfg T t1 Done n (run acts S).
Proof.
  induction acts as [|a acts IH]; intros S Hp H; cbn [run]; [done|].
  inversion Hp; subst. apply IH; [done|]. by apply done_step.
Qed.

Lemma pending_run n acts : ∀ S,
  Forall (passive T) acts → window_inv cfg T t1 Pending n S →
  window_inv cfg T t1 Pending n (run acts S)
  ∨ window_inv cfg T t1 Done (n + 1) (run acts S).
Proof.
  induction acts as [|a acts IH]; intros S Hp H; cbn [run]; [by left|].
  inversion Hp; subst.
  destruct (pending_step n a S) as [H'|H']; try done.
  - by apply IH.
  - right. by apply done_run.
Qed.

Lemma call_idle n S :
  window_inv cfg T t1 Idle n S →
  window_inv cfg T t1 Idle n (call T S) ∨ window_inv cfg T t1 Pending n (call T S).
Proof.
  intros (Hc & Ht & Hn & Hsf & Hw).
  assert (Hsf' := call_inv T S Hsf).
  destruct (call_cases T S) as [[Hg Heq]|[_ (items & Heq)]]; rewrite Heq in *.
  - right. apply goes_to_source_true in Hg as [Hf _].
    destruct (waiting_cases S T Hsf Hw) as [[Hw0 _]|(U & _ & _ & Hf')]; [|congruence].
    split_and!; try done. cbn. by rewrite Hw0.
  - left. split_and!; try done. cbn. by rewrite config_set_cache.
Qed.

Lemma call_pending n S :
  window_inv cfg T t1 Pending n S → window_inv cfg T t1 Pending n (call T S).
Proof.
  intros (Hc & Ht & Hn & Hf & Hw).
  destruct (call_cases T S) as [[Hg _]|[_ (items & ->)]].
  - apply goes_to_source_true in Hg as [Hg _]. congruence.
  - split_and!; try done.
    + cbn. by rewrite config_set_cache.
    + cbn. by rewrite isFetching_set_cache.
Qed.

Lemma call_done n S :
  window_inv cfg T t1 Done n S →
  (now (world (state S)) - t1 ≤ cacheTTL cfg)%Z →
  window_inv cfg T t1 Idle n (call T S).
Proof.
  intros (Hc & Ht & Hn & Hsf & Hw & [c Hsome] & Hlast) Hwin.
  assert (Hsf' := call_inv T S Hsf).
  destruct (call_cases T S) as [[Hg _]|[_ (items & Heq)]].
  - apply goes_to_source_true in Hg as [_ Hg]. rewrite Hsome in Hg.
    assert (stale (state S) = false) by (apply stale_false; rewrite Hc; lia).
    congruence.
  - rewrite Heq in *. split_and!; try done. cbn. by rewrite config_set_cache.
Qed.

Lemma window_done_fresh n S :
  window_inv cfg T t1 Done n S →
  (now (world (state S)) - t1 ≤ cacheTTL cfg)%Z →
  ∃ c, cache_of T (loader (state S)) = Some c ∧ stale (state S) = false.
Proof.
  intros (Hc & Ht & Hn & Hsf & Hw & [c Hsome] & Hlast) Hwin.
  exists c. split; [done|]. apply stale_false. rewrite Hc. lia.
Qed.

End Window.

Lemma two_loads_one_listing T S acts1 acts2 :
  let cfg := config (loader (state S)) in
  quiescent S →
  Forall (passive T) acts1 →
  Forall (passive T) acts2 →
  (elapsed acts1 ≤ cacheTTL cfg)%Z →
  (listing_calls cfg (type_name T)
     (trace (world (state (run (Call T :: acts1 ++ Call T :: acts2) S))))
   ≤ listing_calls cfg (type_name T) (trace (world (state S))) + 1)%nat.
Proof.
  intros cfg [Hf Hw] Hp1 Hp2 Hwin.
  set (t1 := now (world (state S))).
  set (n := listing_calls cfg (type_name T) (trace (world (state S)))).
  assert (H0 : window_inv cfg T t1 Idle n S).
  { unfold window_inv. split_and!.
    - done.
    - unfold t1. lia.
    - unfold n. lia.
    - split; [rewrite Hw; cbn; lia|]. by rewrite Hf, Hw.
    - rewrite Hw. apply not_elem_of_nil. }
  cbn [run step]. rewrite run_app. cbn [run step].
  set (S1 := call T S). set (S2 := run acts1 S1).
  assert (Hnow : now (world (state S2)) = (t1 + elapsed acts1)%Z).
  { unfold S2, S1. by rewrite now_run, now_call. }
  assert (Hend : ∀ m S3, (m ≤ n + 1)%nat →
            window_inv cfg T t1 Idle m S3 →
            (listing_calls cfg (type_name T) (trace (world (state (run acts2 S3))))
             ≤ n + 1)%nat).
  { intros m S3 Hm H. destruct (idle_run cfg T t1 m acts2 S3 Hp2 H) as (_ & _ & ? & _). lia. }
  assert (Hend' : ∀ S3,
            window_inv cfg T t1 Pending n S3 →
            (listing_calls cfg (type_name T) (trace (world (state (run acts2 S3))))
             ≤ n + 1)%nat).
  { intros S3 H. destruct (pending_run cfg T t1 n acts2 S3 Hp2 H)
      as [(_ & _ & ? & _)|(_ & _ & ? & _)]; lia. }
  destruct (call_idle cfg T t1 n S H0) as [H1|H1]; fold S1 in H1.
  - assert (H2 := idle_run cfg T t1 n acts1 S1 Hp1 H1). fold S2 in H2.
    destruct (call_idle cfg T t1 n S2 H2) as [H3|H3].
    + apply (Hend n); [lia|done].
    + by apply Hend'.
  - destruct (pending_run cfg T t1 n acts1 S1 Hp1 H1) as [H2|H2]; fold S2 in H2.
    + apply Hend'. by apply call_pending.
    + apply (Hend (n + 1)%nat); [lia|]. apply call_done; [done|]. lia.
Qed.

(** ** Loads served from memory; the mirror as a list of items *)

Lemma load_served T s :
  goes_to_source T s = false →
  ∃ items, load T s =
    (Ok items, mkState (set_cache T (Some items) (loader s)) (world s)).
Proof.
  unfold goes_to_source. intros H.
  destruct (isFetching (loader s)) eqn:Hf.
  - rewrite load_busy by done. eauto.
  - cbn in H. destruct (cache_of T (loader s)) as [c|] eqn:Hc; [|done].
    rewrite (load_fresh T c s Hc H). exists c.
    by rewrite set_cache_same, state_eta.
Qed.

Lemma mirror_read_holds w type files items :
  disk w !! mirror_dir w type = Some files →
  readable w (mirror_dir w type) →
  holds_items files items →
  items ≠ [] →
  mirror_read w type = Some items.
Proof.
  intros Hd [Hrd Hrf] Hh Hne. unfold mirror_read. rewrite Hd, Hrd.
  assert (mapM (read_item w (mirror_dir w type) files)
            (List.filter is_json (file_names files)) = Some items) as ->.
  { apply mapM_Some. eapply Forall2_impl; [exact Hh|].
    intros name item Hf. unfold read_item. rewrite Hrf, Hf. done. }
  by destruct items.
Qed.

Lemma quiet_not_write e : quiet e → is_write e = false.
Proof. by intros [_ ?]. Qed.

(** ** The flag is cleared *)

Lemma single_flight_clears {A} (body : M A) s :
  isFetching (loader (single_flight body s).2) = false.
Proof.
  unfold single_flight, modify_loader. mstep. rewrite try_finally_run.
  by destruct (body _) as [r s'].
Qed.

Lemma resume_clears type s :
  isFetching (loader (loadWithCache_resume type s).2) = false.
Proof.
  unfold loadWithCache_resume, modify_loader. rewrite try_finally_run.
  by destruct (loadWithCache_try type s) as [r s'].
Qed.

Lemma load_keeps_flag_down T s :
  isFetching (loader s) = false → isFetching (loader (load T s).2) = false.
Proof.
  intros Hf. destruct (goes_to_source T s) eqn:Hg.
  - destruct (load_fetch T s Hg) as (its & d & evs & -> & _). cbn.
    by rewrite isFetching_set_cache.
  - destruct (load_served T s Hg) as (its & ->). cbn.
    by rewrite isFetching_set_cache.
Qed.

Lemma call_busy T S :
  isFetching (loader (state S)) = true →
  call T S = mkSystem (mkState (set_cache T (Some (default [] (cache_of T (loader (state S)))))
                                  (loader (state S)))
                               (world (state S)))
                      (waiting S).
Proof. intros Hf. unfold call. by rewrite start_busy. Qed.

(** ** Batches with a refused write *)

Lemma written_all no typeDir items :
  Forall (λ i, no (OpWriteFile typeDir (file_name i)) = false) items →
  written no typeDir items = items ∧ attempted no typeDir items = items.
Proof.
  induction 1 as [|i items Hi _ [IH1 IH2]]; [done|].
  cbn. rewrite Hi, IH1, IH2. done.
Qed.

Lemma written_until no typeDir pre i post :
  Forall (λ i, no (OpWriteFile typeDir (file_name i)) = false) pre →
  no (OpWriteFile typeDir (file_name i)) = true →
  written no typeDir (pre ++ i :: post) = pre
  ∧ attempted no typeDir (pre ++ i :: post) = (pre ++ [i])%list.
Proof.
  intros Hpre Hi. induction Hpre as [|j pre Hj _ [IH1 IH2]]; cbn.
  - by rewrite Hi.
  - by rewrite Hj, IH1, IH2.
Qed.

Lemma app_cons_neq {A} (pre : list A) i post : pre ≠ (pre ++ i :: post)%list.
Proof.
  intros H. apply (f_equal length) in H. rewrite length_app in H. cbn in H. lia.
Qed.

(** ** The mirror read, spelled out *)

Lemma file_names_lookup (files : gmap string text) name :
  name ∈ file_names files ↔ is_Some (files !! name).
Proof.
  unfold file_names. rewrite list_elem_of_fmap. split.
  - intros ([n t] & -> & Hin). apply elem_of_map_to_list in Hin. eauto.
  - intros [t Ht]. exists (name, t). split; [done|]. by apply elem_of_map_to_list.
Qed.

Lemma elem_of_json_names (files : gmap string text) name :
  name ∈ List.filter is_json (file_names files)
  ↔ name ∈ file_names files ∧ is_json name = true.
Proof. by rewrite !list_elem_of_In, List.filter_In, <- list_elem_of_In. Qed.

Lemma read_item_Some w dir files name item :
  read_item w dir files name = Some item ↔
  refused w (OpReadFile dir name) = false ∧ files !! name = Some (Json item).
Proof.
  unfold read_item. destruct (refused w _).
  - split; [done|]. by intros [? _].
  - destruct (files !! name) as [[j|raw]|]; cbn.
    + split; [by intros [= ->]|]. by intros [_ [= ->]].
    + split; [done|]. by intros [_ ?].
    + split; [done|]. by intros [_ ?].
Qed.

Lemma read_item_None w dir files name :
  name ∈ file_names files →
  read_item w dir files name = None ↔
  refused w (OpReadFile dir name) = true ∨ ∃ raw, files !! name = Some (Malformed raw).
Proof.
  intros [t Ht]%file_names_lookup. unfold read_item. rewrite Ht.
  destruct (refused w _).
  - split; [by left|done].
  - destruct t as [j|raw]; cbn.
    + split; [done|]. by intros [?|[raw ?]].
    + split; [|done]. intros _. right. by exists raw.
Qed.

Lemma mirror_read_Some w type items :
  mirror_read w type = Some items →
  ∃ files, disk w !! mirror_dir w type = Some files
    ∧ refused w (OpReaddir (mirror_dir w type)) = false
    ∧ Forall2 (λ name item, files !! name = Some (Json item))
              (List.filter is_json (file_names files)) items
    ∧ items ≠ [].
Proof.
  unfold mirror_read. destruct (disk w !! _) as [files|]; [|done].
  destruct (refused w (OpReaddir _)); [done|].
  destruct (mapM _ _) as [[|i its]|] eqn:Hm; try done. intros [= <-].
  exists files. split_and!; try done.
  apply mapM_Some in Hm. eapply Forall2_impl; [done|].
  intros name item Hr. by apply read_item_Some in Hr as [_ ?].
Qed.

Lemma mirror_read_None w type :
  mirror_read w type = None ↔
  disk w !! mirror_dir w type = None
  ∨ refused w (OpReaddir (mirror_dir w type)) = true
  ∨ ∃ files, disk w !! mirror_dir w type = Some files
      ∧ (List.filter is_json (file_names files) = []
         ∨ ∃ name, name ∈ file_names files ∧ is_json name = true
             ∧ (refused w (OpReadFile (mirror_dir w type) name) = true
                ∨ ∃ raw, files !! name = Some (Malformed raw))).
Proof.
  unfold mirror_read. set (dir := mirror_dir w type).
  destruct (disk w !! dir) as [files|] eqn:Hd; [|split; [by left|done]].
  destruct (refused w (OpReaddir dir)) eqn:Hrd; [split; [by right; left|done]|].
  destruct (mapM _ _) as [[|i its]|] eqn:Hm.
  - apply mapM_Some in Hm. inversion Hm as [Hnil|]. split; [|done].
    intros _. right. right. exists files. split; [done|]. by left.
  - split; [done|]. intros [?|[?|(files' & [= <-] & [Hnil|Hbad])]]; try done.
    + apply mapM_Some in Hm. rewrite Hnil in Hm. inversion Hm.
    + destruct Hbad as (name & Hin & Hj & Hbad). exfalso.
      apply mapM_Some in Hm.
      assert (Hel : name ∈ List.filter is_json (file_names files))
        by by apply elem_of_json_names.
      apply list_elem_of_lookup in Hel as [k Hk].
      destruct (Forall2_lookup_l _ _ _ k _ Hm Hk) as (item & _ & Hr).
      apply (read_item_None w dir files name Hin) in Hbad. congruence.
  - split; [|done]. intros _. right. right. exists files. split; [done|]. right.
    apply mapM_None, Exists_exists in Hm as (name & Hel & Hr).
    apply elem_of_json_names in Hel as [Hin Hj].
    exists name. split_and!; try done. by apply (read_item_None w dir files name Hin).
Qed.

(** ** The first request of a load *)


Lemma truthy_number_true v : v ≠ 0%Z → truthy_number v = true.
Proof. intros H. unfold truthy_number. by apply negb_true_iff, Z.eqb_neq. Qed.

Lemma fetch_spec_first s type items d evs :
  fetch_spec s type items d evs → ∃ evs', evs = source_request s type :: evs'.
Proof.
  unfold fetch_spec, source_request.
  destruct (String.eqb (source (config (loader s))) "github").
  - destruct (listing s type).
    + intros (_ & _ & fevs & sevs & -> & _). eauto.
    + intros (_ & (evs' & -> & _) & _). eauto.
  - intros (_ & _ & H). done.
Qed.


(** ** Reconfiguration *)




(** An assignment that does not touch a field leaves it alone, applied
    or not. *)
Lemma when_truthy_frame {A B} (p : Config → B) (truthy : A → bool) field assign c :
  (∀ v c', p (assign v c') = p c') → p (when_truthy truthy field assign c) = p c.
Proof.
  intros H. unfold when_truthy. destruct field as [v|]; [|done].
  by destruct (truthy v).
Qed.

(** The other five assignments of [updateConfig] leave the field [p]
    alone. *)
Ltac other_fields p :=
  repeat (rewrite (when_truthy_frame p) by (intros; reflexivity)).



(** ** Items that share an id *)

Lemma file_name_inj i j : file_name i = file_name j → item_id i = item_id j.
Proof. apply append_inv_r. Qed.

Lemma store_cons files i items :
  store files (i :: items) = store (<[file_name i := JSON_stringify i]> files) items.
Proof. reflexivity. Qed.

Lemma store_lookup_other items : ∀ files name,
  Forall (λ k, file_name k ≠ name) items →
  store files items !! name = files !! name.
Proof.
  induction items as [|i items IH]; intros files name Hall; [done|].
  inversion Hall as [|? ? Hi Hrest]; subst.
  rewrite store_cons, IH, lookup_insert_ne by done. done.
Qed.



Lemma mirror_wf_store items : ∀ files, mirror_wf files → mirror_wf (store files items).
Proof.
  induction items as [|i items IH]; intros files Hwf; [done|].
  rewrite store_cons. apply IH. intros name t Hl Hj.
  destruct (decide (file_name i = name)) as [<-|Hne].
  - rewrite lookup_insert_eq in Hl. injection Hl as <-. by exists i.
  - rewrite lookup_insert_ne in Hl by done. by apply Hwf.
Qed.

Lemma NoDup_filter_bool {A} (p : A → bool) (l : list A) :
  NoDup l → NoDup (List.filter p l).
Proof.
  induction 1 as [|x l Hx Hl IH]; cbn; [constructor|].
  destruct (p x); [|done]. constructor; [|done].
  rewrite list_elem_of_In, List.filter_In, <- list_elem_of_In. by intros [? _].
Qed.

Lemma holds_wf_names files names items :
  mirror_wf files →
  Forall (λ name, is_json name = true) names →
  Forall2 (λ name item, files !! name = Some (Json item)) names items →
  names = file_name <$> items.
Proof.
  intros Hwf Hj H. induction H as [|name item names items Hl _ IH]; [done|].
  inversion Hj as [|? ? Hjn Hjr]; subst. cbn. f_equal; [|by apply IH].
  destruct (Hwf name (Json item) Hl Hjn) as (i & [= <-] & ->). done.
Qed.

Lemma mirror_read_NoDup w type files items :
  disk w !! mirror_dir w type = Some files →
  mirror_wf files →
  mirror_read w type = Some items →
  NoDup (item_id <$> items).
Proof.
  intros Hd Hwf Hr.
  apply mirror_read_Some in Hr as (files' & Hd' & _ & Hh & _).
  rewrite Hd in Hd'. injection Hd' as <-.
  assert (Hnames : List.filter is_json (file_names files) = file_name <$> items).
  { eapply holds_wf_names; [done| |done].
    apply Forall_forall. intros name Hin. by apply elem_of_json_names in Hin as [_ ?]. }
  assert (Hnd : NoDup (file_name <$> items)).
  { rewrite <- Hnames. apply NoDup_filter_bool. unfold file_names.
    apply NoDup_fst_map_to_list. }
  change (file_name <$> items) with ((λ i, item_id i +:+ ".json") <$> items) in Hnd.
  rewrite (list_fmap_compose item_id (λ x, x +:+ ".json")) in Hnd.
  by apply NoDup_fmap_1 in Hnd.
Qed.

Lemma saved_disk_lookup w type items :
  refused w (OpMkdir (mirror_dir w type)) = false →
  (∀ name, refused w (OpWriteFile (mirror_dir w type) name) = false) →
  saved_disk w type items !! mirror_dir w type
  = Some (store (default ∅ (disk w !! mirror_dir w type)) items).
Proof.
  intros Hmk Hwr. unfold saved_disk. rewrite Hmk, lookup_insert_eq.
  destruct (written_all (refused w) (mirror_dir w type) items) as [-> _]; [|done].
  apply Forall_forall. intros i _. apply Hwr.
Qed.

(** * Lemmas for the further properties *)

(** ** The bundled files, exactly *)

Lemma loadFromLocal_loop_exact type typeDir names : ∀ items s files,
  disk (world s) !! typeDir = Some files →
  ∃ evs, loadFromLocal_loop type typeDir names items s =
         (Ok (items ++ omap (read_item (world s) typeDir files)
                            (List.filter is_json names))%list,
          after s (disk (world s)) evs)
  ∧ Forall quiet evs.
Proof.
  induction names as [|file rest IH]; intros items s files Hd;
    cbn [loadFromLocal_loop List.filter].
  - exists []. rewrite after_id. cbn. by rewrite app_nil_r.
  - fold (is_json file). destruct (is_json file) eqn:Hj; cbn [negb]; [|by apply IH].
    cbn [omap list_omap]. mstep.
    destruct (readFile_run typeDir file s files Hd) as (r & -> & Hnone & Hsome).
    assert (Hri : read_item (world s) typeDir files file
                  = (if refused (world s) (OpReadFile typeDir file) then None
                     else files !! file) ≫= JSON_parse).
    { unfold read_item. by destruct (refused _ _). }
    rewrite Hri.
    destruct (if refused (world s) (OpReadFile typeDir file) then None else files !! file)
      as [t|] eqn:Ht.
    + rewrite (Hsome t eq_refl). mstep. unfold JSON_parse_or_throw. cbn [mbind option_bind].
      destruct (JSON_parse t) as [i|]; mstep.
      * match goal with |- context [loadFromLocal_loop type typeDir rest ?its ?s'] =>
          destruct (IH its s' files) as (evs & -> & Hq) end; [done|].
        eexists. mstep.
        change (read_item (world (after _ _ _))) with (read_item (world s)).
        rewrite <- app_assoc. split; [reflexivity|by constructor].
      * unfold console_error. mstep.
        match goal with |- context [loadFromLocal_loop type typeDir rest ?its ?s'] =>
          destruct (IH its s' files) as (evs & -> & Hq) end; [done|].
        eexists. mstep. split; [reflexivity|]. by repeat constructor.
    + destruct (Hnone eq_refl) as [msg ->]. cbn [mbind option_bind].
      unfold console_error. mstep.
      match goal with |- context [loadFromLocal_loop type typeDir rest ?its ?s'] =>
        destruct (IH its s' files) as (evs & -> & Hq) end; [done|].
      eexists. mstep. split; [reflexivity|]. by repeat constructor.
Qed.

Lemma loadFromLocal_exact type s :
  ∃ evs, loadFromLocal type s =
         (Ok (bundled_read (world s) type), after s (disk (world s)) evs)
  ∧ Forall quiet evs.
Proof.
  unfold loadFromLocal, bundled_read. mstep. fold (bundled_dir (world s) type).
  set (typeDir := bundled_dir (world s) type).
  destruct (readdir_run typeDir s) as (r & -> & Hr).
  destruct (disk (world s) !! typeDir) as [files|] eqn:Hd.
  - destruct (refused (world s) (OpReaddir typeDir)).
    + destruct Hr as [msg ->]. unfold console_error. mstep.
      eexists; split; [reflexivity|]. by repeat constructor.
    + subst r. mstep.
      match goal with |- context [loadFromLocal_loop type typeDir ?ns ?its ?s'] =>
        destruct (loadFromLocal_loop_exact type typeDir ns its s' files)
          as (evs & -> & Hq) end; [done|].
      eexists. mstep. split; [reflexivity|]. by constructor.
  - destruct Hr as [msg ->]. unfold console_error. mstep.
    eexists; split; [reflexivity|]. by repeat constructor.
Qed.

Lemma bundled_read_after s d evs type :
  disk (world s) = d → bundled_read (world (after s d evs)) type = bundled_read (world s) type.
Proof. intros <-. reflexivity. Qed.

(** A list of events built from quiet events and quiet lists. *)
Ltac all_quiet :=
  cbn [app];
  repeat first [ done | apply Forall_app; split | apply Forall_cons; split
               | apply Forall_nil ].

(** The fallback of [loadFromGitHub], exactly. *)
Lemma loadFromGitHub_fail_exact type s :
  listing s type = None →
  ∃ evs, loadFromGitHub type s =
    (Ok (default (bundled_read (world s) type) (mirror_read (world s) type)),
     after s (disk (world s))
       (EvFetch (listing_url (config (loader s)) type) (authorization_of (config (loader s)))
        :: evs))
  ∧ Forall quiet evs.
Proof.
  intros Hl. unfold loadFromGitHub. mstep.
  destruct (fetchGitHubDirectory_fail _ _ Hl) as (msg & ->).
  unfold console_error, console_log. mstep.
  match goal with |- context [loadFromCacheDir type ?s'] =>
    destruct (loadFromCacheDir_run type s') as (evs & -> & Hq) end.
  mstep. change (mirror_read (world (after _ _ _))) with (mirror_read (world s)).
  destruct (mirror_read (world s) type) as [cached|]; mstep.
  - eexists. split; [reflexivity|]. all_quiet.
  - match goal with |- context [loadFromLocal type ?s'] =>
      destruct (loadFromLocal_exact type s') as (evs' & -> & Hq') end.
    mstep. eexists. split; [reflexivity|]. all_quiet.
Qed.

(** A load that goes to its source, in terms of the source function. *)
Lemma try_via_source type s items d evs :
  (if String.eqb (source (config (loader s))) "github"
   then loadFromGitHub else loadFromLocal) type s
  = (Ok items, after s d evs) →
  loadWithCache_try type s =
  (Ok items, mkState (set_lastFetchTime (now (world s)) (loader s))
                     (world (after s d evs))).
Proof.
  intros Hrun. unfold loadWithCache_try, Date_now, modify_loader.
  rewrite bind_gets.
  destruct (String.eqb (source (config (loader s))) "github");
    rewrite bind_run, Hrun; mstep; reflexivity.
Qed.

Lemma load_via_source T s items d evs :
  goes_to_source T s = true →
  (if String.eqb (source (config (loader s))) "github"
   then loadFromGitHub else loadFromLocal) (type_name T)
     (mkState (set_isFetching true (loader s)) (world s))
  = (Ok items, after (mkState (set_isFetching true (loader s)) (world s)) d evs) →
  load T s =
  (Ok items, mkState (set_cache T (Some items) (refetched (loader s) (now (world s))))
                     (world (after s d evs))).
Proof.
  intros [Hf Hs]%goes_to_source_true Hrun.
  rewrite load_unfold, loadWithCache_fetch by done.
  unfold single_flight, modify_loader. mstep. rewrite try_finally_run.
  rewrite (try_via_source _ _ items d evs Hrun). reflexivity.
Qed.

Lemma load_total T s :
  ∃ items l w,
    load T s = (Ok items, mkState (set_cache T (Some items) l) w)
    ∧ config l = config (loader s)
    ∧ (∀ U, U ≠ T → cache_of U l = cache_of U (loader s))
    ∧ dirname w = dirname (world s) ∧ refused w = refused (world s)
    ∧ github w = github (world s) ∧ now w = now (world s).
Proof.
  destruct (goes_to_source T s) eqn:Hg.
  - destruct (load_fetch T s Hg) as (items & d & evs & -> & _).
    eexists _, _, _. split; [reflexivity|]. split_and!; try done.
    all: intros U HU; by destruct U, T.
  - destruct (load_served T s Hg) as (items & ->).
    eexists _, _, _. split; [reflexivity|]. by split_and!.
Qed.

Lemma load_local T s :
  goes_to_source T s = true →
  source (config (loader s)) ≠ "github" →
  ∃ evs, load T s =
    (Ok (bundled_read (world s) (type_name T)),
     mkState (set_cache T (Some (bundled_read (world s) (type_name T)))
                (refetched (loader s) (now (world s))))
             (world (after s (disk (world s)) evs)))
  ∧ Forall quiet evs.
Proof.
  intros Hg Hsrc.
  destruct (loadFromLocal_exact (type_name T)
              (mkState (set_isFetching true (loader s)) (world s))) as (evs & Hrun & Hq).
  exists evs. split; [|done].
  apply (load_via_source T s _ _ evs Hg). cbn [loader config set_isFetching].
  apply String.eqb_neq in Hsrc. by rewrite Hsrc.
Qed.

Lemma load_fallback T s :
  goes_to_source T s = true →
  source (config (loader s)) = "github" →
  listing s (type_name T) = None →
  ∃ evs, load T s =
    (Ok (default (bundled_read (world s) (type_name T))
                 (mirror_read (world s) (type_name T))),
     mkState (set_cache T (Some (default (bundled_read (world s) (type_name T))
                                         (mirror_read (world s) (type_name T))))
                (refetched (loader s) (now (world s))))
             (world (after s (disk (world s))
                (EvFetch (listing_url (config (loader s)) (type_name T))
                         (authorization_of (config (loader s))) :: evs))))
  ∧ Forall quiet evs.
Proof.
  intros Hg Hsrc Hl.
  destruct (loadFromGitHub_fail_exact (type_name T)
              (mkState (set_isFetching true (loader s)) (world s)) Hl)
    as (evs & Hrun & Hq).
  exists evs. split; [|done].
  apply (load_via_source T s _ _ _ Hg). cbn [loader config set_isFetching].
  by rewrite Hsrc.
Qed.

Lemma loadFromLocal_result type s :
  (loadFromLocal type s).1 = Ok (bundled_read (world s) type).
Proof. by destruct (loadFromLocal_exact type s) as (evs & -> & _). Qed.

Lemma loadFromCacheDir_result type s :
  (loadFromCacheDir type s).1 = Ok (mirror_read (world s) type).
Proof. by destruct (loadFromCacheDir_run type s) as (evs & -> & _). Qed.

Lemma quiet_spec e : quiet e → is_fetch e = false ∧ is_write e = false.
Proof. done. Qed.

(** ** The requests of a remote load *)

Lemma loadFromGitHub_loop_requests type dir : ∀ items s,
  ∃ evs, loadFromGitHub_loop type dir items s =
         (Ok (items ++ remote_items s type dir)%list, after s (disk (world s)) evs)
  ∧ Forall (file_event (config (loader s)) type) evs
  ∧ List.filter is_fetch evs
    = file_request (config (loader s)) type <$> List.filter is_json_file dir.
Proof.
  induction dir as [|file rest IH]; intros items s;
    cbn [loadFromGitHub_loop remote_items omap list_omap List.filter].
  - exists []. rewrite after_id, app_nil_r. by split_and!.
  - fold (is_json_file file). destruct (is_json_file file) eqn:Hj; [|apply IH].
    mstep.
    destruct (fetchGitHubFile_run type (d_name file) s) as (r & -> & Hr).
    destruct (remote_item s type (d_name file)) as [i|] eqn:Hi.
    + subst r. mstep.
      match goal with |- context [loadFromGitHub_loop type rest ?its ?s'] =>
          destruct (IH its s') as (evs & -> & Hevs & Hreq) end.
      eexists. mstep. rewrite remote_items_after, <- app_assoc. split; [reflexivity|].
      split; [constructor; [left; eauto|done]|].
      cbn. f_equal. exact Hreq.
    + destruct Hr as [msg ->]. unfold console_error. mstep.
      match goal with |- context [loadFromGitHub_loop type rest ?its ?s'] =>
          destruct (IH its s') as (evs & -> & Hevs & Hreq) end.
      eexists. mstep. split; [reflexivity|].
      split; [constructor; [left; eauto|]; constructor; [right; eauto|done]|].
      cbn. f_equal. exact Hreq.
Qed.

Lemma remote_items_length s type dir :
  (length (remote_items s type dir) ≤ length (List.filter is_json_file dir))%nat.
Proof.
  induction dir as [|file rest IH]; [done|].
  unfold remote_items in *. cbn [omap list_omap List.filter].
  destruct (is_json_file file); [|done].
  destruct (remote_item s type (d_name file)); cbn [length]; lia.
Qed.

Lemma filter_fetch_app (a b : list event) :
  List.filter is_fetch (a ++ b) = (List.filter is_fetch a ++ List.filter is_fetch b)%list.
Proof. apply List.filter_app. Qed.

Lemma filter_fetch_none evs :
  Forall (λ e, is_fetch e = false) evs → List.filter is_fetch evs = [].
Proof. induction 1 as [|e evs He _ IH]; cbn; [done|]. by rewrite He. Qed.

Lemma file_event_not_read cfg type e : file_event cfg type e → is_read e = false.
Proof. by intros [(name & a & ->)|[msg ->]]. Qed.

Lemma save_events_not_read w type items evs :
  save_events w type items evs → Forall (λ e, is_read e = false) evs.
Proof.
  unfold save_events. destruct (refused w _).
  - intros [msg ->]. by repeat constructor.
  - intros (logs & -> & Hok & Hth). constructor; [done|]. apply Forall_app. split.
    + apply Forall_fmap, Forall_true. done.
    + destruct (written_all_or_not (refused w) (mirror_dir w type) items) as [H|H].
      * by rewrite (Hok H).
      * destruct (Hth H) as [msg ->]. by repeat constructor.
Qed.

Lemma loadFromGitHub_ok_requests type s entries :
  listing s type = Some entries →
  let cfg := config (loader s) in
  let items := remote_items s type entries in
  ∃ evs, loadFromGitHub type s =
    (Ok items, after s (saved_disk (world s) type items) evs)
  ∧ List.filter is_fetch evs
    = EvFetch (listing_url cfg type) (authorization_of cfg)
      :: (file_request cfg type <$> List.filter is_json_file entries)
  ∧ Forall (λ e, is_read e = false) evs.
Proof.
  intros Hl cfg items. unfold loadFromGitHub. mstep.
  rewrite (fetchGitHubDirectory_ok _ _ _ Hl). mstep.
  match goal with |- context [loadFromGitHub_loop type entries ?its ?s'] =>
    destruct (loadFromGitHub_loop_requests type entries its s') as (fevs & -> & Hf & Hreq) end.
  mstep. rewrite remote_items_after. cbn [app]. fold items.
  match goal with |- context [saveToCacheDir type items ?s'] =>
    destruct (saveToCacheDir_run type items s') as (sevs & -> & Hs) end.
  mstep. eexists. split; [reflexivity|]. split.
  - cbn [app List.filter is_fetch]. f_equal. rewrite filter_fetch_app, Hreq.
    rewrite (filter_fetch_none sevs), app_nil_r; [done|].
    by eapply save_events_quiet.
  - cbn [app]. constructor; [done|]. rewrite Forall_app. split.
    + eapply Forall_impl; [done|]. apply file_event_not_read.
    + by eapply save_events_not_read.
Qed.

(** ** The disk outside the mirror of [T] *)

Lemma saved_disk_other w type items dir :
  dir ≠ mirror_dir w type → saved_disk w type items !! dir = disk w !! dir.
Proof.
  intros Hne. unfold saved_disk. destruct (refused w _); [done|].
  by rewrite lookup_insert_ne.
Qed.

Lemma load_disk_other T s dir :
  dir ≠ mirror_dir (world s) (type_name T) →
  disk (world (load T s).2) !! dir = disk (world s) !! dir.
Proof.
  intros Hne. destruct (goes_to_source T s) eqn:Hg.
  - destruct (load_fetch T s Hg) as (items & d & evs & -> & Hs). cbn.
    unfold fetch_spec in Hs.
    destruct (String.eqb (source (config (loader s))) "github").
    + destruct (listing s (type_name T)).
      * destruct Hs as (_ & -> & _). by apply saved_disk_other.
      * by destruct Hs as (-> & _).
    + by destruct Hs as (-> & _).
  - by destruct (load_served T s Hg) as (items & ->).
Qed.

Lemma bundled_not_mirror w U T : bundled_dir w (type_name U) ≠ mirror_dir w (type_name T).
Proof.
  unfold bundled_dir, mirror_dir, join. intros H. rewrite !append_assoc in H.
  do 2 apply (inj (String.append _)) in H. destruct U; discriminate H.
Qed.

Lemma mirror_other w U T : U ≠ T → mirror_dir w (type_name U) ≠ mirror_dir w (type_name T).
Proof.
  intros Hne H. unfold mirror_dir, join in H. rewrite !append_assoc in H.
  do 4 apply (inj (String.append _)) in H. destruct U, T; try done; discriminate H.
Qed.

Lemma load_remote T s entries :
  goes_to_source T s = true →
  source (config (loader s)) = "github" →
  listing s (type_name T) = Some entries →
  let cfg := config (loader s) in
  let items := remote_items s (type_name T) entries in
  ∃ evs, load T s =
    (Ok items,
     mkState (set_cache T (Some items) (refetched (loader s) (now (world s))))
             (world (after s (saved_disk (world s) (type_name T) items) evs)))
  ∧ List.filter is_fetch evs
    = EvFetch (listing_url cfg (type_name T)) (authorization_of cfg)
      :: (file_request cfg (type_name T) <$> List.filter is_json_file entries)
  ∧ Forall (λ e, is_read e = false) evs.
Proof.
  intros Hg Hsrc Hl cfg items.
  destruct (loadFromGitHub_ok_requests (type_name T)
              (mkState (set_isFetching true (loader s)) (world s)) entries Hl)
    as (evs & Hrun & Hreq & Hrd).
  exists evs. split; [|by split].
  apply (load_via_source T s _ _ _ Hg). cbn [loader config set_isFetching].
  rewrite Hsrc. exact Hrun.
Qed.

Lemma remote_items_none s type entries :
  (∀ file, file ∈ entries → is_json_file file = true →
           remote_item s type (d_name file) = None) →
  remote_items s type entries = [].
Proof.
  induction entries as [|file rest IH]; intros H; [done|].
  unfold remote_items in *. cbn [omap list_omap].
  destruct (is_json_file file) eqn:Hj.
  - rewrite (H file) by (done || by left). apply IH.
    intros f Hf. apply H. by right.
  - apply IH. intros f Hf. apply H. by right.
Qed.

Lemma saved_disk_nothing w type files :
  disk w !! mirror_dir w type = Some files →
  saved_disk w type [] = disk w.
Proof.
  intros Hd. unfold saved_disk. destruct (refused w _); [done|].
  rewrite Hd. cbn. by apply insert_id.
Qed.

Lemma bundled_read_ext w1 w2 type :
  dirname w1 = dirname w2 → refused w1 = refused w2 →
  disk w1 !! bundled_dir w2 type = disk w2 !! bundled_dir w2 type →
  bundled_read w1 type = bundled_read w2 type.
Proof.
  destruct w1, w2. cbn. intros -> -> Hd.
  unfold bundled_read, bundled_dir, read_item in *. cbn in *. by rewrite Hd.
Qed.

Lemma mirror_read_ext w1 w2 type :
  dirname w1 = dirname w2 → refused w1 = refused w2 →
  disk w1 !! mirror_dir w2 type = disk w2 !! mirror_dir w2 type →
  mirror_read w1 type = mirror_read w2 type.
Proof.
  destruct w1, w2. cbn. intros -> -> Hd.
  unfold mirror_read, mirror_dir, read_item in *. cbn in *. by rewrite Hd.
Qed.

(** ** The mirror directory after a save *)

Lemma store_snoc files items i :
  store files (items ++ [i]) = <[file_name i := JSON_stringify i]> (store files items).
Proof. unfold store. by rewrite foldl_app. Qed.

Lemma last_named_snoc name items i :
  last_named name (items ++ [i])
  = if decide (file_name i = name) then Some i else last_named name items.
Proof.
  unfold last_named. rewrite filter_app, filter_cons, filter_nil.
  destruct (decide (file_name i = name)); [apply last_snoc|by rewrite app_nil_r].
Qed.

Lemma store_lookup items : ∀ files name,
  store files items !! name
  = match last_named name items with
    | Some i => Some (Json i)
    | None => files !! name
    end.
Proof.
  induction items as [|i items IH] using rev_ind; intros files name; [done|].
  rewrite store_snoc, last_named_snoc, lookup_insert.
  destruct (decide (file_name i = name)); [done|apply IH].
Qed.

Lemma last_named_Some name items i :
  last_named name items = Some i → i ∈ items ∧ file_name i = name.
Proof.
  unfold last_named. intros H%last_Some_elem_of. by apply list_elem_of_filter in H as [? ?].
Qed.

Lemma last_named_None name items :
  last_named name items = None ↔ ∀ i, i ∈ items → file_name i ≠ name.
Proof.
  unfold last_named. rewrite last_None. split.
  - intros H i Hi Hn. assert (i ∈ filter (λ i, file_name i = name) items) as Hin
      by by apply list_elem_of_filter.
    rewrite H in Hin. by apply elem_of_nil in Hin.
  - intros H. destruct (filter _ items) as [|i l] eqn:Hf; [done|].
    assert (i ∈ filter (λ i, file_name i = name) items) as Hin by (rewrite Hf; by left).
    apply list_elem_of_filter in Hin as [Hn Hi]. by destruct (H i Hi).
Qed.

Lemma store_idemp files items : store (store files items) items = store files items.
Proof.
  apply map_eq. intros name. rewrite (store_lookup items (store files items)).
  destruct (last_named name items) as [i|] eqn:Hl; [|done].
  by rewrite store_lookup, Hl.
Qed.

Lemma store_keeps files items name :
  is_Some (files !! name) → is_Some (store files items !! name).
Proof. intros H. rewrite store_lookup. by destruct (last_named name items). Qed.

Lemma written_elem_of no typeDir items i : i ∈ written no typeDir items → i ∈ items.
Proof.
  induction items as [|j rest IH]; cbn; [done|].
  destruct (no _); [by intros ?%elem_of_nil|].
  intros [->|H]%elem_of_cons; [by left|right; by apply IH].
Qed.

Lemma saved_disk_twice w w' type items :
  dirname w' = dirname w → refused w' = refused w →
  disk w' = saved_disk w type items →
  saved_disk w' type items = saved_disk w type items.
Proof.
  intros Hdn Hr Hd. unfold saved_disk at 1. unfold mirror_dir. rewrite Hdn, Hr, Hd.
  fold (mirror_dir w type). unfold saved_disk.
  destruct (refused w (OpMkdir (mirror_dir w type))); [done|].
  rewrite lookup_insert_eq, insert_insert_eq. cbn [default id]. by rewrite store_idemp.
Qed.

Lemma is_json_file_name i : is_json (file_name i) = true.
Proof. apply endsWith_append. Qed.

Lemma NoDup_ids_eq (items : list Item) i j :
  NoDup (item_id <$> items) → i ∈ items → j ∈ items → item_id i = item_id j → i = j.
Proof.
  induction items as [|k rest IH]; [by intros _ ?%elem_of_nil|].
  rewrite fmap_cons, NoDup_cons. intros [Hk Hnd] Hi Hj Heq.
  apply elem_of_cons in Hi as [->|Hi]; apply elem_of_cons in Hj as [->|Hj].
  - done.
  - destruct Hk. rewrite Heq. apply list_elem_of_fmap. by exists j.
  - destruct Hk. rewrite <- Heq. apply list_elem_of_fmap. by exists i.
  - by apply IH.
Qed.

Lemma holds_elem_of (files : gmap string text) names back i :
  Forall2 (λ name item, files !! name = Some (Json item)) names back →
  file_name i ∈ names →
  files !! file_name i = Some (Json i) →
  i ∈ back.
Proof.
  intros Hall Hin Hf. apply list_elem_of_lookup in Hin as [idx Hidx].
  destruct (Forall2_lookup_l _ _ _ _ _ Hall Hidx) as (y & Hy & Hfy).
  rewrite Hf in Hfy. injection Hfy as ->. apply list_elem_of_lookup. by exists idx.
Qed.

Lemma holds_elem_of_inv (files : gmap string text) names back i :
  Forall2 (λ name item, files !! name = Some (Json item)) names back →
  i ∈ back → ∃ name, name ∈ names ∧ files !! name = Some (Json i).
Proof.
  intros Hall [idx Hidx]%list_elem_of_lookup.
  destruct (Forall2_lookup_r _ _ _ _ _ Hall Hidx) as (name & Hn & Hf).
  exists name. split; [|done]. apply list_elem_of_lookup. by exists idx.
Qed.

(** What the mirror read finds after a save that nothing refused. *)
Lemma mirror_read_saved w w' type items :
  dirname w' = dirname w → refused w' = refused w →
  disk w' = saved_disk w type items →
  (∀ op, refused w op = false) →
  mirror_wf (default ∅ (disk w !! mirror_dir w type)) →
  items ≠ [] →
  ∃ back, mirror_read w' type = Some back
    ∧ NoDup (item_id <$> back)
    ∧ Forall2 (λ name item,
                 store (default ∅ (disk w !! mirror_dir w type)) items !! name
                 = Some (Json item))
              (List.filter is_json
                 (file_names (store (default ∅ (disk w !! mirror_dir w type)) items)))
              back.
Proof.
  intros Hdn Hr Hd Hno Hwf Hne.
  set (old := default ∅ (disk w !! mirror_dir w type)) in *.
  assert (Hdir : mirror_dir w' type = mirror_dir w type)
    by (unfold mirror_dir; by rewrite Hdn).
  assert (Hfiles : disk w' !! mirror_dir w' type = Some (store old items)).
  { rewrite Hdir, Hd. by apply saved_disk_lookup. }
  assert (Hwf' : mirror_wf (store old items)) by by apply mirror_wf_store.
  destruct (mirror_read w' type) as [back|] eqn:Hm.
  - exists back. split; [done|]. split; [by eapply mirror_read_NoDup|].
    apply mirror_read_Some in Hm as (files & Hf & _ & Hall & _).
    rewrite Hfiles in Hf. by injection Hf as <-.
  - exfalso. apply mirror_read_None in Hm as [Hm|[Hm|(files & Hf & Hm)]].
    + by rewrite Hfiles in Hm.
    + by rewrite Hr, Hno in Hm.
    + rewrite Hfiles in Hf. injection Hf as <-. destruct Hm as [Hm|(name & Hin & Hj & Hm)].
      * destruct items as [|i rest]; [done|].
        assert (file_name i ∈ List.filter is_json (file_names (store old (i :: rest)))) as Hin.
        { apply elem_of_json_names. split; [|apply is_json_file_name].
          apply file_names_lookup. rewrite store_lookup.
          destruct (last_named (file_name i) (i :: rest)) eqn:Hl; [done|].
          rewrite last_named_None in Hl. destruct (Hl i); [by left|done]. }
        rewrite Hm in Hin. by apply elem_of_nil in Hin.
      * destruct Hm as [Hm|[raw Hraw]]; [by rewrite Hr, Hno in Hm|].
        destruct (Hwf' name _ Hraw Hj) as (i & Hi & _). discriminate Hi.
Qed.

(** ** Lookups by id *)

Lemma getById_run id_of T id s :
  getById id_of T id s =
  match load T s with
  | (Ok items, s') => find_by_id id_of id items s'
  | (Throw e, s') => (Throw e, s')
  end.
Proof. destruct T; cbn [getById load]; unfold getStepById, getWorkflowById; by rewrite bind_run. Qed.

Lemma find_by_id_state id_of id items s : (find_by_id id_of id items s).2 = s.
Proof.
  induction items as [|k rest IH]; cbn [find_by_id]; [done|].
  destruct (id_of k) as [v| |]; [destruct (String.eqb v id)| |]; done.
Qed.

Lemma find_by_id_strings id_of id (items : list Item) s :
  Forall (λ i, id_of i = IdString (item_id i)) items →
  ∃ r, (find_by_id id_of id items s).1 = Ok r
    ∧ match r with
      | Some i => ∃ pre post, items = (pre ++ i :: post)%list ∧ item_id i = id
                              ∧ Forall (λ j, item_id j ≠ id) pre
      | None => Forall (λ j, item_id j ≠ id) items
      end.
Proof.
  induction 1 as [|k rest Hk _ IH]; cbn [find_by_id].
  - by exists None.
  - rewrite Hk. destruct (String.eqb (item_id k) id) eqn:Heq.
    + apply String.eqb_eq in Heq. exists (Some k). split; [done|]. by exists [], rest.
    + apply String.eqb_neq in Heq. destruct IH as (r & Hr & Hspec).
      exists r. split; [done|]. destruct r as [i|].
      * destruct Hspec as (pre & post & -> & Hi & Hpre).
        exists (k :: pre), post. split_and!; [done|done|by constructor].
      * by constructor.
Qed.

Lemma find_by_id_null id_of id pre i post s :
  id_of i = IdOfNull →
  Forall (λ j, id_of j ≠ IdOfNull ∧ id_of j ≠ IdString id) pre →
  ∃ msg, (find_by_id id_of id (pre ++ i :: post) s).1 = Throw msg.
Proof.
  intros Hi. induction 1 as [|k rest [Hk1 Hk2] _ IH]; cbn [find_by_id app].
  - rewrite Hi. by eexists.
  - destruct (id_of k) as [v| |] eqn:Hv; [|done|done].
    destruct (String.eqb v id) eqn:Heq; [|done].
    apply String.eqb_eq in Heq. by subst v.
Qed.

(** ** What passive actions leave alone *)

Lemma cache_of_set_isFetching U b l : cache_of U (set_isFetching b l) = cache_of U l.
Proof. by destruct U. Qed.

Lemma cache_of_refetched U l t : cache_of U (refetched l t) = cache_of U l.
Proof. by destruct U. Qed.

Lemma passive_step_cache U a S :
  U ∉ waiting S → passive U a →
  cache_of U (loader (state (step a S))) = cache_of U (loader (state S))
  ∧ U ∉ waiting (step a S).
Proof.
  intros Hw Hp. destruct a as [U'| |d|c| |g r]; cbn in Hp; try done; cbn [step].
  - destruct (call_cases U' S) as [[_ ->]|[_ (items & ->)]]; cbn.
    + rewrite cache_of_set_isFetching. split; [done|].
      rewrite elem_of_app, list_elem_of_singleton. intros [?|?]; [done|]. by apply Hp.
    + by rewrite cache_of_set_cache_ne.
  - destruct (waiting S) as [|U' rest] eqn:HwS.
    + unfold complete. rewrite HwS. split; [done|]. rewrite HwS. apply not_elem_of_nil.
    + destruct (complete_cases S U' rest HwS) as (items & d' & evs & -> & _). cbn.
      apply not_elem_of_cons in Hw as [Hne Hrest].
      rewrite cache_of_set_cache_ne, cache_of_refetched by done. done.
Qed.

Lemma passive_run_cache U acts : ∀ S,
  U ∉ waiting S → Forall (passive U) acts →
  cache_of U (loader (state (run acts S))) = cache_of U (loader (state S)).
Proof.
  induction acts as [|a rest IH]; intros S Hw Hp; [done|].
  apply Forall_cons in Hp as [Ha Hrest]. cbn [run].
  destruct (passive_step_cache U a S Hw Ha) as [Hc Hw'].
  rewrite IH by done. exact Hc.
Qed.

(** ** [refreshCache] *)

Lemma call_suspend T S :
  goes_to_source T (state S) = true →
  call T S = mkSystem (mkState (set_isFetching true (loader (state S))) (world (state S)))
                      (waiting S ++ [T]).
Proof.
  intros Hg. destruct (call_cases T S) as [[_ Heq]|[Hg' _]]; [done|].
  cbv zeta in Hg'. by rewrite Hg in Hg'.
Qed.

Lemma refreshCache_busy S :
  isFetching (loader (state S)) = true →
  refreshCache S =
  mkSystem (mkState (mkLoader (config (loader (state S))) (Some []) (Some []) 0 true)
                    (world (state S)))
           (waiting S).
Proof.
  intros Hf. unfold refreshCache.
  rewrite (call_busy steps) by done. cbn.
  rewrite (call_busy workflows) by done. cbn. unfold set_workflowsCache, set_stepsCache, clear_caches. cbn. by rewrite Hf.
Qed.

Lemma refreshCache_idle S :
  isFetching (loader (state S)) = false →
  refreshCache S =
  mkSystem (mkState (mkLoader (config (loader (state S))) None (Some []) 0 true)
                    (world (state S)))
           (waiting S ++ [steps]).
Proof.
  intros Hf. unfold refreshCache.
  rewrite (call_suspend steps) by (unfold goes_to_source; cbn; by rewrite Hf). cbn.
  rewrite (call_busy workflows) by done. done.
Qed.

(** An entry that is fresh stays as it is and is served along a run of
    passive actions that lasts at most the TTL. *)
Lemma fresh_entry_sticks U S c acts :
  single_flight_inv S → U ∉ waiting S →
  cache_of U (loader (state S)) = Some c →
  lastFetchTime (loader (state S)) = now (world (state S)) →
  Forall (passive U) acts →
  (elapsed acts ≤ cacheTTL (config (loader (state S))))%Z →
  let S1 := run acts S in
  cache_of U (loader (state S1)) = Some c
  ∧ load U (state S1) = (Ok c, state S1)
  ∧ (listing_calls (config (loader (state S))) (type_name U) (trace (world (state S1)))
     ≤ listing_calls (config (loader (state S))) (type_name U) (trace (world (state S))))%nat.
Proof.
  intros Hsf Hw Hc Hlast Hp Hel S1.
  assert (H1 : window_inv (config (loader (state S))) U (now (world (state S))) Done
                 (listing_calls (config (loader (state S))) (type_name U)
                    (trace (world (state S)))) S).
  { unfold window_inv.
    split_and!; first [done | lia | by rewrite Hc | (rewrite Hlast; lia)]. }
  apply (done_run _ _ _ _ acts _ Hp) in H1.
  assert (Hc1 : cache_of U (loader (state S1)) = Some c).
  { unfold S1. by rewrite passive_run_cache. }
  destruct (window_done_fresh _ _ _ _ _ H1) as (c' & Hc' & Hfresh).
  { rewrite now_run. lia. }
  split_and!; [done|by apply load_fresh|].
  by destruct H1 as (_ & _ & Hn & _).
Qed.

(** ** The status and the configuration *)

Lemma getCacheStatus_run s :
  ∃ st, getCacheStatus s = (Ok st, s)
    ∧ st_isStale st = stale s
    ∧ st_source st = source (config (loader s))
    ∧ st_cacheTTL st = QArith_base.Qmake (cacheTTL (config (loader s))) 1000
    ∧ st_lastFetch st = (if truthy_number (lastFetchTime (loader s))
                         then Some (lastFetchTime (loader s)) else None)
    ∧ ∀ T, count_of T st = length (default [] (cache_of T (loader s))).
Proof.
  unfold getCacheStatus. rewrite bind_gets, bind_run, isCacheStale_run, mret_run.
  eexists. split; [reflexivity|]. cbn. split_and!; try done. by intros [].
Qed.

Lemma config_ext (c c' : Config) :
  repo c = repo c' → branch c = branch c' → token c = token c' →
  repoPath c = repoPath c' → cacheTTL c = cacheTTL c' → source c = source c' →
  c = c'.
Proof. destruct c, c'. cbn. by intros -> -> -> -> -> ->. Qed.

Lemma updateConfig_eta c l :
  updateConfig c l = mkLoader (config (updateConfig c l)) None None 0 (isFetching l).
Proof. reflexivity. Qed.

(** Each field after [updateConfig], in one equation. *)
Ltac field_of p f c :=
  unfold updateConfig; cbn [config]; other_fields p;
  destruct (f c) as [v|]; cbn [when_truthy];
  [match goal with |- context [if ?b then _ else _] => destruct b end|];
  other_fields p; reflexivity.

Lemma repo_updateConfig c l :
  repo (config (updateConfig c l))
  = match newRepo c with
    | Some v => if truthy_string v then v else repo (config l)
    | None => repo (config l)
    end.
Proof. field_of repo newRepo c. Qed.

Lemma branch_updateConfig c l :
  branch (config (updateConfig c l))
  = match newBranch c with
    | Some v => if truthy_string v then v else branch (config l)
    | None => branch (config l)
    end.
Proof. field_of branch newBranch c. Qed.

Lemma token_updateConfig c l :
  token (config (updateConfig c l))
  = match newToken c with
    | Some v => if truthy_opt_string v then v else token (config l)
    | None => token (config l)
    end.
Proof. field_of token newToken c. Qed.

Lemma repoPath_updateConfig c l :
  repoPath (config (updateConfig c l))
  = match newRepoPath c with
    | Some v => if truthy_string v then v else repoPath (config l)
    | None => repoPath (config l)
    end.
Proof. field_of repoPath newRepoPath c. Qed.

Lemma cacheTTL_updateConfig c l :
  cacheTTL (config (updateConfig c l))
  = match newCacheTTL c with
    | Some v => if truthy_number v then (v * 1000)%Z else cacheTTL (config l)
    | None => cacheTTL (config l)
    end.
Proof. field_of cacheTTL newCacheTTL c. Qed.

Lemma source_updateConfig c l :
  source (config (updateConfig c l))
  = match newSource c with
    | Some v => if truthy_string v then v else source (config l)
    | None => source (config l)
    end.
Proof. field_of source newSource c. Qed.

Lemma later_field_match {A B} (truthy : A → bool) (a b : option A) (f : A → B) (d : B) :
  match later_field truthy a b with
  | Some v => if truthy v then f v else d
  | None => d
  end
  = match b with
    | Some v => if truthy v then f v
                else match a with Some w => if truthy w then f w else d | None => d end
    | None => match a with Some w => if truthy w then f w else d | None => d end
    end.
Proof.
  destruct b as [v|]; cbn; [|done]. destruct (truthy v) eqn:Hv; [by rewrite Hv|done].
Qed.

Lemma updateConfig_merged c1 c2 l :
  updateConfig c2 (updateConfig c1 l) = updateConfig (merged c1 c2) l.
Proof.
  rewrite (updateConfig_eta c2), (updateConfig_eta (merged c1 c2)). f_equal.
  apply config_ext.
  - rewrite !repo_updateConfig. cbn [merged newRepo]. by rewrite later_field_match.
  - rewrite !branch_updateConfig. cbn [merged newBranch]. by rewrite later_field_match.
  - rewrite !token_updateConfig. cbn [merged newToken]. by rewrite later_field_match.
  - rewrite !repoPath_updateConfig. cbn [merged newRepoPath]. by rewrite later_field_match.
  - rewrite !cacheTTL_updateConfig. cbn [merged newCacheTTL]. by rewrite later_field_match.
  - rewrite !source_updateConfig. cbn [merged newSource]. by rewrite later_field_match.
Qed.

Lemma later_field_same {A} (truthy : A → bool) (a : option A) : later_field truthy a a = a.
Proof. destruct a as [v|]; cbn; [|done]. by destruct (truthy v). Qed.

Lemma merged_same c : merged c c = c.
Proof. destruct c. unfold merged. cbn. by rewrite !later_field_same. Qed.

Lemma cache_of_updateConfig T c l : cache_of T (updateConfig c l) = None.
Proof. by destruct T. Qed.

Lemma stale_refetched_now T items s d evs :
  stale (mkState (set_cache T (Some items) (refetched (loader s) (now (world s))))
                 (world (after s d evs)))
  = (cacheTTL (config (loader s)) <? 0)%Z.
Proof.
  unfold stale. cbn. rewrite config_set_cache, lastFetchTime_set_cache. cbn.
  by rewrite Z.sub_diag.
Qed.

(** What [fetchGitHubDirectory] makes of the answer of GitHub. *)
Lemma listing_Some s type entries :
  listing s type = Some entries ↔
  ∃ status statusText,
    github (world s) (listing_url (config (loader s)) type)
           (authorization_of (config (loader s)))
    = Response status statusText (Some (PArray entries))
    ∧ (200 ≤ status ≤ 299)%Z.
Proof.
  unfold listing, decode, ok.
  destruct (github _ _ _) as [msg|status statusText body]; cbn.
  - split; [done|]. by intros (? & ? & ? & _).
  - destruct ((200 <=? status)%Z && (status <=? 299)%Z) eqn:Hok; cbn.
    + apply andb_true_iff in Hok as [H1%Z.leb_le H2%Z.leb_le].
      destruct body as [[es|ty content]|]; split; try done.
      * intros [= ->]. by exists status, statusText.
      * by intros (? & ? & [= -> -> ->] & _).
      * by intros (? & ? & ? & _).
      * by intros (? & ? & ? & _).
    + split; [done|]. intros (? & ? & [= -> -> ->] & [H1%Z.leb_le H2%Z.leb_le]).
      by rewrite H1, H2 in Hok.
Qed.

(** ** Reconfiguration along a run *)



(** What a fallback load serves, in terms of the two fallback reads. *)
Lemma load_fallback_served T s :
  goes_to_source T s = true →
  source (config (loader s)) = "github" →
  listing s (type_name T) = None →
  ∃ items evs,
    load T s =
    (Ok items,
     mkState (set_cache T (Some items) (refetched (loader s) (now (world s))))
             (world (after s (disk (world s))
                (EvFetch (listing_url (config (loader s)) (type_name T))
                         (authorization_of (config (loader s))) :: evs))))
    ∧ Forall quiet evs
    ∧ (∀ cached, (loadFromCacheDir (type_name T) s).1 = Ok (Some cached) → items = cached)
    ∧ ((loadFromCacheDir (type_name T) s).1 = Ok None →
       Ok items = (loadFromLocal (type_name T) s).1).
Proof.
  intros Hg Hsrc Hl. destruct (load_fallback T s Hg Hsrc Hl) as (evs & Hrun & Hq).
  eexists _, evs. split; [exact Hrun|]. split; [done|].
  rewrite loadFromCacheDir_result, loadFromLocal_result. split.
  - intros cached [= ->]. done.
  - intros [= ->]. done.
Qed.

(** * The claims *)

(** C1. If a cache entry exists for [T] and [now - lastFetchTime] is at
    most the configured TTL, [load T] returns the cached sequence and
    changes nothing: no variable of the module, nothing in the world, no
    event in the trace.  Consequently, when [load T] is called twice
    within one TTL window, starting with no load under way and with
    neither [updateConfig] nor [refreshCache] in between (the clock may
    move forward, waiting loads may end, the other collection may be
    loaded, GitHub and the disk may change), at most one directory
    listing for [T] is requested. *)
Theorem C1_fresh_cache_is_served_and_one_listing_per_window
    (T : collection) (s : State) (c : list Item)
    (S : System) (acts1 acts2 : list action) :
  (cache_of T (loader s) = Some c →
   (now (world s) - lastFetchTime (loader s) ≤ cacheTTL (config (loader s)))%Z →
   load T s = (Ok c, s))
  ∧ (quiescent S →
     Forall (passive T) acts1 →
     Forall (passive T) acts2 →
     (elapsed acts1 ≤ cacheTTL (config (loader (state S))))%Z →
     (listing_calls (config (loader (state S))) (type_name T)
        (trace (world (state (run (Call T :: acts1 ++ Call T :: acts2) S))))
      ≤ listing_calls (config (loader (state S))) (type_name T)
          (trace (world (state S))) + 1)%nat).
Proof.
  split.
  - intros Hc Hfresh. apply load_fresh; [done|]. by apply stale_false.
  - apply two_loads_one_listing.
Qed.

(** C1 at work: a fresh entry is returned as is; and two calls of
    [loadSteps] 30 ms apart, a load of the workflows in between, send one
    listing request for the steps. *)
Lemma C1_witness :
  load steps Example.s_cached = (Ok [Example.a], Example.s_cached)
  ∧ (listing_calls Example.cfg "steps"
       (trace (world (state
          (run (Call steps :: [Tick 10; Complete; Call workflows; Tick 20]
                ++ Call steps :: [Complete; Tick 5])
               (mkSystem Example.s0 [])))))
     ≤ 0 + 1)%nat.
Proof.
  pose proof (C1_fresh_cache_is_served_and_one_listing_per_window
                steps Example.s_cached [Example.a] (mkSystem Example.s0 [])
                [Tick 10; Complete; Call workflows; Tick 20] [Complete; Tick 5])
    as [H1 H2].
  split.
  - apply H1; [reflexivity|]. vm_compute. discriminate.
  - apply H2.
    + split; reflexivity.
    + repeat constructor; try discriminate; cbn; lia.
    + repeat constructor; cbn; lia.
    + vm_compute. discriminate.
Defined.

(** C2, as stated, fails.  The first half holds: no load whose listing
    fails writes the mirror.  The second half does not: with GitHub down
    and a mirror that holds a good [a.json] next to a [b.json] that does
    not parse, the mirror holds an item ([spec_mirror_read] gives [a]),
    yet the load returns the bundled files, here none. *)
Lemma C2_counterexample :
  ¬ (∀ (T : collection) (s : State) (items : list Item),
       goes_to_source T s = true →
       source (config (loader s)) = "github" →
       listing_fails s (type_name T) →
       spec_mirror_read (world s) (type_name T) = Some items →
       (load T s).1 = Ok items).
Proof.
  intros H. specialize (H steps Corrupt.s [Example.a] eq_refl eq_refl).
  assert (Hl : listing_fails Corrupt.s (type_name steps))
    by (eexists _, _; vm_compute; reflexivity).
  specialize (H Hl). vm_compute in H. specialize (H eq_refl). discriminate H.
Qed.

(** C2, amended. The mirror is written only on a successful remote
    fetch.  For every call of [load T], in any state: when the source is
    not GitHub or the directory listing for [T] fails, the disk is left
    as it was and no [mkdir] or [writeFile] is issued.  When the load
    goes to GitHub and the listing fails, it returns what
    [loadFromCacheDir] returns if that is not [null], and otherwise what
    [loadFromLocal] returns.  So it returns exactly the items of the
    mirror when the mirror directory holds at least one [.json] file and
    all of them are readable and parse; and as soon as one [.json] file
    of the mirror cannot be read or does not parse, it returns the
    bundled files, whatever items the mirror holds besides. *)
Theorem C2_mirror_written_only_after_successful_listing
    (T : collection) (s : State) (files : gmap string text) (items : list Item) :
  let s' := (load T s).2 in
  let dir := mirror_dir (world s) (type_name T) in
  (source (config (loader s)) ≠ "github" ∨ listing_fails s (type_name T) →
   disk (world s') = disk (world s)
   ∧ ∃ evs, trace (world s') = (trace (world s) ++ evs)%list
            ∧ Forall (λ e, is_write e = false) evs)
  ∧ (goes_to_source T s = true →
     source (config (loader s)) = "github" →
     listing_fails s (type_name T) →
     (∀ cached, (loadFromCacheDir (type_name T) s).1 = Ok (Some cached) →
                (load T s).1 = Ok cached)
     ∧ ((loadFromCacheDir (type_name T) s).1 = Ok None →
        (load T s).1 = (loadFromLocal (type_name T) s).1)
     ∧ (disk (world s) !! dir = Some files →
        readable (world s) dir →
        holds_items files items →
        items ≠ [] →
        (load T s).1 = Ok items)
     ∧ (disk (world s) !! dir = Some files →
        (∃ name, name ∈ file_names files ∧ is_json name = true
                 ∧ (refused (world s) (OpReadFile dir name) = true
                    ∨ ∃ raw, files !! name = Some (Malformed raw))) →
        (load T s).1 = (loadFromLocal (type_name T) s).1)).
Proof.
  intros s' dir. subst s'. split.
  - intros Hfail. destruct (goes_to_source T s) eqn:Hg.
    + destruct (load_fetch T s Hg) as (its & d & evs & -> & Hs). cbn.
      unfold fetch_spec in Hs.
      destruct (String.eqb_spec (source (config (loader s))) "github") as [Hsrc|Hsrc].
      * destruct Hfail as [?|Hl%listing_fails_None]; [done|]. rewrite Hl in Hs.
        destruct Hs as (-> & (evs' & -> & Hq) & _). split; [done|].
        eexists; split; [done|]. constructor; [done|].
        eapply Forall_impl; [done|]. apply quiet_not_write.
      * destruct Hs as (-> & Hq & _). split; [done|].
        eexists; split; [done|]. eapply Forall_impl; [done|]. apply quiet_not_write.
    + destruct (load_served T s Hg) as (its & ->). cbn. split; [done|].
      exists []. by rewrite app_nil_r.
  - intros Hg Hsrc Hl%listing_fails_None.
    destruct (load_fallback_served T s Hg Hsrc Hl)
      as (its & evs & Hrun & _ & Hsome & Hnone).
    rewrite Hrun. cbn [fst]. split_and!.
    + intros cached Hc. f_equal. by apply Hsome.
    + exact Hnone.
    + intros Hd Hr Hh Hne. f_equal. apply Hsome.
      rewrite loadFromCacheDir_result. do 2 f_equal. by eapply mirror_read_holds.
    + intros Hd Hbad. apply Hnone.
      rewrite loadFromCacheDir_result. do 2 f_equal.
      apply mirror_read_None. right. right. exists files. split; [done|]. by right.
Qed.

(** C2 at work: GitHub is down.  When the mirror holds [a.json], the
    load returns [a] and writes nothing; when it holds [a.json] and a
    [b.json] that does not parse, the load returns what the bundled
    directory gives. *)
Lemma C2_witness :
  (disk (world (load steps Offline.s).2) = disk (world Offline.s)
   ∧ ∃ evs, trace (world (load steps Offline.s).2)
            = (trace (world Offline.s) ++ evs)%list
            ∧ Forall (λ e, is_write e = false) evs)
  ∧ (load steps Offline.s).1 = Ok [Example.a]
  ∧ (load steps Corrupt.s).1 = (loadFromLocal "steps" Corrupt.s).1.
Proof.
  pose proof (C2_mirror_written_only_after_successful_listing
                steps Offline.s {[ "a.json" := Json Example.a ]} [Example.a])
    as [H1 H2].
  pose proof (C2_mirror_written_only_after_successful_listing
                steps Corrupt.s
                {[ "a.json" := Json Example.a; "b.json" := Malformed "{ id: " ]} [])
    as [_ H3].
  split; [|split].
  - apply H1. right. eexists _, _. vm_compute. reflexivity.
  - destruct H2 as (_ & _ & H2 & _).
    + reflexivity.
    + reflexivity.
    + eexists _, _. vm_compute. reflexivity.
    + apply H2.
      * reflexivity.
      * split; [reflexivity|]. intros name. reflexivity.
      * unfold holds_items. by vm_compute; repeat constructor.
      * discriminate.
  - destruct H3 as (_ & _ & _ & H3).
    + reflexivity.
    + reflexivity.
    + eexists _, _. vm_compute. reflexivity.
    + apply H3; [reflexivity|]. exists "b.json". split_and!.
      * apply file_names_lookup. eexists. reflexivity.
      * reflexivity.
      * right. eexists. reflexivity.
Defined.

(** C3, as stated, fails: with steps never loaded and workflows cached
    long ago (stale), a load of steps makes [isCacheStale] answer [false]
    where it answered [true], so the staleness judgement of the
    workflows entry changes. *)
Lemma C3_counterexample :
  ¬ (∀ (T U : collection) (s : State),
       T ≠ U → goes_to_source T s = true →
       (isCacheStale (load T s).2).1 = (isCacheStale s).1).
Proof.
  intros H. specialize (H steps workflows Aged.s).
  assert (Hne : steps ≠ workflows) by discriminate.
  specialize (H Hne eq_refl). vm_compute in H. discriminate H.
Qed.

(** C3, amended. The module keeps one fetch timestamp, [lastFetchTime],
    shared by both collection types, and staleness is decided against it
    alone.  For distinct [T] and [U], a load of [T] that goes to its
    source leaves the cached sequence of [U] unchanged and sets the
    shared timestamp to the current time, so right after it the entry of
    [U] is judged stale exactly when the TTL is negative, whatever the
    age of that entry. *)
Theorem C3_one_timestamp_shared_by_both_collections
    (T U : collection) (s : State) :
  T ≠ U →
  goes_to_source T s = true →
  let s' := (load T s).2 in
  (isCacheStale s).1
    = Ok (cacheTTL (config (loader s)) <? now (world s) - lastFetchTime (loader s))%Z
  ∧ cache_of U (loader s') = cache_of U (loader s)
  ∧ lastFetchTime (loader s') = now (world s)
  ∧ (isCacheStale s').1 = Ok (cacheTTL (config (loader s)) <? 0)%Z.
Proof.
  intros Hne Hg s'. subst s'.
  destruct (load_fetch T s Hg) as (its & d & evs & -> & _). cbn.
  rewrite cache_of_set_cache_ne, lastFetchTime_set_cache by done. cbn.
  split_and!; try done.
  rewrite isCacheStale_run. unfold stale. cbn.
  rewrite config_set_cache, lastFetchTime_set_cache. cbn.
  by rewrite Z.sub_diag.
Qed.

(** C3 at work: the workflows, cached at time 0, are judged stale at time
    1000000, and fresh right after the steps were loaded. *)
Lemma C3_witness :
  (isCacheStale Aged.s).1 = Ok true
  ∧ cache_of workflows (loader (load steps Aged.s).2) = Some [Example.b]
  ∧ lastFetchTime (loader (load steps Aged.s).2) = 1000000%Z
  ∧ (isCacheStale (load steps Aged.s).2).1 = Ok false.
Proof.
  assert (Hne : steps ≠ workflows) by discriminate.
  exact (C3_one_timestamp_shared_by_both_collections steps workflows Aged.s Hne eq_refl).
Defined.

(** C4. A call of [load T] that arrives while [isFetching] is set (a load
    of either collection is waiting) performs no I/O and does not wait: it
    returns the cached sequence of [T] if there is one, else the empty
    sequence, and the set of waiting loads is as before.  The flag raised
    by a load is cleared when the load ends, whether its body returns or
    throws ([single_flight] for any body, the resumed end of
    [loadWithCache], and [load] as a whole).  So, along every run of
    calls, completions, clock ticks, [updateConfig], [refreshCache] and
    outside changes, at most one load waits, and the flag is set exactly
    while one does. *)
Theorem C4_single_flight
    (T : collection) (s : State) (A : Type) (body : M A) (type : string)
    (S : System) (acts : list action) :
  (isFetching (loader s) = true →
   load T s = (Ok (default [] (cache_of T (loader s))),
               mkState (set_cache T (Some (default [] (cache_of T (loader s)))) (loader s))
                       (world s)))
  ∧ (isFetching (loader (state S)) = true →
     waiting (call T S) = waiting S
     ∧ world (state (call T S)) = world (state S))
  ∧ isFetching (loader (single_flight body s).2) = false
  ∧ isFetching (loader (loadWithCache_resume type s).2) = false
  ∧ (isFetching (loader s) = false → isFetching (loader (load T s).2) = false)
  ∧ (single_flight_inv S → single_flight_inv (run acts S)).
Proof.
  split_and!.
  - apply load_busy.
  - intros Hf. by rewrite call_busy.
  - apply single_flight_clears.
  - apply resume_clears.
  - apply load_keeps_flag_down.
  - apply run_inv.
Qed.

(** C4 at work: while a load of the steps waits, [loadWorkflows] returns
    the cached workflows and [loadSteps] the empty sequence, without
    waiting; a body that throws leaves the flag cleared; and the
    invariant holds along a run. *)
Lemma C4_witness :
  load workflows Busy.s
    = (Ok [Example.b],
       mkState (set_cache workflows (Some [Example.b]) (loader Busy.s)) (world Busy.s))
  ∧ (waiting (call steps Busy.S) = [steps]
     ∧ world (state (call steps Busy.S)) = Example.w0)
  ∧ isFetching (loader (single_flight (throw (A:=unit) "boom") Example.s0).2) = false
  ∧ isFetching (loader (load steps Example.s0).2) = false
  ∧ single_flight_inv (run [Call workflows; Refresh; Complete; Call steps] Busy.S).
Proof.
  pose proof (C4_single_flight workflows Busy.s unit (throw "boom") "steps" Busy.S
                [Call workflows; Refresh; Complete; Call steps])
    as (H1 & _ & _ & _ & _ & H6).
  pose proof (C4_single_flight steps Example.s0 unit (throw "boom") "steps" Busy.S [])
    as (_ & H2 & H3 & _ & H5 & _).
  split_and!.
  - apply H1. reflexivity.
  - apply H2. reflexivity.
  - apply H2. reflexivity.
  - exact H3.
  - apply H5. reflexivity.
  - apply H6. split; [cbn; lia|]. split; [discriminate|reflexivity].
Defined.

(** C5, as stated, fails: when the write of [a.json] is refused, the
    batch [a; b] stops there, and [b.json], whose write nothing refuses,
    is neither attempted nor on the disk afterwards. *)
Lemma C5_counterexample :
  ¬ (∀ (type : string) (items : list Item) (s : State) (i : Item),
       i ∈ items →
       refused (world s) (OpMkdir (mirror_dir (world s) type)) = false →
       refused (world s) (OpWriteFile (mirror_dir (world s) type) (file_name i)) = false →
       write_event (mirror_dir (world s) type) i
         ∈ trace (world (saveToCacheDir type items s).2)).
Proof.
  intros H.
  specialize (H "steps" [Example.a; Example.b] ReadOnlyFile.s Example.b).
  assert (Hin : Example.b ∈ [Example.a; Example.b]) by (right; left).
  specialize (H Hin eq_refl eq_refl).
  vm_compute in H.
  apply list_elem_of_In in H. cbn in H.
  repeat (destruct H as [H|H]; [discriminate H|]). destruct H.
Qed.

(** C5, amended. [saveToCacheDir] never throws and leaves the module's
    variables alone.  When the directory cannot be made, nothing is
    written and the failure is logged.  When it can, the items are
    written one after the other up to the first write that fails: the
    items before it are on the disk, that item and all the items after it
    are not written, and the failure is logged once.  When no write
    fails, every item is written and nothing is logged. *)
Theorem C5_write_stops_at_first_failure
    (type : string) (s : State) (items pre post : list Item) (i : Item) :
  let w := world s in
  let typeDir := mirror_dir w type in
  let files := default ∅ (disk w !! typeDir) in
  ((saveToCacheDir type items s).1 = Ok tt
   ∧ loader (saveToCacheDir type items s).2 = loader s)
  ∧ (refused w (OpMkdir typeDir) = true →
     ∃ msg, saveToCacheDir type items s =
            (Ok tt, after s (disk w) [EvMkdir typeDir; EvLog msg]))
  ∧ (refused w (OpMkdir typeDir) = false →
     Forall (λ j, refused w (OpWriteFile typeDir (file_name j)) = false) pre →
     (refused w (OpWriteFile typeDir (file_name i)) = true →
      ∃ msg,
        saveToCacheDir type (pre ++ i :: post) s =
        (Ok tt, after s (<[typeDir := store files pre]> (disk w))
                  (EvMkdir typeDir :: (write_event typeDir <$> (pre ++ [i]))
                   ++ [EvLog msg])%list))
     ∧ saveToCacheDir type pre s =
       (Ok tt, after s (<[typeDir := store files pre]> (disk w))
                 (EvMkdir typeDir :: (write_event typeDir <$> pre)))).
Proof.
  intros w typeDir files. split.
  { by destruct (saveToCacheDir_run type items s) as (evs & -> & _). }
  split.
  { intros Hmk. destruct (saveToCacheDir_run type items s) as (evs & -> & Hev).
    unfold saved_disk, save_events in *. fold w typeDir in Hev |- *.
    rewrite Hmk in *. destruct Hev as [msg ->]. by exists msg. }
  intros Hmk Hpre. split.
  - intros Hi.
    destruct (saveToCacheDir_run type (pre ++ i :: post) s) as (evs & -> & Hev).
    unfold saved_disk, save_events in *. fold w typeDir in Hev |- *.
    rewrite Hmk in *.
    destruct (written_until (refused w) typeDir pre i post Hpre Hi) as [Hw Ha].
    rewrite Hw, Ha in *.
    destruct Hev as (logs & -> & _ & Hlog).
    destruct Hlog as [msg ->]; [apply app_cons_neq|].
    by exists msg.
  - destruct (saveToCacheDir_run type pre s) as (evs & -> & Hev).
    unfold saved_disk, save_events in *. fold w typeDir in Hev |- *.
    rewrite Hmk in *.
    destruct (written_all (refused w) typeDir pre Hpre) as [Hw Ha].
    rewrite Hw, Ha in *.
    destruct Hev as (logs & -> & Hlog & _).
    rewrite (Hlog eq_refl), app_nil_r. done.
Qed.

(** C5 at work: the write of [a.json] is refused; of the batch
    [b; a; a'], only [b.json] is written, and the failure is logged. *)
Lemma C5_witness :
  (∃ msg,
     saveToCacheDir "steps" ([Example.b] ++ Example.a :: [Example.a']) ReadOnlyFile.s =
     (Ok tt, after ReadOnlyFile.s
               (<["/app/.cache/steps" := store ∅ [Example.b]]> ∅)
               (EvMkdir "/app/.cache/steps"
                :: (write_event "/app/.cache/steps" <$> ([Example.b] ++ [Example.a]))
                ++ [EvLog msg])%list))
  ∧ saveToCacheDir "steps" [Example.b] ReadOnlyFile.s =
    (Ok tt, after ReadOnlyFile.s (<["/app/.cache/steps" := store ∅ [Example.b]]> ∅)
              (EvMkdir "/app/.cache/steps"
               :: (write_event "/app/.cache/steps" <$> [Example.b]))).
Proof.
  assert (Hpre : Forall (λ j, refused (world ReadOnlyFile.s)
                                (OpWriteFile (mirror_dir (world ReadOnlyFile.s) "steps")
                                             (file_name j)) = false) [Example.b])
    by (repeat constructor).
  pose proof (C5_write_stops_at_first_failure "steps" ReadOnlyFile.s []
                [Example.b] [Example.a'] Example.a) as (_ & _ & H).
  destruct (H eq_refl Hpre) as [H1 H2].
  split.
  - apply H1. reflexivity.
  - exact H2.
Defined.

(** C6, as stated, fails.  [spec_mirror_read] is the read the claim
    describes: absent when the directory does not exist or no [.json]
    file parses, otherwise every [.json] file that parses.  With a good
    [a.json] next to a malformed [b.json], the claim promises [a];
    [loadFromCacheDir] returns [null]. *)
Lemma C6_counterexample :
  ¬ (∀ (type : string) (s : State),
       (loadFromCacheDir type s).1 = Ok (spec_mirror_read (world s) type)).
Proof.
  intros H. specialize (H "steps" Corrupt.s). vm_compute in H. discriminate H.
Qed.

(** C6, amended. [loadFromCacheDir] never throws, writes nothing, and is
    all or nothing: it returns absent exactly when the directory does not
    exist, or cannot be listed, or has no [.json] file, or has a [.json]
    file that cannot be read or does not parse; otherwise it returns the
    items of all the [.json] files of the directory, every one of them
    parsed. *)
Theorem C6_mirror_read_is_all_or_nothing (type : string) (s : State) :
  let w := world s in
  let dir := mirror_dir w type in
  ∃ r evs,
    loadFromCacheDir type s = (Ok r, after s (disk w) evs)
    ∧ Forall (λ e, is_write e = false) evs
    ∧ (r = None ↔
       disk w !! dir = None
       ∨ refused w (OpReaddir dir) = true
       ∨ ∃ files, disk w !! dir = Some files
           ∧ (List.filter is_json (file_names files) = []
              ∨ ∃ name, name ∈ file_names files ∧ is_json name = true
                  ∧ (refused w (OpReadFile dir name) = true
                     ∨ ∃ raw, files !! name = Some (Malformed raw))))
    ∧ (∀ items, r = Some items →
       ∃ files, disk w !! dir = Some files
         ∧ Forall2 (λ name item, files !! name = Some (Json item))
                   (List.filter is_json (file_names files)) items).
Proof.
  intros w dir.
  destruct (loadFromCacheDir_run type s) as (evs & Hrun & Hq).
  exists (mirror_read w type), evs. split; [done|]. split.
  { eapply Forall_impl; [done|]. apply quiet_not_write. }
  split.
  - apply mirror_read_None.
  - intros items Hr. by apply mirror_read_Some in Hr as (files & ? & _ & ? & _); eauto.
Qed.

(** C6 at work: with a good [a.json] next to a malformed [b.json], the
    read is absent. *)
Lemma C6_witness : (loadFromCacheDir "steps" Corrupt.s).1 = Ok None.
Proof.
  destruct (C6_mirror_read_is_all_or_nothing "steps" Corrupt.s)
    as (r & evs & Hrun & _ & Hnone & _).
  rewrite Hrun. cbn [fst]. f_equal. apply Hnone.
  right. right.
  exists {[ "a.json" := Json Example.a; "b.json" := Malformed "{ id: " ]}.
  split; [reflexivity|]. right. exists "b.json". split_and!.
  - apply file_names_lookup. eexists. reflexivity.
  - reflexivity.
  - right. eexists. reflexivity.
Defined.




(** C8, as stated, fails: after a failed fetch of the steps that was
    served from the mirror, the workflows, which were never loaded, have
    no cache entry, and a load of them at that very instant sends a
    listing request to GitHub. *)
Lemma C8_counterexample :
  ¬ (∀ (T U : collection) (s : State),
       goes_to_source T s = true →
       source (config (loader s)) = "github" →
       listing_fails s (type_name T) →
       List.filter is_fetch (trace (world (load U (load T s).2).2))
       = List.filter is_fetch (trace (world (load T s).2))).
Proof.
  intros H. specialize (H steps workflows Offline.s eq_refl eq_refl).
  assert (Hl : listing_fails Offline.s (type_name steps))
    by (eexists _, _; vm_compute; reflexivity).
  specialize (H Hl). vm_compute in H. discriminate H.
Qed.

(** C8, amended. A load of [T] that goes to GitHub and whose listing
    fails sends the listing request and no other, writes nothing, and
    is served from the fallbacks: it returns what [loadFromCacheDir]
    returns if that is not [null], and otherwise what [loadFromLocal]
    returns.  It still sets [lastFetchTime] to the current time and
    caches what it served.  From then on, along every run in which the
    clock moves forward by at most the TTL in total (waiting loads may
    end, the other collection may be loaded, GitHub may come back, with
    neither [updateConfig] nor [refreshCache]), the entry of [T] is the
    sequence that was served, and a further load of a collection that
    has a cache entry, [T] in particular, returns the cached sequence
    and changes nothing: it sends no request.  A collection that has no
    cache entry is not covered by this: its load, when no fetch is in
    flight, goes to its source at once. *)
Theorem C8_failed_fetch_still_updates_timestamp
    (T : collection) (s : State) (acts : list action) :
  goes_to_source T s = true →
  source (config (loader s)) = "github" →
  listing_fails s (type_name T) →
  let s1 := (load T s).2 in
  lastFetchTime (loader s1) = now (world s)
  ∧ disk (world s1) = disk (world s)
  ∧ (∃ evs, trace (world s1)
            = (trace (world s)
               ++ EvFetch (listing_url (config (loader s)) (type_name T))
                          (authorization_of (config (loader s))) :: evs)%list
            ∧ Forall (λ e, is_fetch e = false ∧ is_write e = false) evs)
  ∧ ∃ items,
      (load T s).1 = Ok items
      ∧ cache_of T (loader s1) = Some items
      ∧ (∀ cached, (loadFromCacheDir (type_name T) s).1 = Ok (Some cached) →
                   items = cached)
      ∧ ((loadFromCacheDir (type_name T) s).1 = Ok None →
         Ok items = (loadFromLocal (type_name T) s).1)
      ∧ (Forall (passive T) acts →
         (elapsed acts ≤ cacheTTL (config (loader s)))%Z →
         let s2 := state (run acts (mkSystem s1 [])) in
         cache_of T (loader s2) = Some items
         ∧ load T s2 = (Ok items, s2)
         ∧ (∀ U c, cache_of U (loader s2) = Some c → load U s2 = (Ok c, s2))
         ∧ (∀ U, cache_of U (loader s2) = None →
                 isFetching (loader s2) = false →
                 ∃ its d evs evs',
                   load U s2 =
                   (Ok its,
                    mkState (set_cache U (Some its) (refetched (loader s2) (now (world s2))))
                            (world (after s2 d evs)))
                   ∧ evs = source_request s2 (type_name U) :: evs')).
Proof.
  intros Hg Hsrc Hl%listing_fails_None s1. subst s1.
  destruct (load_fallback_served T s Hg Hsrc Hl)
    as (items & evs & Heq & Hq & Hsome & Hnone).
  rewrite Heq. cbn [fst snd].
  set (s1 := mkState _ _).
  assert (Hlast : lastFetchTime (loader s1) = now (world s)).
  { unfold s1. cbn. by rewrite lastFetchTime_set_cache. }
  assert (Hcache : cache_of T (loader s1) = Some items).
  { unfold s1. cbn. by rewrite cache_of_set_cache. }
  split; [done|]. split; [done|]. split; [by exists evs|].
  exists items. split_and!; [done|done|done|done|].
  cbv zeta. intros Hp Hwin.
  assert (Hsf : single_flight_inv (mkSystem s1 [])).
  { split; [cbn; lia|]. unfold s1. cbn. by rewrite isFetching_set_cache. }
  assert (Hcfg : config (loader s1) = config (loader s)).
  { unfold s1. cbn. by rewrite config_set_cache. }
  assert (Hnow : lastFetchTime (loader s1) = now (world s1)) by by rewrite Hlast.
  assert (Hel : (elapsed acts ≤ cacheTTL (config (loader (state (mkSystem s1 [])))))%Z)
    by (cbn [state]; by rewrite Hcfg).
  destruct (fresh_entry_sticks T (mkSystem s1 []) items acts Hsf
              (not_elem_of_nil T) Hcache Hnow Hp Hel) as (Hc2 & Hload & _).
  assert (H1 : window_inv (config (loader s)) T (now (world s)) Done
                 (listing_calls (config (loader s)) (type_name T) (trace (world s1)))
                 (mkSystem s1 [])).
  { unfold window_inv. cbn [state waiting]. split_and!.
    - done.
    - unfold s1. cbn. lia.
    - lia.
    - done.
    - apply not_elem_of_nil.
    - by rewrite Hcache.
    - rewrite Hlast. lia. }
  apply (done_run _ _ _ _ acts _ Hp) in H1.
  destruct (window_done_fresh _ _ _ _ _ H1) as (c & Hc & Hfresh).
  { rewrite now_run. cbn [state]. unfold s1. cbn. lia. }
  split_and!; [done|done| |].
  - intros U c' Hc'. by apply load_fresh.
  - intros U Hnone' Hidle.
    assert (Hgo : goes_to_source U (state (run acts (mkSystem s1 []))) = true).
    { unfold goes_to_source. by rewrite Hidle, Hnone'. }
    destruct (load_fetch U _ Hgo) as (its & d & evs2 & Hrun & Hs).
    destruct (fetch_spec_first _ _ _ _ _ Hs) as [evs' He].
    by exists its, d, evs2, evs'.
Qed.

(** C8 at work: GitHub is down, the steps are served from the mirror at
    time 1000; 300 seconds later, GitHub back up and the workflows loaded
    in between, the steps are still served from the cache. *)
Lemma C8_witness :
  lastFetchTime (loader (load steps Offline.s).2) = 1000%Z
  ∧ (load steps Offline.s).1 = Ok [Example.a]
  ∧ load steps (state (run [Tick 100000; Outside Example.up Example.allowed;
                            Call workflows; Tick 200000; Complete]
                           (mkSystem (load steps Offline.s).2 [])))
    = (Ok [Example.a],
       state (run [Tick 100000; Outside Example.up Example.allowed;
                   Call workflows; Tick 200000; Complete]
                  (mkSystem (load steps Offline.s).2 []))).
Proof.
  pose proof (C8_failed_fetch_still_updates_timestamp steps Offline.s
                [Tick 100000; Outside Example.up Example.allowed;
                 Call workflows; Tick 200000; Complete]
                eq_refl eq_refl) as H.
  destruct H as (H1 & _ & _ & items & H2 & _ & H3 & _ & H4);
    [eexists _, _; vm_compute; reflexivity|].
  assert (Hitems : items = [Example.a]).
  { apply H3. vm_compute. reflexivity. }
  subst items. split; [exact H1|]. split; [exact H2|].
  destruct H4 as (_ & Hload & _).
  - repeat constructor; try discriminate; cbn; lia.
  - vm_compute. discriminate.
  - exact Hload.
Defined.

(** C9, as stated, fails: with a TTL of zero, a call of [load] at the
    very instant the last fetch ended ([Date.now()] equal to
    [lastFetchTime], in milliseconds) is served from the cache and sends
    nothing. *)
Lemma C9_counterexample :
  ¬ (∀ (T : collection) (s : State) (c : list Item),
       cacheTTL (config (loader s)) = 0%Z →
       cache_of T (loader s) = Some c →
       isFetching (loader s) = false →
       trace (world (load T s).2) ≠ trace (world s)).
Proof.
  intros H.
  apply (H steps SameInstant.s [Example.a] eq_refl eq_refl eq_refl).
  vm_compute. reflexivity.
Qed.

(** C9, amended. With a TTL of zero, a populated cache entry and no
    fetch in flight, [load T] refetches from the selected source exactly
    when the clock is strictly past [lastFetchTime]: it then sends the
    source its request and sets the timestamp.  A call at the very
    instant of the last fetch (or with the clock behind it) returns the
    cached sequence and changes nothing. *)
Theorem C9_ttl_zero_refetches_when_clock_has_moved
    (T : collection) (s : State) (c : list Item) :
  cacheTTL (config (loader s)) = 0%Z →
  cache_of T (loader s) = Some c →
  isFetching (loader s) = false →
  ((lastFetchTime (loader s) < now (world s))%Z →
   ∃ items d evs evs',
     load T s =
     (Ok items, mkState (set_cache T (Some items) (refetched (loader s) (now (world s))))
                        (world (after s d evs)))
     ∧ fetch_spec s (type_name T) items d evs
     ∧ evs = source_request s (type_name T) :: evs')
  ∧ ((now (world s) ≤ lastFetchTime (loader s))%Z → load T s = (Ok c, s)).
Proof.
  intros Httl Hc Hf. split.
  - intros Hlt.
    assert (Hg : goes_to_source T s = true).
    { unfold goes_to_source, stale. rewrite Hf, Hc, Httl. cbn. apply Z.ltb_lt. lia. }
    destruct (load_fetch T s Hg) as (items & d & evs & Hl & Hs).
    destruct (fetch_spec_first _ _ _ _ _ Hs) as [evs' He].
    by exists items, d, evs, evs'.
  - intros Hle. apply load_fresh; [done|]. apply stale_false. rewrite Httl. lia.
Qed.

(** C9 at work, TTL zero: one millisecond after the last fetch the load
    sends the listing request; at the same millisecond it returns the
    cached steps. *)
Lemma C9_witness :
  (∃ items d evs evs',
     load steps SameInstant.later =
     (Ok items, mkState (set_cache steps (Some items)
                           (refetched (loader SameInstant.later) 1001))
                        (world (after SameInstant.later d evs)))
     ∧ fetch_spec SameInstant.later "steps" items d evs
     ∧ evs = EvFetch (Example.url "steps") None :: evs')
  ∧ load steps SameInstant.s = (Ok [Example.a], SameInstant.s).
Proof.
  split.
  - apply (C9_ttl_zero_refetches_when_clock_has_moved steps SameInstant.later
             [Example.a] eq_refl eq_refl eq_refl).
    reflexivity.
  - apply (C9_ttl_zero_refetches_when_clock_has_moved steps SameInstant.s
             [Example.a] eq_refl eq_refl eq_refl).
    vm_compute. discriminate.
Defined.



(** * Further properties of the module *)

(** X1. [load] never throws: in every state and whatever the disk and
    GitHub do, it returns a sequence, and the cache variable of [T]
    holds that sequence afterwards.  It never changes the configuration
    or the entry of the other collection, and leaves the clock, GitHub
    and the permissions of the disk alone. *)
Theorem X1_load_never_throws (T : collection) (s : State) :
  ∃ items,
    (load T s).1 = Ok items
    ∧ cache_of T (loader (load T s).2) = Some items
    ∧ config (loader (load T s).2) = config (loader s)
    ∧ (∀ U, U ≠ T → cache_of U (loader (load T s).2) = cache_of U (loader s))
    ∧ now (world (load T s).2) = now (world s)
    ∧ github (world (load T s).2) = github (world s)
    ∧ refused (world (load T s).2) = refused (world s).
Proof.
  destruct (load_total T s) as (items & l & w & -> & Hc & Hu & _ & Hr & Hg & Hn).
  exists items. cbn. rewrite cache_of_set_cache, config_set_cache.
  split_and!; try done.
  intros U HU. rewrite cache_of_set_cache_ne by done. by apply Hu.
Qed.

(** X1 at work, on a load that falls back twice. *)
Lemma X1_witness :
  ∃ items,
    (load steps Bundled.offline).1 = Ok items
    ∧ cache_of steps (loader (load steps Bundled.offline).2) = Some items
    ∧ cache_of workflows (loader (load steps Bundled.offline).2) = None.
Proof.
  destruct (X1_load_never_throws steps Bundled.offline)
    as (items & H1 & H2 & _ & H4 & _).
  exists items. split_and!; [exact H1|exact H2|].
  apply (H4 workflows). discriminate.
Defined.

(** X2. [loadFromLocal] never throws, sends nothing to GitHub and writes
    nothing.  It returns the empty sequence when the bundled directory is
    missing or cannot be listed; otherwise it returns, in directory
    order, the item of every [.json] file that can be read and parses:
    a file that cannot be read or does not parse is skipped and the
    others are still returned. *)
Theorem X2_bundled_read_skips_bad_files (type : string) (s : State) :
  let w := world s in
  let dir := bundled_dir w type in
  ∃ items evs,
    loadFromLocal type s = (Ok items, after s (disk w) evs)
    ∧ Forall (λ e, is_fetch e = false ∧ is_write e = false) evs
    ∧ (disk w !! dir = None ∨ refused w (OpReaddir dir) = true → items = [])
    ∧ (∀ files, disk w !! dir = Some files → refused w (OpReaddir dir) = false →
         items = omap (λ name, if refused w (OpReadFile dir name) then None
                               else files !! name ≫= JSON_parse)
                      (List.filter is_json (file_names files))).
Proof.
  intros w dir. destruct (loadFromLocal_exact type s) as (evs & Hrun & Hq).
  exists (bundled_read w type), evs. split; [done|]. split; [done|].
  unfold bundled_read. fold dir. split.
  - intros [->|Hr]; [done|]. destruct (disk w !! dir); [|done]. by rewrite Hr.
  - intros files -> ->. reflexivity.
Qed.

(** X2 at work: of [a.json], a malformed [b.json] and [notes.txt], the
    bundled read returns [a]. *)
Lemma X2_witness : (loadFromLocal "steps" Bundled.s).1 = Ok [Example.a].
Proof.
  destruct (X2_bundled_read_skips_bad_files "steps" Bundled.s)
    as (items & evs & Hrun & _ & _ & Hitems).
  rewrite Hrun. cbn [fst]. f_equal.
  rewrite (Hitems Bundled.files eq_refl eq_refl). vm_compute. reflexivity.
Defined.

(** X3. When the source is not GitHub, a load that goes to its source
    sends no request and writes nothing: the disk is as before, and the
    load returns what [loadFromLocal] returns for the bundled directory
    and sets the fetch timestamp. *)
Theorem X3_local_mode_never_goes_remote (T : collection) (s : State) :
  goes_to_source T s = true →
  source (config (loader s)) ≠ "github" →
  (load T s).1 = (loadFromLocal (type_name T) s).1
  ∧ lastFetchTime (loader (load T s).2) = now (world s)
  ∧ disk (world (load T s).2) = disk (world s)
  ∧ ∃ evs, trace (world (load T s).2) = (trace (world s) ++ evs)%list
           ∧ Forall (λ e, is_fetch e = false ∧ is_write e = false) evs.
Proof.
  intros Hg Hsrc. destruct (load_local T s Hg Hsrc) as (evs & -> & Hq).
  rewrite loadFromLocal_result. cbn. rewrite lastFetchTime_set_cache.
  split_and!; try done. by exists evs.
Qed.

Lemma X3_witness :
  (load steps Bundled.s).1 = (loadFromLocal "steps" Bundled.s).1
  ∧ lastFetchTime (loader (load steps Bundled.s).2) = 1000%Z
  ∧ disk (world (load steps Bundled.s).2) = disk (world Bundled.s)
  ∧ ∃ evs, trace (world (load steps Bundled.s).2) = ([] ++ evs)%list
           ∧ Forall (λ e, is_fetch e = false ∧ is_write e = false) evs.
Proof.
  apply (X3_local_mode_never_goes_remote steps Bundled.s); [reflexivity|discriminate].
Defined.

(** X4. When a load goes to GitHub, the listing fails and the mirror read
    is absent, the load returns what [loadFromLocal] returns for the
    bundled directory; it writes nothing and the only request it sent is
    the listing request. *)
Theorem X4_falls_back_to_bundled (T : collection) (s : State) :
  goes_to_source T s = true →
  source (config (loader s)) = "github" →
  listing_fails s (type_name T) →
  (loadFromCacheDir (type_name T) s).1 = Ok None →
  (load T s).1 = (loadFromLocal (type_name T) s).1
  ∧ disk (world (load T s).2) = disk (world s)
  ∧ ∃ evs, trace (world (load T s).2)
           = (trace (world s)
              ++ EvFetch (listing_url (config (loader s)) (type_name T))
                         (authorization_of (config (loader s))) :: evs)%list
           ∧ Forall (λ e, is_fetch e = false ∧ is_write e = false) evs.
Proof.
  intros Hg Hsrc Hl%listing_fails_None Hm.
  rewrite loadFromCacheDir_result in Hm. injection Hm as Hm.
  destruct (load_fallback T s Hg Hsrc Hl) as (evs & -> & Hq).
  rewrite loadFromLocal_result, Hm. cbn. split_and!; try done. by exists evs.
Qed.

Lemma X4_witness :
  (load steps Bundled.offline).1 = (loadFromLocal "steps" Bundled.offline).1
  ∧ disk (world (load steps Bundled.offline).2) = disk (world Bundled.offline)
  ∧ ∃ evs, trace (world (load steps Bundled.offline).2)
           = ([] ++ EvFetch (Example.url "steps") None :: evs)%list
           ∧ Forall (λ e, is_fetch e = false ∧ is_write e = false) evs.
Proof.
  apply (X4_falls_back_to_bundled steps Bundled.offline).
  - reflexivity.
  - reflexivity.
  - eexists _, _. vm_compute. reflexivity.
  - vm_compute. reflexivity.
Defined.

(** X5. A load that goes to GitHub and obtains the listing sends the
    listing request and then one request for each entry of the listing
    that is a file whose name ends in [.json], in the order of the
    listing, and no other request; all of them carry the authorization
    of the configuration.  It reads nothing from the local disk.  It
    returns the items of the requests that succeed and parse, in the
    order of the listing; the other entries are skipped. *)
Theorem X5_remote_load_requests (T : collection) (s : State) (entries : list dirent) :
  goes_to_source T s = true →
  source (config (loader s)) = "github" →
  listing_gives s (type_name T) entries →
  let cfg := config (loader s) in
  let type := type_name T in
  ∃ evs,
    trace (world (load T s).2) = (trace (world s) ++ evs)%list
    ∧ List.filter is_fetch evs
      = EvFetch (listing_url cfg type) (authorization_of cfg)
        :: (file_request cfg type <$> List.filter is_json_file entries)
    ∧ Forall (λ e, is_read e = false) evs
    ∧ (load T s).1
      = Ok (omap (λ file, remote_item s type (d_name file))
                 (List.filter is_json_file entries))
    ∧ (length (List.filter is_fetch evs) = 1 + length (List.filter is_json_file entries))%nat.
Proof.
  intros Hg Hsrc Hl%listing_gives_Some cfg type.
  destruct (load_remote T s entries Hg Hsrc Hl) as (evs & -> & Hreq & Hrd).
  exists evs. cbn [fst snd]. split_and!; try done.
  - f_equal. unfold remote_items. clear. induction entries as [|file rest IH]; [done|].
    cbn [omap list_omap List.filter]. destruct (is_json_file file); [|done].
    cbn [omap list_omap]. by rewrite IH.
  - rewrite Hreq. cbn [length]. by rewrite length_fmap.
Qed.

(** X5 at work: of the listing [a.json], [README.md], [b.json], the two
    [.json] files are requested, in this order. *)
Lemma X5_witness :
  ∃ evs,
    trace (world (load steps Example.s0).2) = ([] ++ evs)%list
    ∧ List.filter is_fetch evs
      = [EvFetch (Example.url "steps") None; EvFetch (Example.url "steps/a.json") None;
         EvFetch (Example.url "steps/b.json") None]
    ∧ (load steps Example.s0).1 = Ok [Example.a; Example.b].
Proof.
  destruct (X5_remote_load_requests steps Example.s0
              [mkDirent "a.json" "file"; mkDirent "README.md" "file";
               mkDirent "b.json" "file"])
    as (evs & Htr & Hreq & _ & Hres & _).
  - reflexivity.
  - reflexivity.
  - eexists. vm_compute. reflexivity.
  - exists evs. split_and!; [exact Htr| |].
    + rewrite Hreq. vm_compute. reflexivity.
    + rewrite Hres. vm_compute. reflexivity.
Defined.

(** X6. A load of items whose ids make plain file names writes in no
    directory but the mirror directory of its own collection.  The
    bundled directories and the mirror directory of the other collection
    are as before, and so is what [loadFromLocal] and, for the other
    collection, [loadFromCacheDir] find there.  (An id with a path
    separator is outside the statement: [path.join] resolves it, and the
    file may land in another directory.) *)
Theorem X6_load_writes_only_its_mirror (T : collection) (s : State) :
  (∀ entries, listing_gives s (type_name T) entries →
     Forall (λ i, plain_id (item_id i) = true)
            (remote_items s (type_name T) entries)) →
  let w := world s in
  let w' := world (load T s).2 in
  (∀ U, disk w' !! bundled_dir w (type_name U) = disk w !! bundled_dir w (type_name U))
  ∧ (∀ U, U ≠ T →
          disk w' !! mirror_dir w (type_name U) = disk w !! mirror_dir w (type_name U))
  ∧ (∀ U, (loadFromLocal (type_name U) (load T s).2).1
          = (loadFromLocal (type_name U) s).1)
  ∧ (∀ U, U ≠ T → (loadFromCacheDir (type_name U) (load T s).2).1
                  = (loadFromCacheDir (type_name U) s).1).
Proof.
  intros _ w w'.
  assert (Hd : ∀ dir, dir ≠ mirror_dir w (type_name T) →
                      disk w' !! dir = disk w !! dir).
  { intros dir Hne. by apply load_disk_other. }
  destruct (load_total T s) as (items & l & w1 & Hrun & _ & _ & Hdn & Hr & _ & _).
  assert (Hw : w' = w1) by (unfold w'; by rewrite Hrun). clear Hrun.
  subst w1. split_and!.
  - intros U. apply Hd, bundled_not_mirror.
  - intros U HU. by apply Hd, mirror_other.
  - intros U. rewrite !loadFromLocal_result. f_equal.
    apply bundled_read_ext; [done|done|]. apply Hd, bundled_not_mirror.
  - intros U HU. rewrite !loadFromCacheDir_result. f_equal.
    apply mirror_read_ext; [done|done|]. by apply Hd, mirror_other.
Qed.

(** X6 at work: a remote load of the steps [a] and [b] leaves the
    bundled steps and the (absent) mirror of the workflows alone. *)
Lemma X6_witness :
  disk (world (load steps Example.s0).2) !! "/app/steps" = None
  ∧ (loadFromCacheDir "workflows" (load steps Example.s0).2).1
    = (loadFromCacheDir "workflows" Example.s0).1.
Proof.
  destruct (X6_load_writes_only_its_mirror steps Example.s0) as (Hb & _ & _ & Hm).
  - intros entries Hl%listing_gives_Some. vm_compute in Hl. injection Hl as <-.
    vm_compute. by repeat constructor.
  - split.
    + exact (Hb steps).
    + apply (Hm workflows). discriminate.
Defined.

(** X7. The mirror and the bundled files are consulted only when the
    listing fails.  When the listing succeeds and none of its [.json]
    files can be fetched and parsed, the load returns the empty
    sequence and caches it, whatever the mirror holds, and an existing
    mirror directory is left as it was. *)
Theorem X7_no_fallback_once_listed (T : collection) (s : State) (entries : list dirent) :
  goes_to_source T s = true →
  source (config (loader s)) = "github" →
  listing_gives s (type_name T) entries →
  (∀ file, file ∈ entries → is_json_file file = true →
           remote_item s (type_name T) (d_name file) = None) →
  (load T s).1 = Ok []
  ∧ cache_of T (loader (load T s).2) = Some []
  ∧ lastFetchTime (loader (load T s).2) = now (world s)
  ∧ (is_Some (disk (world s) !! mirror_dir (world s) (type_name T)) →
     disk (world (load T s).2) = disk (world s)).
Proof.
  intros Hg Hsrc Hl%listing_gives_Some Hnone.
  destruct (load_remote T s entries Hg Hsrc Hl) as (evs & -> & _).
  rewrite (remote_items_none _ _ _ Hnone). cbn [fst snd loader world].
  rewrite cache_of_set_cache, lastFetchTime_set_cache. split_and!; try done.
  intros [files Hf]. cbn. by eapply saved_disk_nothing.
Qed.

(** X7 at work: the mirror holds [a.json], GitHub lists [a.json] and
    answers 404 to the request for it: the load returns nothing. *)
Lemma X7_witness :
  (loadFromCacheDir "steps" ListingOnly.s).1 = Ok (Some [Example.a])
  ∧ (load steps ListingOnly.s).1 = Ok []
  ∧ disk (world (load steps ListingOnly.s).2) = disk (world ListingOnly.s).
Proof.
  split; [vm_compute; reflexivity|].
  destruct (X7_no_fallback_once_listed steps ListingOnly.s [mkDirent "a.json" "file"])
    as (Hres & _ & _ & Hd).
  - reflexivity.
  - reflexivity.
  - eexists. vm_compute. reflexivity.
  - intros file ->%list_elem_of_singleton _. vm_compute. reflexivity.
  - split; [exact Hres|]. apply Hd. eexists. vm_compute. reflexivity.
Defined.

(** X8. [saveToCacheDir] never throws, sends no request and reads
    nothing.  For items whose ids make plain file names, it changes
    neither the bundled directories nor the mirror directory of the
    other collection, and in its own mirror directory it never deletes a
    file: every file that was there is still there, and a file that is
    not named after the id of one of the items is unchanged.  So an item
    that GitHub no longer lists stays in the mirror.  (An id with a path
    separator is outside the statement: [path.join] resolves it, and the
    write may land on another file.) *)
Theorem X8_save_never_deletes (T : collection) (items : list Item) (s : State) :
  Forall (λ i, plain_id (item_id i) = true) items →
  let w := world s in
  let dir := mirror_dir w (type_name T) in
  ∃ d' evs,
    saveToCacheDir (type_name T) items s = (Ok tt, after s d' evs)
    ∧ Forall (λ e, is_fetch e = false ∧ is_read e = false) evs
    ∧ (∀ U, d' !! bundled_dir w (type_name U) = disk w !! bundled_dir w (type_name U))
    ∧ (∀ U, U ≠ T →
            d' !! mirror_dir w (type_name U) = disk w !! mirror_dir w (type_name U))
    ∧ (∀ files, disk w !! dir = Some files →
         ∃ files', d' !! dir = Some files'
           ∧ (∀ name, is_Some (files !! name) → is_Some (files' !! name))
           ∧ (∀ name, (∀ i, i ∈ items → file_name i ≠ name) →
                      files' !! name = files !! name)).
Proof.
  intros _ w dir.
  destruct (saveToCacheDir_run (type_name T) items s) as (evs & Hrun & Hev).
  exists (saved_disk w (type_name T) items), evs. split; [done|]. split_and!.
  - apply Forall_and. split; [by eapply save_events_quiet|by eapply save_events_not_read].
  - intros U. apply saved_disk_other, bundled_not_mirror.
  - intros U HU. by apply saved_disk_other, mirror_other.
  - intros files Hf. unfold saved_disk. fold w dir.
    destruct (refused w (OpMkdir dir)); [by exists files|].
    rewrite lookup_insert_eq, Hf. cbn [default]. eexists. split; [reflexivity|]. split.
    + intros name. apply store_keeps.
    + intros name Hn. apply store_lookup_other, Forall_forall.
      intros i Hi%written_elem_of. by apply Hn.
Qed.

(** X8 at work: saving [a] leaves the [b.json] of an earlier fetch. *)
Lemma X8_witness :
  ∃ d' evs,
    saveToCacheDir "steps" [Example.a] Leftover.s = (Ok tt, after Leftover.s d' evs)
    ∧ d' !! "/app/.cache/steps" ≫= (λ files : gmap string text, files !! "b.json")
      = Some (Json Example.b).
Proof.
  destruct (X8_save_never_deletes steps [Example.a] Leftover.s)
    as (d' & evs & Hrun & _ & _ & _ & Hf).
  - by repeat constructor.
  - destruct (Hf {[ "b.json" := Json Example.b ]} eq_refl) as (files' & Hd' & _ & Hsame).
    exists d', evs. split; [exact Hrun|].
    change (mirror_dir (world Leftover.s) (type_name steps))
      with "/app/.cache/steps" in Hd'.
    rewrite Hd'. cbn [mbind option_bind]. rewrite Hsame; [reflexivity|].
    intros i ->%list_elem_of_singleton. discriminate.
Defined.

(** X9. Saving is idempotent: saving the same items a second time leaves
    the disk as the first save left it, whatever the disk refuses and
    whether or not ids repeat among the items. *)
Theorem X9_save_is_idempotent (type : string) (items : list Item) (s : State) :
  ((saveToCacheDir type items;; saveToCacheDir type items) s).1 = Ok tt
  ∧ disk (world ((saveToCacheDir type items;; saveToCacheDir type items) s).2)
    = disk (world (saveToCacheDir type items s).2).
Proof.
  rewrite bind_run.
  destruct (saveToCacheDir_run type items s) as (evs & -> & _).
  match goal with |- context [saveToCacheDir type items ?s'] =>
    destruct (saveToCacheDir_run type items s') as (evs' & -> & _) end.
  split; [done|]. cbn [snd]. rewrite !disk_after. by apply saved_disk_twice.
Qed.

(** X10. Round trip through the mirror.  When the disk refuses nothing,
    the mirror directory holds only what the module leaves there, and
    the items are not empty and have distinct ids that make plain file
    names, [loadFromCacheDir] after [saveToCacheDir] returns a sequence
    with distinct ids made of the saved items and of the items of
    earlier saves whose id is not among them.  When the mirror directory
    was missing or empty, it returns the saved items, up to their order.
    (With a path separator in an id the write fails or lands elsewhere,
    and the item is not read back.) *)
Theorem X10_mirror_round_trip (T : collection) (items : list Item) (s : State) :
  let type := type_name T in
  let dir := mirror_dir (world s) type in
  let old := default ∅ (disk (world s) !! dir) in
  Forall (λ i, plain_id (item_id i) = true) items →
  (∀ op, refused (world s) op = false) →
  mirror_wf old →
  NoDup (item_id <$> items) →
  items ≠ [] →
  ∃ back,
    ((saveToCacheDir type items;; loadFromCacheDir type) s).1 = Ok (Some back)
    ∧ NoDup (item_id <$> back)
    ∧ (∀ i, i ∈ back ↔
            i ∈ items
            ∨ (old !! file_name i = Some (Json i)
               ∧ ∀ j, j ∈ items → item_id j ≠ item_id i))
    ∧ (old = ∅ → back ≡ₚ items).
Proof.
  intros type dir old _ Hno Hwf Hnd Hne. rewrite bind_run.
  destruct (saveToCacheDir_run type items s) as (evs & -> & _).
  rewrite loadFromCacheDir_result. cbn [fst].
  destruct (mirror_read_saved (world s)
              (world (after s (saved_disk (world s) type items) evs)) type items)
    as (back & -> & Hndb & Hall); try done.
  fold dir old in Hall. set (files := store old items) in *.
  assert (Hmem : ∀ i, i ∈ back ↔
            i ∈ items
            ∨ (old !! file_name i = Some (Json i)
               ∧ ∀ j, j ∈ items → item_id j ≠ item_id i)).
  { intros i. split.
    - intros (name & Hin & Hf)%(holds_elem_of_inv _ _ _ _ Hall).
      unfold files in Hf. rewrite store_lookup in Hf.
      destruct (last_named name items) as [j|] eqn:Hl.
      + injection Hf as ->. left. by apply last_named_Some in Hl as [? _].
      + right. apply elem_of_json_names in Hin as [_ Hj].
        destruct (Hwf name _ Hf Hj) as (i' & Hi' & ->). injection Hi' as <-.
        split; [done|]. intros j Hj' Hid. rewrite last_named_None in Hl.
        apply (Hl j Hj'). unfold file_name. by rewrite Hid.
    - intros H.
      assert (Hf : files !! file_name i = Some (Json i)).
      { unfold files. rewrite store_lookup.
        destruct (last_named (file_name i) items) as [j|] eqn:Hl.
        - apply last_named_Some in Hl as [Hj Hn]. destruct H as [Hi|[_ Hfresh]].
          + by rewrite (NoDup_ids_eq items j i Hnd Hj Hi (file_name_inj _ _ Hn)).
          + destruct (Hfresh j Hj). by apply file_name_inj.
        - rewrite last_named_None in Hl. destruct H as [Hi|[Hold _]]; [|done].
          by destruct (Hl i Hi). }
      apply (holds_elem_of _ _ _ _ Hall); [|done].
      apply elem_of_json_names. split; [|apply is_json_file_name].
      apply file_names_lookup. by rewrite Hf. }
  exists back. split_and!; try done.
  intros Hempty. apply NoDup_Permutation.
  - by eapply NoDup_fmap_1.
  - by eapply NoDup_fmap_1.
  - intros i. rewrite Hmem. split; [|by left].
    intros [Hi|[Hold _]]; [done|]. by rewrite Hempty, lookup_empty in Hold.
Qed.

(** X10 at work: with [b.json] left by an earlier fetch, saving [a] and
    reading the mirror gives [a] and [b]. *)
Lemma X10_witness :
  ∃ back,
    ((saveToCacheDir "steps" [Example.a];; loadFromCacheDir "steps") Leftover.s).1
    = Ok (Some back)
    ∧ Example.a ∈ back ∧ Example.b ∈ back.
Proof.
  destruct (X10_mirror_round_trip steps [Example.a] Leftover.s)
    as (back & Hrun & _ & Hmem & _).
  - by repeat constructor.
  - reflexivity.
  - intros name t Hf Hj. exists Example.b.
    change (default ∅ (disk (world Leftover.s)
                          !! mirror_dir (world Leftover.s) (type_name steps)))
      with ({[ "b.json" := Json Example.b ]} : gmap string text) in Hf.
    apply lookup_singleton_Some in Hf as [<- <-]. split; reflexivity.
  - apply NoDup_singleton.
  - discriminate.
  - exists back. split; [exact Hrun|]. split; apply Hmem.
    + left. by left.
    + right. split; [reflexivity|].
      intros j ->%list_elem_of_singleton. discriminate.
Defined.

(** X11. [getStepById] and [getWorkflowById] load the collection as
    [loadSteps] and [loadWorkflows] do, with the same effects, and then
    search the loaded sequence.  When every loaded item is an object
    whose [id] is a string, they return the first item that has the id,
    or nothing when no item has it.  When a loaded item is [null] and no
    item before it has the id, they throw.  While a fetch is in flight
    and the collection has no cache entry, every lookup finds
    nothing. *)
Theorem X11_lookup_by_id
    (id_of : Item → id_value) (T : collection) (id : string) (s : State) :
  ∃ items,
    (load T s).1 = Ok items
    ∧ (getById id_of T id s).2 = (load T s).2
    ∧ (Forall (λ i, id_of i = IdString (item_id i)) items →
       ∃ r, (getById id_of T id s).1 = Ok r
         ∧ match r with
           | Some i => ∃ pre post, items = (pre ++ i :: post)%list ∧ item_id i = id
                                   ∧ Forall (λ j, item_id j ≠ id) pre
           | None => Forall (λ j, item_id j ≠ id) items
           end)
    ∧ (∀ pre i post,
         items = (pre ++ i :: post)%list →
         id_of i = IdOfNull →
         Forall (λ j, id_of j ≠ IdOfNull ∧ id_of j ≠ IdString id) pre →
         ∃ msg, (getById id_of T id s).1 = Throw msg)
    ∧ (isFetching (loader s) = true → cache_of T (loader s) = None →
       (getById id_of T id s).1 = Ok None).
Proof.
  destruct (load_total T s) as (items & l & w & Hrun & _).
  exists items. rewrite getById_run. split; [by rewrite Hrun|].
  rewrite Hrun. cbn [fst snd]. split_and!.
  - apply find_by_id_state.
  - apply find_by_id_strings.
  - intros pre i post -> Hi Hpre. by apply find_by_id_null.
  - intros Hf Hc. rewrite load_busy, Hc in Hrun by done. cbn in Hrun.
    by injection Hrun as <- _.
Qed.

(** X11 at work: the step [a] is cached and found; GitHub serves a step
    [a], but while another fetch is in flight the lookup of [a] finds
    nothing; and a cached [null] makes the lookup throw. *)
Lemma X11_witness :
  (getById string_ids steps "a" Example.s_cached).1 = Ok (Some Example.a)
  ∧ (getById string_ids steps "a" Starting.s).1 = Ok None
  ∧ ∃ msg, (getById (λ _, IdOfNull) steps "a" Example.s_cached).1 = Throw msg.
Proof.
  split_and!.
  - destruct (X11_lookup_by_id string_ids steps "a" Example.s_cached)
      as (items & Hl & _ & Hfind & _).
    vm_compute in Hl. injection Hl as <-.
    destruct Hfind as (r & Hr & Hspec); [by repeat constructor|].
    rewrite Hr. f_equal. destruct r as [i|].
    + destruct Hspec as (pre & post & Heq & Hid & Hpre).
      destruct pre as [|k pre].
      * by injection Heq as <- _.
      * injection Heq as <- Heq. apply Forall_cons in Hpre as [Hk _]. by destruct Hk.
    + apply Forall_cons in Hspec as [Ha _]. by destruct Ha.
  - destruct (X11_lookup_by_id string_ids steps "a" Starting.s)
      as (items & _ & _ & _ & _ & Hbusy).
    apply Hbusy; reflexivity.
  - destruct (X11_lookup_by_id (λ _, IdOfNull) steps "a" Example.s_cached)
      as (items & Hl & _ & _ & Hnull & _).
    vm_compute in Hl. injection Hl as <-.
    apply (Hnull [] Example.a []); [reflexivity|reflexivity|constructor].
Defined.

(** X12. An empty answer outlives the fetch that caused it.  When
    [load U] is called while a load of the other collection [T] is in
    flight and [U] has no cache entry, the empty sequence is stored as
    the entry of [U].  Once the load of [T] has ended, that entry counts
    as fresh: along every run that lasts at most the TTL (the clock moves
    forward, other loads of [T] start and end, with neither
    [updateConfig] nor [refreshCache]), [load U] returns the empty
    sequence and changes nothing, and no listing of [U] is requested. *)
Theorem X12_empty_answer_outlives_the_fetch
    (T U : collection) (S : System) (acts : list action) :
  U ≠ T →
  waiting S = [T] →
  isFetching (loader (state S)) = true →
  cache_of U (loader (state S)) = None →
  Forall (passive U) acts →
  (elapsed acts ≤ cacheTTL (config (loader (state S))))%Z →
  let cfg := config (loader (state S)) in
  let S1 := run (Call U :: Complete :: acts) S in
  cache_of U (loader (state S1)) = Some []
  ∧ load U (state S1) = (Ok [], state S1)
  ∧ (listing_calls cfg (type_name U) (trace (world (state S1)))
     ≤ listing_calls cfg (type_name U) (trace (world (state S))))%nat.
Proof.
  intros Hne Hw Hf Hc Hp Hel cfg S1. unfold S1. cbn [run step].
  rewrite (call_busy U S Hf), Hc. cbn [default].
  set (Sa := mkSystem _ _).
  assert (HT : T ≠ U) by done.
  destruct (complete_window cfg U (now (world (state S)))
              (listing_calls cfg (type_name U) (trace (world (state S)))) Sa T HT)
    as (Hcfg & _ & Hn & Hw' & Hf' & Hc' & Hlast).
  { exact Hw. }
  { unfold Sa. cbn. by rewrite config_set_cache. }
  { unfold Sa. cbn. lia. }
  { unfold Sa. cbn. lia. }
  assert (Hnow : now (world (state (complete Sa))) = now (world (state S)))
    by by rewrite now_complete.
  destruct (fresh_entry_sticks U (complete Sa) [] acts) as (H1 & H2 & H3).
  - split; [rewrite Hw'; cbn; lia|]. rewrite Hw', Hf'. done.
  - rewrite Hw'. apply not_elem_of_nil.
  - rewrite Hc'. unfold Sa. cbn. by rewrite cache_of_set_cache.
  - by rewrite Hlast, Hnow.
  - done.
  - by rewrite Hcfg.
  - rewrite Hcfg in H3. split_and!; [done|done|]. etrans; [exact H3|exact Hn].
Qed.

(** X12 at work: the workflows are asked for while the first load of the
    steps is in flight; 200 seconds after that load ended, and after
    another call, [loadWorkflows] still answers with nothing. *)
Lemma X12_witness :
  load workflows
    (state (run [Call workflows; Complete; Tick 200000; Call steps] Starting.S))
  = (Ok [], state (run [Call workflows; Complete; Tick 200000; Call steps] Starting.S)).
Proof.
  destruct (X12_empty_answer_outlives_the_fetch steps workflows Starting.S
              [Tick 200000; Call steps]) as (_ & H & _).
  - discriminate.
  - reflexivity.
  - reflexivity.
  - reflexivity.
  - repeat constructor; cbn; (lia || discriminate).
  - vm_compute. discriminate.
  - exact H.
Defined.

(** X13. [refreshCache] never reloads the workflows.  It clears both
    entries and the timestamp and calls [loadSteps] and then
    [loadWorkflows].  When no fetch was in flight, the load of the steps
    starts and is the only one that waits; when one was, no load starts,
    nothing is sent or read, and the steps too get the empty sequence.
    In both cases the call of [loadWorkflows] finds the flag raised: the
    entry of the workflows is the empty sequence. *)
Theorem X13_refresh_never_reloads_workflows (S : System) :
  let S' := refreshCache S in
  workflowsCache (loader (state S')) = Some []
  ∧ lastFetchTime (loader (state S')) = 0%Z
  ∧ isFetching (loader (state S')) = true
  ∧ config (loader (state S')) = config (loader (state S))
  ∧ (if isFetching (loader (state S))
     then stepsCache (loader (state S')) = Some []
          ∧ waiting S' = waiting S
          ∧ world (state S') = world (state S)
     else stepsCache (loader (state S')) = None
          ∧ waiting S' = (waiting S ++ [steps])%list).
Proof.
  intros S'. unfold S'. destruct (isFetching (loader (state S))) eqn:Hf.
  - rewrite refreshCache_busy by done. by split_and!.
  - rewrite refreshCache_idle by done. by split_and!.
Qed.

(** X14. The object [refreshCache] returns, when it is called with no
    load under way and resumes as the load of the steps ends: [steps]
    counts what the source of the steps gave, and [workflows] is 0,
    whatever the source holds.  No listing of the workflows was
    requested, and along every later run that lasts at most the TTL
    [loadWorkflows] returns the empty sequence and changes nothing. *)
Theorem X14_refresh_reports_no_workflows (S : System) (acts : list action) :
  quiescent S →
  let cfg := config (loader (state S)) in
  let S1 := run [Refresh; Complete] S in
  (∃ items, stepsCache (loader (state S1)) = Some items
            ∧ refreshCache_result (state S1)
              = mkSummary (length items) 0 (source cfg) (now (world (state S))))
  ∧ workflowsCache (loader (state S1)) = Some []
  ∧ lastFetchTime (loader (state S1)) = now (world (state S))
  ∧ quiescent S1
  ∧ (listing_calls cfg "workflows" (trace (world (state S1)))
     ≤ listing_calls cfg "workflows" (trace (world (state S))))%nat
  ∧ (Forall (passive workflows) acts →
     (elapsed acts ≤ cacheTTL cfg)%Z →
     load workflows (state (run acts S1)) = (Ok [], state (run acts S1))).
Proof.
  intros [Hf Hw] cfg S1. unfold S1. cbn [run step].
  rewrite (refreshCache_idle S Hf), Hw. cbn [app].
  set (Sa := mkSystem _ _).
  assert (Hne : steps ≠ workflows) by discriminate.
  destruct (complete_window cfg workflows (now (world (state S)))
              (listing_calls cfg "workflows" (trace (world (state S)))) Sa steps Hne)
    as (Hcfg & _ & Hn & Hw' & Hf' & Hc' & Hlast).
  { reflexivity. }
  { reflexivity. }
  { unfold Sa. cbn. lia. }
  { unfold Sa. cbn. lia. }
  destruct (complete_cases Sa steps [] eq_refl) as (items & d & evs & Heq & _).
  assert (Hnow : now (world (state (complete Sa))) = now (world (state S)))
    by by rewrite now_complete.
  assert (Hwf : workflowsCache (loader (state (complete Sa))) = Some []) by exact Hc'.
  assert (Hst : stepsCache (loader (state (complete Sa))) = Some items)
    by by rewrite Heq.
  split_and!.
  - exists items. split; [done|]. unfold refreshCache_result.
    by rewrite Hst, Hwf, Hcfg, Hnow.
  - done.
  - exact Hlast.
  - by split.
  - exact Hn.
  - intros Hp Hel.
    destruct (fresh_entry_sticks workflows (complete Sa) [] acts) as (_ & H2 & _);
      try done.
    + split; [rewrite Hw'; cbn; lia|]. by rewrite Hw', Hf'.
    + rewrite Hw'. apply not_elem_of_nil.
    + by rewrite Hlast, Hnow.
    + by rewrite Hcfg.
Qed.

(** X14 at work: GitHub up and nothing loaded; after [refreshCache] the
    summary counts no workflows, and 5 ms later [loadWorkflows] still
    returns nothing. *)
Lemma X14_witness :
  sum_workflows (refreshCache_result
                   (state (run [Refresh; Complete] (mkSystem Example.s0 [])))) = 0%nat
  ∧ load workflows (state (run [Tick 5] (run [Refresh; Complete] (mkSystem Example.s0 []))))
    = (Ok [], state (run [Tick 5] (run [Refresh; Complete] (mkSystem Example.s0 [])))).
Proof.
  destruct (X14_refresh_reports_no_workflows (mkSystem Example.s0 []) [Tick 5])
    as ((items & _ & Hres) & _ & _ & _ & _ & Hload).
  - split; reflexivity.
  - split; [by rewrite Hres|]. apply Hload.
    + repeat constructor. cbn. lia.
    + vm_compute. discriminate.
Defined.

(** X15. [getCacheStatus] after a load.  It never throws and changes
    nothing.  After [load T] the count it reports for [T] is the length
    of the sequence the load returned, and the count of the other
    collection is as before.  When the load went to its source, the
    status is stale exactly when the TTL is negative, and [lastFetch] is
    the time of the load (unless the clock reads 0, where it is
    [null]). *)
Theorem X15_status_after_load (T : collection) (s : State) :
  let s' := (load T s).2 in
  ∃ items st,
    (load T s).1 = Ok items
    ∧ getCacheStatus s' = (Ok st, s')
    ∧ count_of T st = length items
    ∧ (∀ U, U ≠ T → count_of U st = length (default [] (cache_of U (loader s))))
    ∧ st_source st = source (config (loader s))
    ∧ (goes_to_source T s = true →
       st_isStale st = (cacheTTL (config (loader s)) <? 0)%Z
       ∧ st_lastFetch st = (if (now (world s) =? 0)%Z then None
                            else Some (now (world s)))).
Proof.
  intros s'. unfold s'.
  destruct (getCacheStatus_run (load T s).2) as (st & Hrun & Hstale & Hsrc & _ & Hlast & Hcount).
  destruct (load_total T s) as (items & l & w & Hl & Hcfg & Hother & _).
  exists items, st. split; [by rewrite Hl|]. split; [done|].
  rewrite Hstale, Hsrc, Hlast. setoid_rewrite Hcount. clear Hrun Hstale Hsrc Hlast Hcount.
  split_and!.
  - rewrite Hl. cbn. by rewrite cache_of_set_cache.
  - intros U HU. rewrite Hl. cbn. by rewrite cache_of_set_cache_ne, Hother.
  - rewrite Hl. cbn. by rewrite config_set_cache, Hcfg.
  - intros Hg. destruct (load_fetch T s Hg) as (items' & d & evs & -> & _).
    cbn [snd]. rewrite stale_refetched_now.
    split; [done|]. cbn. rewrite lastFetchTime_set_cache. cbn.
    unfold truthy_number. by destruct (now (world s) =? 0)%Z.
Qed.

(** X15 at work: after the first load of the steps the status counts two
    steps, no workflows, and is not stale. *)
Lemma X15_witness :
  ∃ st, (getCacheStatus (load steps Example.s0).2).1 = Ok st
        ∧ st_isStale st = false ∧ st_lastFetch st = Some 1000%Z
        ∧ st_workflowsCount st = 0%nat.
Proof.
  destruct (X15_status_after_load steps Example.s0)
    as (items & st & _ & Hrun & _ & Hother & _ & Hsrc).
  exists st. destruct (Hsrc eq_refl) as [Hstale Hlast].
  split_and!; [by rewrite Hrun|exact Hstale|exact Hlast|].
  apply (Hother workflows). discriminate.
Defined.

(** X16. When [getCacheStatus] reports a status that is not stale and a
    positive count for a collection, a load of that collection returns
    the cached sequence, of that length, and changes nothing: it does
    no I/O. *)
Theorem X16_fresh_status_means_no_io (T : collection) (s : State) (st : CacheStatus) :
  (getCacheStatus s).1 = Ok st →
  st_isStale st = false →
  (0 < count_of T st)%nat →
  ∃ c, load T s = (Ok c, s) ∧ length c = count_of T st.
Proof.
  destruct (getCacheStatus_run s) as (st' & -> & Hstale & _ & _ & _ & Hcount).
  intros [= <-] Hfresh Hpos. rewrite Hstale in Hfresh. rewrite Hcount in Hpos |- *.
  destruct (cache_of T (loader s)) as [c|] eqn:Hc; [|cbn in Hpos; lia].
  exists c. split; [by apply load_fresh|done].
Qed.

(** X16 at work: the steps were fetched 100 ms ago. *)
Lemma X16_witness :
  ∃ c, load steps Example.s_cached = (Ok c, Example.s_cached) ∧ length c = 1%nat.
Proof.
  apply (X16_fresh_status_means_no_io steps Example.s_cached _ eq_refl eq_refl).
  cbn. lia.
Defined.

(** X17. Two calls of [updateConfig] in a row do what one call does with
    the two objects merged, a truthy field of the second object
    prevailing over the field of the first.  In particular
    [updateConfig] is idempotent. *)
Theorem X17_updateConfig_composes (c1 c2 : NewConfig) (l : Loader) :
  updateConfig c2 (updateConfig c1 l) = updateConfig (merged c1 c2) l
  ∧ updateConfig c1 (updateConfig c1 l) = updateConfig c1 l.
Proof.
  split; [apply updateConfig_merged|]. by rewrite updateConfig_merged, merged_same.
Qed.

(** X18. [getCacheStatus] after [updateConfig], for a TTL that stays an
    exact number when converted to milliseconds: both counts are 0 and
    [lastFetch] is [null]; the status is stale exactly when the clock is
    past the TTL; and a TTL given to [updateConfig] in seconds, when it
    is not 0, is reported back as the same number of seconds. *)
Theorem X18_status_after_updateConfig (c : NewConfig) (l : Loader) (w : World) :
  (∀ n, newCacheTTL c = Some n → safe_integer (n * 1000)) →
  let s := mkState (updateConfig c l) w in
  ∃ st,
    getCacheStatus s = (Ok st, s)
    ∧ st_stepsCount st = 0%nat ∧ st_workflowsCount st = 0%nat
    ∧ st_lastFetch st = None
    ∧ st_isStale st = (cacheTTL (config (updateConfig c l)) <? now w)%Z
    ∧ (∀ n, newCacheTTL c = Some n → n ≠ 0%Z →
            QArith_base.Qeq (st_cacheTTL st) (QArith_base.inject_Z n)).
Proof.
  intros _ s.
  destruct (getCacheStatus_run s) as (st & Hrun & Hstale & _ & Httl & Hlast & Hcount).
  exists st. split; [done|]. split_and!.
  - exact (Hcount steps).
  - exact (Hcount workflows).
  - by rewrite Hlast.
  - rewrite Hstale. unfold stale. cbn. by rewrite Z.sub_0_r.
  - intros n Hn Hnz. rewrite Httl. cbn [s loader]. rewrite cacheTTL_updateConfig, Hn.
    rewrite (truthy_number_true n Hnz). unfold QArith_base.Qeq. cbn. lia.
Qed.

(** X18 at work: a TTL of 60 seconds. *)
Lemma X18_witness :
  ∃ st,
    (getCacheStatus (mkState (updateConfig Reconfig.local_60 Reconfig.l) Example.w0)).1
    = Ok st
    ∧ QArith_base.Qeq (st_cacheTTL st) (QArith_base.inject_Z 60)
    ∧ st_stepsCount st = 0%nat.
Proof.
  destruct (X18_status_after_updateConfig Reconfig.local_60 Reconfig.l Example.w0)
    as (st & Hrun & Hsteps & _ & _ & _ & Httl).
  - intros n [= <-]. unfold safe_integer. cbn. lia.
  - exists st. split_and!; [by rewrite Hrun| |exact Hsteps].
    apply Httl; [reflexivity|discriminate].
Defined.

(** X19. [updateConfig] does not wait for a fetch in flight and leaves
    the flag raised.  When it is called while a fetch is in flight, a
    load that follows, of either collection, does no I/O under the new
    configuration: it returns the empty sequence and stores it as the
    entry, and the set of waiting loads is as before. *)
Theorem X19_updateConfig_during_fetch (c : NewConfig) (T : collection) (S : System) :
  isFetching (loader (state S)) = true →
  let S' := run [Reconfigure c; Call T] S in
  cache_of T (loader (state S')) = Some []
  ∧ config (loader (state S')) = config (updateConfig c (loader (state S)))
  ∧ isFetching (loader (state S')) = true
  ∧ world (state S') = world (state S)
  ∧ waiting S' = waiting S
  ∧ load T (mkState (updateConfig c (loader (state S))) (world (state S)))
    = (Ok [], state S').
Proof.
  intros Hf S'. unfold S'. cbn [run step].
  rewrite call_busy by done. cbn [state waiting loader world].
  rewrite cache_of_updateConfig. cbn [default].
  rewrite cache_of_set_cache, config_set_cache, isFetching_set_cache.
  split_and!; try done.
  rewrite load_busy by done. cbn [loader world]. by rewrite cache_of_updateConfig.
Qed.

(** X19 at work: the workflows were cached; after [updateConfig] during
    the load of the steps, [loadWorkflows] returns nothing. *)
Lemma X19_witness :
  cache_of workflows (loader (state (run [Reconfigure Reconfig.local_60; Call workflows]
                                         Busy.S))) = Some []
  ∧ waiting (run [Reconfigure Reconfig.local_60; Call workflows] Busy.S) = [steps].
Proof.
  destruct (X19_updateConfig_during_fetch Reconfig.local_60 workflows Busy.S)
    as (Hc & _ & _ & _ & Hw & _).
  - reflexivity.
  - split; [exact Hc|exact Hw].
Defined.

(** X20. What counts as a listing.  [fetchGitHubDirectory] sends one
    request, to the contents URL of the directory, and returns the
    entries exactly when the answer has a status from 200 to 299 and a
    JSON array as its body.  On a network error, any other status, a
    body that is not JSON or a body that is not an array, it throws. *)
Theorem X20_what_counts_as_a_listing (type : string) (s : State) :
  let cfg := config (loader s) in
  let answer := github (world s) (listing_url cfg type) (authorization_of cfg) in
  (fetchGitHubDirectory type s).2
  = after s (disk (world s)) [EvFetch (listing_url cfg type) (authorization_of cfg)]
  ∧ (∀ entries,
       (fetchGitHubDirectory type s).1 = Ok entries ↔
       ∃ status statusText,
         answer = Response status statusText (Some (PArray entries))
         ∧ (200 ≤ status ≤ 299)%Z)
  ∧ ((∃ msg, (fetchGitHubDirectory type s).1 = Throw msg) ↔
     ¬ ∃ status statusText entries,
         answer = Response status statusText (Some (PArray entries))
         ∧ (200 ≤ status ≤ 299)%Z).
Proof.
  intros cfg answer.
  destruct (listing s type) as [entries|] eqn:Hl.
  - rewrite (fetchGitHubDirectory_ok _ _ _ Hl). cbn [fst snd]. split; [done|].
    apply listing_Some in Hl as (status & text & Ha & Hok). split.
    + intros es. split.
      * intros [= <-]. by exists status, text.
      * intros (st' & tx' & Ha' & _). fold cfg answer in Ha. rewrite Ha in Ha'.
        by injection Ha' as _ _ ->.
    + split; [by intros [msg ?]|]. intros []. by exists status, text, entries.
  - destruct (fetchGitHubDirectory_fail _ _ Hl) as (msg & ->). cbn [fst snd].
    split; [done|]. split.
    + intros es. split; [done|]. intros H. apply listing_Some in H. by rewrite Hl in H.
    + split; [|by exists msg]. intros _ (status & text & es & H).
      assert (listing s type = Some es) as Hs by (apply listing_Some; by exists status, text).
      by rewrite Hl in Hs.
Qed.

(** X20 at work: GitHub answers 404 for the workflows. *)
Lemma X20_witness : ∃ msg, (fetchGitHubDirectory "workflows" Example.s0).1 = Throw msg.
Proof.
  destruct (X20_what_counts_as_a_listing "workflows" Example.s0) as (_ & _ & Hfail).
  apply Hfail. intros (status & text & es & H & _). vm_compute in H. discriminate H.
Defined.
